(** * LoraESP32: the message codec, the T9 keypad composer, the key
      handlers, the keypad, radio, Bluetooth and battery tasks and the
      screens of [src/main.cpp], embedded as Rocq functions and checked
      against the specification. *)

From Stdlib Require Import ZArith List Ascii String DecimalString Bool Lia Btauto.
From Stdlib Require Import Floats.SpecFloat.
Import ListNotations.
Open Scope Z_scope.

(** ** Machine integers

    [uint8_t] and [uint32_t] values are integers with the wrap-around of the
    C conversion written out. *)

Definition uint8_t (z : Z) : Z := z mod 256.
Definition uint32_t (z : Z) : Z := z mod 4294967296.

Definition is_byte (z : Z) : Prop := 0 <= z < 256.

(** ** Arduino [String]

    An Arduino [String] is a character buffer with its length kept aside; it
    is modelled by the list of its characters.  A [char] and the [uint8_t] of
    the same bit pattern are related by [byte_of_char] and [char_of_byte]. *)

Definition ArduinoString : Type := list ascii.

Definition lit (s : string) : ArduinoString := list_ascii_of_string s.

Definition len {A : Type} (l : list A) : Z := Z.of_nat (List.length l).

Definition byte_of_char (c : ascii) : Z := Z.of_N (N_of_ascii c).
Definition char_of_byte (z : Z) : ascii := ascii_of_N (Z.to_N (uint8_t z)).

Definition NUL : ascii := Ascii.zero.

(** [c_str]: what a C function sees through a [const char *], the characters
    before the first NUL. *)
Fixpoint c_str (s : ArduinoString) : ArduinoString :=
  match s with
  | [] => []
  | c :: s' => if Ascii.eqb c NUL then [] else c :: c_str s'
  end.

(** [String::substring(left, right)]: the arguments are swapped when
    [left > right], an out-of-range [left] gives the empty string and [right]
    is clipped to the length. *)
Definition substring (s : ArduinoString) (left right : Z) : ArduinoString :=
  let lo := Z.min left right in
  let hi := Z.max left right in
  firstn (Z.to_nat (hi - lo)) (skipn (Z.to_nat lo) s).

(** [sprintf(hex, "%02X", b)] for a [uint8_t] argument. *)
Definition hex_digit (d : Z) : ascii :=
  if d <? 10 then ascii_of_N (Z.to_N (48 + d)) else ascii_of_N (Z.to_N (55 + d)).

Definition sprintf_02X (b : Z) : ArduinoString :=
  [hex_digit ((b / 16) mod 16); hex_digit (b mod 16)].

(** [isxdigit], [isspace] and the base-16 digit value of the C library. *)
Definition digit_value (c : ascii) : option Z :=
  let n := byte_of_char c in
  if (48 <=? n) && (n <=? 57) then Some (n - 48)
  else if (65 <=? n) && (n <=? 70) then Some (n - 55)
  else if (97 <=? n) && (n <=? 102) then Some (n - 87)
  else None.

Definition isxdigit (c : ascii) : bool :=
  match digit_value c with Some _ => true | None => false end.

Definition isspace (c : ascii) : bool :=
  let n := byte_of_char c in
  (n =? 32) || ((9 <=? n) && (n <=? 13)).

(** [strtol(s, NULL, 16)]: leading white space, an optional sign, an optional
    [0x] prefix, then the longest run of hexadecimal digits; the value
    saturates at the ends of the 32-bit [long]. *)
Fixpoint skip_spaces (s : ArduinoString) : ArduinoString :=
  match s with
  | c :: s' => if isspace c then skip_spaces s' else s
  | [] => []
  end.

Fixpoint hex_digits (acc : Z) (s : ArduinoString) : Z :=
  match s with
  | c :: s' =>
      match digit_value c with
      | Some d => hex_digits (acc * 16 + d) s'
      | None => acc
      end
  | [] => acc
  end.

Definition LONG_MAX : Z := 2147483647.
Definition LONG_MIN : Z := -2147483648.

Definition strtol16 (s : ArduinoString) : Z :=
  let s1 := skip_spaces s in
  let '(neg, s2) :=
    match s1 with
    | "-"%char :: r => (true, r)
    | "+"%char :: r => (false, r)
    | _ => (false, s1)
    end in
  let s3 :=
    match s2 with
    | "0"%char :: "x"%char :: r => r
    | "0"%char :: "X"%char :: r => r
    | _ => s2
    end in
  let v := hex_digits 0 s3 in
  if neg then Z.max LONG_MIN (- v) else Z.min LONG_MAX v.

(** ** Effects of the codec

    The codec works on heap arrays through raw pointers and calls the block
    cipher of the Crypto library.  Both are recorded: a run returns its value
    together with the trace of the cipher calls it made and of the array
    accesses that fell outside the allocation. *)

Inductive event : Type :=
| CipherCall
| OutOfBounds (index count size : Z).

Definition M (A : Type) : Type := (A * list event)%type.

Definition ret {A : Type} (a : A) : M A := (a, []).

Definition bind {A B : Type} (m : M A) (k : A -> M B) : M B :=
  let r := k (fst m) in (fst r, snd m ++ snd r).

Definition emit (e : event) : M unit := (tt, [e]).

Definition value {A : Type} (m : M A) : A := fst m.
Definition trace {A : Type} (m : M A) : list event := snd m.

Notation "x <- m ;; k" := (bind m (fun x => k))
  (at level 61, m at next level, right associativity).
Notation "m ;;; k" := (bind m (fun _ => k))
  (at level 61, right associativity).

Definition is_cipher_call (e : event) : bool :=
  match e with CipherCall => true | OutOfBounds _ _ _ => false end.

Definition is_out_of_bounds (e : event) : bool :=
  match e with CipherCall => false | OutOfBounds _ _ _ => true end.

Definition cipher_calls {A : Type} (m : M A) : nat :=
  List.length (filter is_cipher_call (trace m)).

Definition memory_safe {A : Type} (m : M A) : bool :=
  forallb (fun e => negb (is_out_of_bounds e)) (trace m).

(** [for (int i = 0; i < limit; i += step) body]: [iterate] runs the body a
    given number of times, [for_loop] runs it as often as the C loop does. *)
Fixpoint iterate {S : Type} (n : nat) (i step : Z) (body : Z -> S -> M S) (s : S) : M S :=
  match n with
  | O => ret s
  | Datatypes.S n' => s' <- body i s ;; iterate n' (i + step) step body s'
  end.

Definition for_loop {S : Type} (limit step : Z) (body : Z -> S -> M S) (s : S) : M S :=
  iterate (Z.to_nat ((limit + step - 1) / step)) 0 step body s.

(** ** Heap arrays of [uint8_t] *)

Definition new_array (n : Z) : list Z := repeat 0 (Z.to_nat n).

Definition in_bounds (index count size : Z) : bool :=
  (count <=? 0) || ((0 <=? index) && (index + count <=? size)).

(** Writing [vs] from cell [i] on; what falls outside the array is dropped. *)
Definition poke {A : Type} (a : list A) (i : Z) (vs : list A) : list A :=
  if i <? 0 then a
  else firstn (Z.to_nat i) a
         ++ firstn (Z.to_nat (len a - i)) vs
         ++ skipn (Z.to_nat (i + len vs)) a.

Definition check (index count size : Z) : M unit :=
  if in_bounds index count size then ret tt else emit (OutOfBounds index count size).

(** [a[i] = v] *)
Definition store {A : Type} (a : list A) (i : Z) (v : A) : M (list A) :=
  check i 1 (len a) ;;; ret (poke a i [v]).

(** Writing the first [n] of [vs] to the [n] cells from [a + i] on. *)
Definition store_cells {A : Type} (a : list A) (i : Z) (n : nat) (vs : list A) : M (list A) :=
  check i (Z.of_nat n) (len a) ;;; ret (poke a i (firstn n vs)).

(** [memcpy(a + i, src, n)] where [src] holds [n] bytes. *)
Definition memcpy (a : list Z) (i : Z) (src : list Z) : M (list Z) :=
  check i (len src) (len a) ;;; ret (poke a i src).

(** [memset(a + i, v, n)] *)
Definition memset (a : list Z) (i : Z) (v : Z) (n : Z) : M (list Z) :=
  check i n (len a) ;;; ret (poke a i (repeat (uint8_t v) (Z.to_nat n))).

Section Memory.

(** The byte found at an address outside the array: any function serves. *)
Variable stray : Z -> Z.

Definition peek (a : list Z) (i : Z) : Z :=
  if (0 <=? i) && (i <? len a) then nth (Z.to_nat i) a 0 else uint8_t (stray i).

(** [a[i]] *)
Definition load (a : list Z) (i : Z) : M Z :=
  check i 1 (len a) ;;; ret (peek a i).

(** The [n] cells from [a + i] on. *)
Definition load_cells (a : list Z) (i : Z) (n : nat) : M (list Z) :=
  check i (Z.of_nat n) (len a) ;;;
  ret (map (fun k => peek a (i + Z.of_nat k)) (seq 0 n)).

End Memory.

(** ** The block cipher

    [AES128] of the Crypto library is used through the [BlockCipher]
    interface: [setKey], then [encryptBlock(output, input)] and
    [decryptBlock(output, input)] on 16-byte blocks. *)

Class BlockCipher : Type := {
  encryptBlock : list Z -> list Z -> list Z;
  decryptBlock : list Z -> list Z -> list Z
}.

Definition is_block (b : list Z) : Prop :=
  List.length b = 16%nat /\ Forall is_byte b.

Class BlockCipherLaws (C : BlockCipher) : Prop := {
  encryptBlock_block : forall key b,
    is_block key -> is_block b -> is_block (encryptBlock key b);
  decryptBlock_encryptBlock : forall key b,
    is_block key -> is_block b -> decryptBlock key (encryptBlock key b) = b
}.

Definition AES_KEY : list Z :=
  [0x01; 0x23; 0x45; 0x67; 0x89; 0xAB; 0xCD; 0xEF;
   0xFE; 0xDC; 0xBA; 0x98; 0x76; 0x54; 0x32; 0x10].

(** ** The codec *)

Section Codec.

Context {aes128 : BlockCipher}.
Variable stray : Z -> Z.

(** [f(output + i, input + i)] for a block function [f], which reads 16
    bytes and writes 16 bytes. *)
Definition block_at (f : list Z -> list Z) (input : list Z) (i : Z) (output : list Z)
  : M (list Z) :=
  blk <- load_cells stray input i 16 ;;
  emit CipherCall ;;;
  store_cells output i 16 (map uint8_t (f blk)).

Definition encryptMessage (plaintext : ArduinoString) : M ArduinoString :=
  let padLen := uint8_t (16 - (len plaintext mod 16)) in
  let inputLen := uint8_t (len plaintext + padLen) in
  let input := new_array inputLen in
  let output := new_array inputLen in
  input <- memcpy input 0 (map byte_of_char plaintext) ;;
  input <- memset input (len plaintext) padLen padLen ;;
  output <- for_loop inputLen 16 (block_at (encryptBlock AES_KEY) input) output ;;
  hexOutput <- for_loop inputLen 1
                 (fun i hexOutput =>
                    b <- load stray output i ;;
                    ret (hexOutput ++ sprintf_02X b)) [] ;;
  ret hexOutput.

Definition decryptMessage (cipherHex : ArduinoString) : M ArduinoString :=
  if negb (len cipherHex mod 32 =? 0) then ret (lit "[ERRO DECRYPT]") else
  let cipherLen := uint8_t (len cipherHex / 2) in
  let cipher := new_array cipherLen in
  let output := new_array cipherLen in
  cipher <- for_loop cipherLen 1
              (fun i cipher =>
                 let byteStr := substring cipherHex (i * 2) (i * 2 + 2) in
                 store cipher i (uint8_t (strtol16 (c_str byteStr)))) cipher ;;
  output <- for_loop cipherLen 16 (block_at (decryptBlock AES_KEY) cipher) output ;;
  last <- load stray output (cipherLen - 1) ;;
  let padLen := if last >? 16 then 0 else last in
  plaintext <- for_loop (cipherLen - padLen) 1
                 (fun i plaintext =>
                    b <- load stray output i ;;
                    ret (plaintext ++ [char_of_byte b])) [] ;;
  ret plaintext.

End Codec.

(** ** The 256 bytes

    [all_bytes] lists them, [byteb] tests for one; a property of a byte that
    can be run is settled by running it on the list. *)

Definition all_bytes : list Z := map Z.of_nat (seq 0 256).

Definition byteb (z : Z) : bool := (0 <=? z) && (z <? 256).

(** ** AES-128

    The Crypto library is not part of the repository.  Its [AES128] class
    computes the AES-128 block cipher of FIPS-197, written out here so that
    the codec can be run: the state is the block in input order (column
    major), a byte is an integer below 256 and a polynomial over GF(2). *)

Module AES128.

Definition xtime (a : Z) : Z :=
  Z.lxor ((2 * a) mod 256) (if 128 <=? a then 27 else 0).

Fixpoint gmul_loop (n : nat) (a b acc : Z) : Z :=
  match n with
  | O => acc
  | S n' => gmul_loop n' (xtime a) (b / 2) (if Z.odd b then Z.lxor acc a else acc)
  end.

Definition gmul (a b : Z) : Z := gmul_loop 8 a b 0.

Fixpoint gpow (a : Z) (n : nat) : Z :=
  match n with
  | O => 1
  | S n' => gmul a (gpow a n')
  end.

Definition rotl8 (b k : Z) : Z :=
  Z.lor (Z.shiftl b k mod 256) (Z.shiftr b (8 - k)).

Definition affine (b : Z) : Z :=
  Z.lxor b (Z.lxor (rotl8 b 1) (Z.lxor (rotl8 b 2)
    (Z.lxor (rotl8 b 3) (Z.lxor (rotl8 b 4) 0x63)))).

Definition SBOX : list Z :=
  Eval vm_compute in map (fun x => affine (gpow x 254)) all_bytes.

Definition index_of (y : Z) (l : list Z) : Z :=
  (fix go (i : Z) (l : list Z) : Z :=
     match l with
     | [] => 0
     | x :: l' => if x =? y then i else go (i + 1) l'
     end) 0 l.

Definition INV_SBOX : list Z :=
  Eval vm_compute in map (fun y => index_of y SBOX) all_bytes.

Definition SubByte (a : Z) : Z := nth (Z.to_nat a) SBOX 0.
Definition InvSubByte (a : Z) : Z := nth (Z.to_nat a) INV_SBOX 0.

Definition SubBytes (s : list Z) : list Z := map SubByte s.
Definition InvSubBytes (s : list Z) : list Z := map InvSubByte s.

Definition ShiftRows (s : list Z) : list Z :=
  match s with
  | [s0; s1; s2; s3; s4; s5; s6; s7; s8; s9; s10; s11; s12; s13; s14; s15] =>
      [s0; s5; s10; s15; s4; s9; s14; s3; s8; s13; s2; s7; s12; s1; s6; s11]
  | _ => s
  end.

Definition InvShiftRows (s : list Z) : list Z :=
  match s with
  | [s0; s1; s2; s3; s4; s5; s6; s7; s8; s9; s10; s11; s12; s13; s14; s15] =>
      [s0; s13; s10; s7; s4; s1; s14; s11; s8; s5; s2; s15; s12; s9; s6; s3]
  | _ => s
  end.

Definition mul2 (a : Z) : Z := xtime a.
Definition mul3 (a : Z) : Z := Z.lxor (xtime a) a.
Definition mul9 (a : Z) : Z := Z.lxor (xtime (xtime (xtime a))) a.
Definition mul11 (a : Z) : Z :=
  Z.lxor (xtime (xtime (xtime a))) (Z.lxor (xtime a) a).
Definition mul13 (a : Z) : Z :=
  Z.lxor (xtime (xtime (xtime a))) (Z.lxor (xtime (xtime a)) a).
Definition mul14 (a : Z) : Z :=
  Z.lxor (xtime (xtime (xtime a))) (Z.lxor (xtime (xtime a)) (xtime a)).

Definition xor4 (a b c d : Z) : Z := Z.lxor a (Z.lxor b (Z.lxor c d)).

Fixpoint MixColumns (s : list Z) : list Z :=
  match s with
  | a :: b :: c :: d :: s' =>
      xor4 (mul2 a) (mul3 b) c d ::
      xor4 a (mul2 b) (mul3 c) d ::
      xor4 a b (mul2 c) (mul3 d) ::
      xor4 (mul3 a) b c (mul2 d) :: MixColumns s'
  | _ => s
  end.

Fixpoint InvMixColumns (s : list Z) : list Z :=
  match s with
  | a :: b :: c :: d :: s' =>
      xor4 (mul14 a) (mul11 b) (mul13 c) (mul9 d) ::
      xor4 (mul9 a) (mul14 b) (mul11 c) (mul13 d) ::
      xor4 (mul13 a) (mul9 b) (mul14 c) (mul11 d) ::
      xor4 (mul11 a) (mul13 b) (mul9 c) (mul14 d) :: InvMixColumns s'
  | _ => s
  end.

Fixpoint AddRoundKey (s k : list Z) : list Z :=
  match s, k with
  | a :: s', b :: k' => Z.lxor a b :: AddRoundKey s' k'
  | _, _ => s
  end.

(** Key schedule: the next round key from the previous one. *)
Definition next_round_key (k : list Z) (rcon : Z) : list Z :=
  match k with
  | [k0; k1; k2; k3; k4; k5; k6; k7; k8; k9; k10; k11; k12; k13; k14; k15] =>
      let w0 := AddRoundKey [k0; k1; k2; k3]
                  [Z.lxor (SubByte k13) rcon; SubByte k14; SubByte k15; SubByte k12] in
      let w1 := AddRoundKey [k4; k5; k6; k7] w0 in
      let w2 := AddRoundKey [k8; k9; k10; k11] w1 in
      let w3 := AddRoundKey [k12; k13; k14; k15] w2 in
      w0 ++ w1 ++ w2 ++ w3
  | _ => k
  end.

Definition RCON : list Z := [1; 2; 4; 8; 16; 32; 64; 128; 27; 54].

Fixpoint expand (k : list Z) (rcons : list Z) : list (list Z) :=
  match rcons with
  | [] => []
  | rc :: rcons' => let k' := next_round_key k rc in k' :: expand k' rcons'
  end.

(** The ten round keys that follow the cipher key. *)
Definition KeyExpansion (key : list Z) : list (list Z) := expand key RCON.

Definition round (s k : list Z) : list Z :=
  AddRoundKey (MixColumns (ShiftRows (SubBytes s))) k.

Definition final_round (s k : list Z) : list Z :=
  AddRoundKey (ShiftRows (SubBytes s)) k.

Definition inv_round (s k : list Z) : list Z :=
  InvSubBytes (InvShiftRows (InvMixColumns (AddRoundKey s k))).

Definition inv_final_round (s k : list Z) : list Z :=
  InvSubBytes (InvShiftRows (AddRoundKey s k)).

Definition Cipher (key input : list Z) : list Z :=
  let ks := KeyExpansion key in
  final_round (fold_left round (removelast ks) (AddRoundKey input key)) (last ks []).

Definition InvCipher (key input : list Z) : list Z :=
  let ks := KeyExpansion key in
  AddRoundKey (fold_left inv_round (rev (removelast ks))
                 (inv_final_round input (last ks []))) key.

End AES128.

#[export] Instance AES128_cipher : BlockCipher := {
  encryptBlock := AES128.Cipher;
  decryptBlock := AES128.InvCipher
}.

(** ** The T9 keypad tables *)

Definition T9_MAP : list (list ascii) :=
  map (map ascii_of_nat)
    [[49; 46; 44; 33; 63];    (* 1 . , ! ? *)
     [65; 66; 67; 50; 0];     (* A B C 2 *)
     [68; 69; 70; 51; 0];     (* D E F 3 *)
     [65; 0; 0; 0; 0];        (* A - menu *)
     [71; 72; 73; 52; 0];     (* G H I 4 *)
     [74; 75; 76; 53; 0];     (* J K L 5 *)
     [77; 78; 79; 54; 0];     (* M N O 6 *)
     [66; 0; 0; 0; 0];        (* B - back *)
     [80; 81; 82; 83; 55];    (* P Q R S 7 *)
     [84; 85; 86; 56; 0];     (* T U V 8 *)
     [87; 88; 89; 90; 57];    (* W X Y Z 9 *)
     [67; 0; 0; 0; 0];        (* C - send *)
     [42; 43; 45; 0; 0];      (* * + - *)
     [32; 48; 0; 0; 0];       (* space 0 *)
     [35; 64; 0; 0; 0];       (* # @ *)
     [68; 0; 0; 0; 0]]%nat.   (* D - delete *)

(** The loop of [getT9Char] that counts the glyphs before the first NUL. *)
Fixpoint count_glyphs (row : list ascii) : Z :=
  match row with
  | [] => 0
  | c :: row' => if Ascii.eqb c NUL then 0 else 1 + count_glyphs row'
  end.

Definition getT9Char (keyIndex charIndex : Z) : ascii :=
  if 16 <=? keyIndex then NUL else
  let row := nth (Z.to_nat keyIndex) T9_MAP [] in
  let maxChars := count_glyphs (firstn 5 row) in
  if maxChars =? 0 then NUL
  else nth (Z.to_nat (charIndex mod maxChars)) row NUL.

Definition isSpecialKey (keyIndex : Z) : bool :=
  (keyIndex =? 3) || (keyIndex =? 7) || (keyIndex =? 11) || (keyIndex =? 15).

Definition T9_TIMEOUT : Z := 1000.

(** ** Application state

    The globals of [main.cpp] that the key handlers and the tasks read and
    write.  An LVGL text area or label is the text it shows, the two serial
    ports are the bytes written to them so far ([Serial] is the debug
    console, [Serial2] the LoRa module), [lv_screen] is the screen object
    last passed to [lv_screen_load]. *)

Inductive AppScreen : Type :=
| SCREEN_MENU
| SCREEN_LORA
| SCREEN_MONITOR
| SCREEN_BLUETOOTH
| SCREEN_BATTERY
| SCREEN_SETTINGS.

Record App : Type := mkApp {
  currentScreen : AppScreen;
  encryptionEnabled : bool;
  bleConnected : bool;
  bleInitialized : bool;
  t9CharIndex : Z;
  lastKeyPressed : Z;
  lastKeyTime : Z;
  messageBuffer : list ascii;
  messageLen : Z;
  monitorMsgCount : Z;
  lv_screen : AppScreen;
  ui_lora_log : ArduinoString;
  ui_lora_input : ArduinoString;
  ui_monitor_log : ArduinoString;
  ui_monitor_status : ArduinoString;
  ui_bt_log : ArduinoString;
  ui_bt_status : ArduinoString;
  Serial : ArduinoString;
  Serial2 : ArduinoString
}.

Definition set_currentScreen (v : AppScreen) (st : App) : App :=
  mkApp v (encryptionEnabled st) (bleConnected st) (bleInitialized st)
    (t9CharIndex st) (lastKeyPressed st) (lastKeyTime st) (messageBuffer st)
    (messageLen st) (monitorMsgCount st) (lv_screen st) (ui_lora_log st)
    (ui_lora_input st) (ui_monitor_log st) (ui_monitor_status st)
    (ui_bt_log st) (ui_bt_status st) (Serial st) (Serial2 st).

Definition set_encryptionEnabled (v : bool) (st : App) : App :=
  mkApp (currentScreen st) v (bleConnected st) (bleInitialized st)
    (t9CharIndex st) (lastKeyPressed st) (lastKeyTime st) (messageBuffer st)
    (messageLen st) (monitorMsgCount st) (lv_screen st) (ui_lora_log st)
    (ui_lora_input st) (ui_monitor_log st) (ui_monitor_status st)
    (ui_bt_log st) (ui_bt_status st) (Serial st) (Serial2 st).

Definition set_t9CharIndex (v : Z) (st : App) : App :=
  mkApp (currentScreen st) (encryptionEnabled st) (bleConnected st)
    (bleInitialized st) v (lastKeyPressed st) (lastKeyTime st)
    (messageBuffer st) (messageLen st) (monitorMsgCount st) (lv_screen st)
    (ui_lora_log st) (ui_lora_input st) (ui_monitor_log st)
    (ui_monitor_status st) (ui_bt_log st) (ui_bt_status st) (Serial st)
    (Serial2 st).

Definition set_lastKeyPressed (v : Z) (st : App) : App :=
  mkApp (currentScreen st) (encryptionEnabled st) (bleConnected st)
    (bleInitialized st) (t9CharIndex st) v (lastKeyTime st) (messageBuffer st)
    (messageLen st) (monitorMsgCount st) (lv_screen st) (ui_lora_log st)
    (ui_lora_input st) (ui_monitor_log st) (ui_monitor_status st)
    (ui_bt_log st) (ui_bt_status st) (Serial st) (Serial2 st).

Definition set_lastKeyTime (v : Z) (st : App) : App :=
  mkApp (currentScreen st) (encryptionEnabled st) (bleConnected st)
    (bleInitialized st) (t9CharIndex st) (lastKeyPressed st) v
    (messageBuffer st) (messageLen st) (monitorMsgCount st) (lv_screen st)
    (ui_lora_log st) (ui_lora_input st) (ui_monitor_log st)
    (ui_monitor_status st) (ui_bt_log st) (ui_bt_status st) (Serial st)
    (Serial2 st).

Definition set_messageBuffer (v : list ascii) (st : App) : App :=
  mkApp (currentScreen st) (encryptionEnabled st) (bleConnected st)
    (bleInitialized st) (t9CharIndex st) (lastKeyPressed st) (lastKeyTime st)
    v (messageLen st) (monitorMsgCount st) (lv_screen st) (ui_lora_log st)
    (ui_lora_input st) (ui_monitor_log st) (ui_monitor_status st)
    (ui_bt_log st) (ui_bt_status st) (Serial st) (Serial2 st).

Definition set_messageLen (v : Z) (st : App) : App :=
  mkApp (currentScreen st) (encryptionEnabled st) (bleConnected st)
    (bleInitialized st) (t9CharIndex st) (lastKeyPressed st) (lastKeyTime st)
    (messageBuffer st) v (monitorMsgCount st) (lv_screen st) (ui_lora_log st)
    (ui_lora_input st) (ui_monitor_log st) (ui_monitor_status st)
    (ui_bt_log st) (ui_bt_status st) (Serial st) (Serial2 st).

Definition set_monitorMsgCount (v : Z) (st : App) : App :=
  mkApp (currentScreen st) (encryptionEnabled st) (bleConnected st)
    (bleInitialized st) (t9CharIndex st) (lastKeyPressed st) (lastKeyTime st)
    (messageBuffer st) (messageLen st) v (lv_screen st) (ui_lora_log st)
    (ui_lora_input st) (ui_monitor_log st) (ui_monitor_status st)
    (ui_bt_log st) (ui_bt_status st) (Serial st) (Serial2 st).

Definition set_lv_screen (v : AppScreen) (st : App) : App :=
  mkApp (currentScreen st) (encryptionEnabled st) (bleConnected st)
    (bleInitialized st) (t9CharIndex st) (lastKeyPressed st) (lastKeyTime st)
    (messageBuffer st) (messageLen st) (monitorMsgCount st) v (ui_lora_log st)
    (ui_lora_input st) (ui_monitor_log st) (ui_monitor_status st)
    (ui_bt_log st) (ui_bt_status st) (Serial st) (Serial2 st).

Definition set_ui_lora_log (v : ArduinoString) (st : App) : App :=
  mkApp (currentScreen st) (encryptionEnabled st) (bleConnected st)
    (bleInitialized st) (t9CharIndex st) (lastKeyPressed st) (lastKeyTime st)
    (messageBuffer st) (messageLen st) (monitorMsgCount st) (lv_screen st) v
    (ui_lora_input st) (ui_monitor_log st) (ui_monitor_status st)
    (ui_bt_log st) (ui_bt_status st) (Serial st) (Serial2 st).

Definition set_ui_lora_input (v : ArduinoString) (st : App) : App :=
  mkApp (currentScreen st) (encryptionEnabled st) (bleConnected st)
    (bleInitialized st) (t9CharIndex st) (lastKeyPressed st) (lastKeyTime st)
    (messageBuffer st) (messageLen st) (monitorMsgCount st) (lv_screen st)
    (ui_lora_log st) v (ui_monitor_log st) (ui_monitor_status st)
    (ui_bt_log st) (ui_bt_status st) (Serial st) (Serial2 st).

Definition set_ui_monitor_log (v : ArduinoString) (st : App) : App :=
  mkApp (currentScreen st) (encryptionEnabled st) (bleConnected st)
    (bleInitialized st) (t9CharIndex st) (lastKeyPressed st) (lastKeyTime st)
    (messageBuffer st) (messageLen st) (monitorMsgCount st) (lv_screen st)
    (ui_lora_log st) (ui_lora_input st) v (ui_monitor_status st)
    (ui_bt_log st) (ui_bt_status st) (Serial st) (Serial2 st).

Definition set_ui_monitor_status (v : ArduinoString) (st : App) : App :=
  mkApp (currentScreen st) (encryptionEnabled st) (bleConnected st)
    (bleInitialized st) (t9CharIndex st) (lastKeyPressed st) (lastKeyTime st)
    (messageBuffer st) (messageLen st) (monitorMsgCount st) (lv_screen st)
    (ui_lora_log st) (ui_lora_input st) (ui_monitor_log st) v (ui_bt_log st)
    (ui_bt_status st) (Serial st) (Serial2 st).

Definition set_ui_bt_log (v : ArduinoString) (st : App) : App :=
  mkApp (currentScreen st) (encryptionEnabled st) (bleConnected st)
    (bleInitialized st) (t9CharIndex st) (lastKeyPressed st) (lastKeyTime st)
    (messageBuffer st) (messageLen st) (monitorMsgCount st) (lv_screen st)
    (ui_lora_log st) (ui_lora_input st) (ui_monitor_log st)
    (ui_monitor_status st) v (ui_bt_status st) (Serial st) (Serial2 st).

Definition set_ui_bt_status (v : ArduinoString) (st : App) : App :=
  mkApp (currentScreen st) (encryptionEnabled st) (bleConnected st)
    (bleInitialized st) (t9CharIndex st) (lastKeyPressed st) (lastKeyTime st)
    (messageBuffer st) (messageLen st) (monitorMsgCount st) (lv_screen st)
    (ui_lora_log st) (ui_lora_input st) (ui_monitor_log st)
    (ui_monitor_status st) (ui_bt_log st) v (Serial st) (Serial2 st).

Definition set_Serial (v : ArduinoString) (st : App) : App :=
  mkApp (currentScreen st) (encryptionEnabled st) (bleConnected st)
    (bleInitialized st) (t9CharIndex st) (lastKeyPressed st) (lastKeyTime st)
    (messageBuffer st) (messageLen st) (monitorMsgCount st) (lv_screen st)
    (ui_lora_log st) (ui_lora_input st) (ui_monitor_log st)
    (ui_monitor_status st) (ui_bt_log st) (ui_bt_status st) v (Serial2 st).

Definition set_Serial2 (v : ArduinoString) (st : App) : App :=
  mkApp (currentScreen st) (encryptionEnabled st) (bleConnected st)
    (bleInitialized st) (t9CharIndex st) (lastKeyPressed st) (lastKeyTime st)
    (messageBuffer st) (messageLen st) (monitorMsgCount st) (lv_screen st)
    (ui_lora_log st) (ui_lora_input st) (ui_monitor_log st)
    (ui_monitor_status st) (ui_bt_log st) (ui_bt_status st) (Serial st) v.

(** [Serial.println(s)] and [Serial2.println(s)]: the text, then CR LF. *)
Definition println (port s : ArduinoString) : ArduinoString :=
  port ++ s ++ lit (String "013" (String "010" EmptyString)).

(** [lv_textarea_add_text(ta, s.c_str())]: LVGL reads a C string. *)
Definition lv_textarea_add_text (ta s : ArduinoString) : ArduinoString :=
  ta ++ c_str s.

(** [%d] and [%lu] of a non-negative value. *)
Definition decimal (n : Z) : ArduinoString :=
  lit (NilZero.string_of_uint (N.to_uint (Z.to_N n))).

Definition newline : ArduinoString := lit (String "010" EmptyString).

(** The state once [setup] has run (the debug console starts empty here). *)
Definition boot : App :=
  {| currentScreen := SCREEN_MENU;
     encryptionEnabled := true;
     bleConnected := false;
     bleInitialized := false;
     t9CharIndex := 0;
     lastKeyPressed := 255;
     lastKeyTime := 0;
     messageBuffer := repeat NUL 128;
     messageLen := 0;
     monitorMsgCount := 0;
     lv_screen := SCREEN_MENU;
     ui_lora_log := [];
     ui_lora_input := [];
     ui_monitor_log := [];
     ui_monitor_status := lit "Escutando... (0 msgs)";
     ui_bt_log := [];
     ui_bt_status := lit "BT: Desconectado";
     Serial := [];
     Serial2 := [] |}.

Definition switchScreen (screen : AppScreen) (st : App) : App :=
  let st := set_currentScreen screen st in
  match screen with
  | SCREEN_MENU => set_lv_screen SCREEN_MENU st
  | SCREEN_LORA => set_lv_screen SCREEN_LORA st
  | SCREEN_MONITOR => set_lv_screen SCREEN_MONITOR st
  | SCREEN_BLUETOOTH =>
      let st :=
        if bleInitialized st then
          if bleConnected st then set_ui_bt_status (lit "BLE Conectado!") st
          else set_ui_bt_status (lit "BLE: ESP32_LoRa (aguardando)") st
        else set_ui_bt_status (lit "BLE: Inicializando...") st in
      set_lv_screen SCREEN_BLUETOOTH st
  | SCREEN_BATTERY => set_lv_screen SCREEN_BATTERY st
  | SCREEN_SETTINGS => set_lv_screen SCREEN_MENU st
  end.

Definition processMenuKey (keyIndex : Z) (st : App) : App :=
  if keyIndex =? 0 then switchScreen SCREEN_LORA st
  else if keyIndex =? 1 then switchScreen SCREEN_MONITOR st
  else if keyIndex =? 2 then switchScreen SCREEN_BLUETOOTH st
  else if keyIndex =? 4 then switchScreen SCREEN_BATTERY st
  else if keyIndex =? 5 then
    let st := set_encryptionEnabled (negb (encryptionEnabled st)) st in
    set_Serial (Serial st ++ lit "Criptografia: "
                  ++ lit (if encryptionEnabled st then "ON" else "OFF") ++ newline) st
  else st.

Definition processMonitorKey (keyIndex : Z) (st : App) : App :=
  if keyIndex =? 7 then switchScreen SCREEN_MENU st
  else if keyIndex =? 15 then
    let st := set_ui_monitor_log [] st in
    let st := set_monitorMsgCount 0 st in
    set_ui_monitor_status (lit "Log limpo") st
  else st.

Definition processBluetoothKey (keyIndex : Z) (st : App) : App :=
  if keyIndex =? 7 then switchScreen SCREEN_MENU st
  else
    let st :=
      if keyIndex =? 11 then
        set_ui_bt_log (lit "Log limpo." ++ newline
                         ++ lit "Aguardando mensagens..." ++ newline) st
      else st in
    if keyIndex =? 15 then
      let info :=
        lit "Nome: ESP32_LoRa" ++ newline
          ++ lit "Tipo: BLE (UART)" ++ newline
          ++ lit (if bleConnected st then "Status: Conectado" else "Status: Aguardando...")
          ++ newline
          ++ lit "Use app: nRF Connect" ++ newline in
      set_ui_bt_log (lv_textarea_add_text (ui_bt_log st) info) st
    else st.

Definition processBatteryKey (keyIndex : Z) (st : App) : App :=
  if keyIndex =? 7 then switchScreen SCREEN_MENU st else st.

Section Handlers.

Context {aes128 : BlockCipher}.
Variable stray : Z -> Z.

(** [now] is the value [millis()] returns inside the handler. *)
Definition processLoRaKey (keyIndex now : Z) (st : App) : M App :=
  if keyIndex =? 7 then
    buf <- store (messageBuffer st) 0 NUL ;;
    let st := set_messageBuffer buf st in
    let st := set_messageLen 0 st in
    let st := set_ui_lora_input [] st in
    ret (switchScreen SCREEN_MENU st)
  else if keyIndex =? 11 then
    if messageLen st >? 0 then
      let msg := c_str (messageBuffer st) in
      sent <- (if encryptionEnabled st then
                 toSend <- encryptMessage stray msg ;;
                 ret (toSend,
                      set_Serial (println (Serial st) (lit "Msg encriptada: " ++ toSend)) st)
               else ret (msg, st)) ;;
      let toSend := fst sent in
      let st := snd sent in
      let st := set_Serial2 (println (Serial2 st) toSend) st in
      let logEntry := lit "> " ++ msg ++ newline in
      let st := set_ui_lora_log (lv_textarea_add_text (ui_lora_log st) logEntry) st in
      buf <- store (messageBuffer st) 0 NUL ;;
      let st := set_messageBuffer buf st in
      let st := set_messageLen 0 st in
      ret (set_ui_lora_input [] st)
    else ret st
  else if keyIndex =? 15 then
    st <- (if messageLen st >? 0 then
             let st := set_messageLen (uint8_t (messageLen st - 1)) st in
             buf <- store (messageBuffer st) (messageLen st) NUL ;;
             let st := set_messageBuffer buf st in
             ret (set_ui_lora_input (c_str (messageBuffer st)) st)
           else ret st) ;;
    let st := set_t9CharIndex 0 st in
    ret (set_lastKeyPressed 255 st)
  else if negb (isSpecialKey keyIndex) then
    let st :=
      if (keyIndex =? lastKeyPressed st)
         && (uint32_t (now - lastKeyTime st) <? T9_TIMEOUT) then
        let st := set_t9CharIndex (uint8_t (t9CharIndex st + 1)) st in
        if messageLen st >? 0 then set_messageLen (uint8_t (messageLen st - 1)) st
        else st
      else set_t9CharIndex 0 st in
    let c := getT9Char keyIndex (t9CharIndex st) in
    st <- (if negb (Ascii.eqb c NUL) && (messageLen st <? 126) then
             buf <- store (messageBuffer st) (messageLen st) c ;;
             let st := set_messageBuffer buf st in
             let st := set_messageLen (uint8_t (messageLen st + 1)) st in
             buf <- store (messageBuffer st) (messageLen st) NUL ;;
             let st := set_messageBuffer buf st in
             ret (set_ui_lora_input (c_str (messageBuffer st)) st)
           else ret st) ;;
    let st := set_lastKeyPressed keyIndex st in
    ret (set_lastKeyTime now st)
  else ret st.

(** [handleKeyPress], with the LVGL mutex held for the whole dispatch. *)
Definition handleKeyPress (keyIndex now : Z) (st : App) : M App :=
  match currentScreen st with
  | SCREEN_MENU => ret (processMenuKey keyIndex st)
  | SCREEN_LORA => processLoRaKey keyIndex now st
  | SCREEN_MONITOR => ret (processMonitorKey keyIndex st)
  | SCREEN_BLUETOOTH => ret (processBluetoothKey keyIndex st)
  | SCREEN_BATTERY => ret (processBatteryKey keyIndex st)
  | SCREEN_SETTINGS => ret st
  end.

(** One turn of the loop of [loraTask].  [incoming] is [None] when
    [Serial2.available()] is zero, otherwise the line that
    [Serial2.readStringUntil] returns. *)
Definition loraTask (incoming : option ArduinoString) (st : App) : M App :=
  match incoming with
  | None => ret st
  | Some incomingMsg =>
      if len incomingMsg >? 0 then
        let st := set_Serial (println (Serial st) (lit "LoRa RX: " ++ incomingMsg)) st in
        displayMsg <- (if encryptionEnabled st && (len incomingMsg >=? 32) then
                         let isHex := forallb isxdigit incomingMsg in
                         if isHex then decryptMessage stray incomingMsg
                         else ret incomingMsg
                       else ret incomingMsg) ;;
        let logEntry := lit "< " ++ displayMsg ++ newline in
        let st := set_ui_lora_log (lv_textarea_add_text (ui_lora_log st) logEntry) st in
        let st := set_monitorMsgCount (uint32_t (monitorMsgCount st + 1)) st in
        let st := set_ui_monitor_log
                    (lv_textarea_add_text (ui_monitor_log st) logEntry) st in
        let statusStr := lit "Escutando... (" ++ decimal (monitorMsgCount st)
                           ++ lit " msgs)" in
        ret (set_ui_monitor_status statusStr st)
      else ret st
  end.

End Handlers.

(** ** The battery gauge

    [voltageToPercent] takes a [float] (IEEE 754 binary32) and compares and
    computes in [double] (binary64), as the literals [4.2], [3.0] and [1.2]
    are [double].  Both formats are those of [SpecFloat], with round to
    nearest even. *)

Definition float_of_Z (n : Z) : spec_float := binary_normalize 24 128 n 0 false.
Definition double_of_Z (n : Z) : spec_float := binary_normalize 53 1024 n 0 false.

(** The [float] and the [double] nearest to the decimal [n / 10]. *)
Definition float_tenths (n : Z) : spec_float :=
  SFdiv 24 128 (float_of_Z n) (float_of_Z 10).
Definition double_tenths (n : Z) : spec_float :=
  SFdiv 53 1024 (double_of_Z n) (double_of_Z 10).

(** The promotion of a [float] to [double] is exact. *)
Definition double_of_float (x : spec_float) : spec_float :=
  match x with
  | S754_finite s m e => binary_round 53 1024 s m e
  | _ => x
  end.

(** The conversion of a [double] to an integer drops the fraction. *)
Definition truncate (x : spec_float) : Z :=
  match x with
  | S754_finite s m e =>
      let a := if 0 <=? e then Z.pos m * 2 ^ e else Z.pos m / 2 ^ (- e) in
      if s then - a else a
  | _ => 0
  end.

Definition voltageToPercent (voltage : spec_float) : Z :=
  let v := double_of_float voltage in
  if SFleb (double_tenths 42) v then 100
  else if SFleb v (double_tenths 30) then 0
  else uint8_t (truncate
         (SFmul 53 1024
            (SFdiv 53 1024 (SFsub 53 1024 v (double_tenths 30)) (double_tenths 12))
            (double_of_Z 100))).

(** ** What the codec is meant to compute

    PKCS7 padding, ECB over [n] blocks and the hexadecimal transport
    encoding, as functions on lists; the loops of [encryptMessage] and
    [decryptMessage] are compared with them below. *)

Definition pkcs7_pad (plaintext : ArduinoString) : list Z :=
  let padLen := 16 - len plaintext mod 16 in
  map byte_of_char plaintext ++ repeat padLen (Z.to_nat padLen).

Fixpoint ecb (f : list Z -> list Z) (n : nat) (l : list Z) : list Z :=
  match n with
  | O => []
  | S n' => f (firstn 16 l) ++ ecb f n' (skipn 16 l)
  end.

Definition hex_encode (l : list Z) : ArduinoString := flat_map sprintf_02X l.

(** The number of 16-byte blocks of the padded plaintext. *)
Definition blocks (plaintext : ArduinoString) : nat :=
  Z.to_nat (len plaintext / 16 + 1).

(** ** The message buffer as a C string

    [messageBuffer] is a [char[128]] that holds [messageLen] characters and
    their terminator. *)

Definition buffer_ok (st : App) : Prop :=
  List.length (messageBuffer st) = 128%nat
  /\ 0 <= messageLen st <= 126
  /\ len (c_str (messageBuffer st)) = messageLen st.

(** [String(messageBuffer)] *)
Definition typed (st : App) : ArduinoString := c_str (messageBuffer st).

(** The byte that [decryptMessage] stores in [cipher[i]]. *)
Definition hex_byte_at (cipherHex : ArduinoString) (i : Z) : Z :=
  uint8_t (strtol16 (c_str (substring cipherHex (i * 2) (i * 2 + 2)))).

(** The cipher maps each of the [n] blocks of [l] to a block. *)
Fixpoint blocks_ok (f : list Z -> list Z) (n : nat) (l : list Z) : Prop :=
  match n with
  | O => True
  | S n' => is_block (f (firstn 16 l)) /\ blocks_ok f n' (skipn 16 l)
  end.

(** The bytes that [decryptMessage] decodes from the hex pairs of its input:
    as many as its 8-bit byte count. *)
Definition cipher_bytes (cipherHex : ArduinoString) : list Z :=
  map (fun k => hex_byte_at cipherHex (Z.of_nat k))
    (seq 0 (Z.to_nat (uint8_t (len cipherHex / 2)))).

(** The padding as [decryptMessage] removes it: the last byte is the number
    of bytes to drop, and a number above 16 drops none. *)
Definition strip_padding (output : list Z) : list Z :=
  let last := nth (List.length output - 1) output 0 in
  let padLen := if last >? 16 then 0 else last in
  firstn (List.length output - Z.to_nat padLen) output.

(** A string without NUL is the same to C and to [String]. *)
Definition no_NUL (s : ArduinoString) : Prop := Forall (fun c => c <> NUL) s.

(** ** The keypad matrix

    The pins of the matrix keep a mode and, for an output, the level last
    written.  A column pin is an input with pull-up: it reads [LOW] when a
    key of its column is down and the row of that key is an output driven
    [LOW], and [HIGH] otherwise.  [down row col] tells which keys are down
    while one scan runs. *)

Inductive Level : Type := LOW | HIGH.

Inductive PinMode : Type := INPUT | OUTPUT | INPUT_PULLUP.

Record Gpio : Type := mkGpio {
  pin_mode : Z -> option PinMode;
  pin_level : Z -> Level
}.

Definition pinMode (pin : Z) (mode : PinMode) (g : Gpio) : Gpio :=
  mkGpio (fun p => if p =? pin then Some mode else pin_mode g p) (pin_level g).

Definition digitalWrite (pin : Z) (v : Level) (g : Gpio) : Gpio :=
  mkGpio (pin_mode g) (fun p => if p =? pin then v else pin_level g p).

Definition ROW_PINS : list Z := [32; 33; 25; 26].
Definition COL_PINS : list Z := [27; 14; 12; 13].

Definition KEY_INDEX : list (list Z) :=
  [0; 1; 2; 3]           (* 1, 2, 3, A *)
  :: [4; 5; 6; 7]        (* 4, 5, 6, B *)
  :: [8; 9; 10; 11]      (* 7, 8, 9, C *)
  :: [12; 13; 14; 15]    (* *, 0, #, D *)
  :: [].

Definition drives_low (g : Gpio) (pin : Z) : bool :=
  match pin_mode g pin, pin_level g pin with
  | Some OUTPUT, LOW => true
  | _, _ => false
  end.

Definition digitalRead (down : nat -> nat -> bool) (g : Gpio) (pin : Z) : Level :=
  if existsb (fun col =>
        (nth col COL_PINS 0 =? pin)
        && existsb (fun row => down row col && drives_low g (nth row ROW_PINS 0))
             (seq 0 4))
       (seq 0 4)
  then LOW else HIGH.

Definition initKeypad (g : Gpio) : Gpio :=
  fold_left
    (fun g i =>
       let g := pinMode (nth i ROW_PINS 0) OUTPUT g in
       let g := digitalWrite (nth i ROW_PINS 0) HIGH g in
       pinMode (nth i COL_PINS 0) INPUT_PULLUP g)
    (seq 0 4) g.

(** The inner loop of [scanKeypad]: the first column that reads [LOW]. *)
Fixpoint scan_columns (down : nat -> nat -> bool) (g : Gpio) (row : nat) (cols : list nat)
  : option Z :=
  match cols with
  | [] => None
  | col :: cols' =>
      match digitalRead down g (nth col COL_PINS 0) with
      | LOW => Some (nth col (nth row KEY_INDEX []) 0)
      | HIGH => scan_columns down g row cols'
      end
  end.

(** The outer loop: a row is driven [LOW], looked at, and driven [HIGH]
    again, also on the early return. *)
Fixpoint scan_rows (down : nat -> nat -> bool) (g : Gpio) (rows : list nat) : Z * Gpio :=
  match rows with
  | [] => (-1, g)
  | row :: rows' =>
      let g := digitalWrite (nth row ROW_PINS 0) LOW g in
      match scan_columns down g row (seq 0 4) with
      | Some key => (key, digitalWrite (nth row ROW_PINS 0) HIGH g)
      | None => scan_rows down (digitalWrite (nth row ROW_PINS 0) HIGH g) rows'
      end
  end.

Definition scanKeypad (down : nat -> nat -> bool) (g : Gpio) : Z * Gpio :=
  scan_rows down g (seq 0 4).

(** The key that a scan is to find: the first one down, row by row. *)
Definition first_down (down : nat -> nat -> bool) : Z :=
  match find (fun i => down (i / 4)%nat (i mod 4)%nat) (seq 0 16) with
  | Some i => Z.of_nat i
  | None => -1
  end.

(** The rows are outputs at [HIGH]: what [initKeypad] sets up and what a
    scan needs to tell the rows apart. *)
Definition keypad_ready (g : Gpio) : Prop :=
  forall row, (row < 4)%nat ->
    pin_mode g (nth row ROW_PINS 0) = Some OUTPUT
    /\ pin_level g (nth row ROW_PINS 0) = HIGH.

(** ** The keypad task

    [lastKey] and [debounceTime] are the locals of [keypadTask] that live
    across the turns of its loop. *)

Record KeypadTask : Type := mkKeypadTask {
  lastKey : Z;
  debounceTime : Z
}.

Definition keypadTask_start : KeypadTask := mkKeypadTask (-1) 0.

Section KeypadTask.

Context {aes128 : BlockCipher}.
Variable stray : Z -> Z.

(** One turn of the loop of [keypadTask].  [t_check], [t_press] and [t_done]
    are the values of the three calls of [millis()] a turn can make: in the
    debounce test, inside the key handler, and when the handler is back. *)
Definition keypadTask (down : nat -> nat -> bool) (t_check t_press t_done : Z)
    (g : Gpio) (task : KeypadTask) (st : App) : M (Gpio * KeypadTask * App) :=
  let scanned := scanKeypad down g in
  let key := fst scanned in
  let g := snd scanned in
  if negb (key =? lastKey task) then
    r <- (if (key >=? 0) && (uint32_t (t_check - debounceTime task) >? 150) then
            let st := set_Serial (Serial st ++ lit "Tecla: " ++ decimal key ++ newline) st in
            st <- handleKeyPress stray (uint8_t key) t_press st ;;
            ret (mkKeypadTask (lastKey task) t_done, st)
          else ret (task, st)) ;;
    ret (g, mkKeypadTask key (debounceTime (fst r)), snd r)
  else ret (g, task, st).

(** The turns of the loop, one after the other; a turn is given by the keys
    that are down and the three clock readings. *)
Fixpoint keypadTask_run (turns : list ((nat -> nat -> bool) * (Z * Z * Z)))
    (g : Gpio) (task : KeypadTask) (st : App) : M (Gpio * KeypadTask * App) :=
  match turns with
  | [] => ret (g, task, st)
  | (down, (t_check, t_press, t_done)) :: turns' =>
      r <- keypadTask down t_check t_press t_done g task st ;;
      keypadTask_run turns' (fst (fst r)) (snd (fst r)) (snd r)
  end.

End KeypadTask.

(** ** The radio link as a byte stream

    [Serial2.readStringUntil(terminator)]: the bytes before the first
    terminator, which is taken off the stream and not returned; when the
    stream runs dry first, all of them. *)

Fixpoint readStringUntil (terminator : ascii) (rx : list ascii) : ArduinoString * list ascii :=
  match rx with
  | [] => ([], [])
  | c :: rx' =>
      if Ascii.eqb c terminator then ([], rx')
      else let r := readStringUntil terminator rx' in (c :: fst r, snd r)
  end.

Definition CR : ascii := "013"%char.
Definition LF : ascii := "010"%char.

Section RadioLink.

Context {aes128 : BlockCipher}.
Variable stray : Z -> Z.

(** One turn of the loop of [loraTask] on the bytes [rx] waiting at the
    LoRa port; [Serial2.available()] is their number. *)
Definition loraTask_turn (rx : list ascii) (st : App) : M (list ascii * App) :=
  if len rx >? 0 then
    let r := readStringUntil LF rx in
    st <- loraTask stray (Some (fst r)) st ;;
    ret (snd r, st)
  else
    st <- loraTask stray None st ;;
    ret (rx, st).

(** The lines of [lines] handed to [loraTask], one per turn. *)
Fixpoint loraTask_run (lines : list ArduinoString) (st : App) : M App :=
  match lines with
  | [] => ret st
  | line :: lines' => st <- loraTask stray (Some line) st ;; loraTask_run lines' st
  end.

End RadioLink.

(** ** Bluetooth

    [String::trim()]: white space is taken off both ends. *)

Definition trim (s : ArduinoString) : ArduinoString :=
  rev (skip_spaces (rev (skip_spaces s))).

(** The globals of the BLE bridge that [App] does not hold.  The TX
    characteristic is [None] while the pointer is NULL and its value
    otherwise; [notified] lists the values that [notify()] has sent. *)
Record Ble : Type := mkBle {
  bleRxBuffer : ArduinoString;
  newBleData : bool;
  pTxCharacteristic : option ArduinoString;
  notified : list ArduinoString
}.

Definition ble_start : Ble := mkBle [] false None [].

Definition set_bleConnected (v : bool) (st : App) : App :=
  mkApp (currentScreen st) (encryptionEnabled st) v (bleInitialized st)
    (t9CharIndex st) (lastKeyPressed st) (lastKeyTime st) (messageBuffer st)
    (messageLen st) (monitorMsgCount st) (lv_screen st) (ui_lora_log st)
    (ui_lora_input st) (ui_monitor_log st) (ui_monitor_status st)
    (ui_bt_log st) (ui_bt_status st) (Serial st) (Serial2 st).

Definition set_bleInitialized (v : bool) (st : App) : App :=
  mkApp (currentScreen st) (encryptionEnabled st) (bleConnected st) v
    (t9CharIndex st) (lastKeyPressed st) (lastKeyTime st) (messageBuffer st)
    (messageLen st) (monitorMsgCount st) (lv_screen st) (ui_lora_log st)
    (ui_lora_input st) (ui_monitor_log st) (ui_monitor_status st)
    (ui_bt_log st) (ui_bt_status st) (Serial st) (Serial2 st).

(** [MyServerCallbacks].  The callbacks of the BLE stack are taken to run
    between the turns of [bluetoothTask]. *)
Definition onConnect (st : App) : App :=
  let st := set_bleConnected true st in
  set_Serial (println (Serial st) (lit "BLE: Cliente conectado")) st.

Definition onDisconnect (st : App) : App :=
  let st := set_bleConnected false st in
  set_Serial (println (Serial st) (lit "BLE: Cliente desconectado")) st.

(** [MyCharacteristicCallbacks::onWrite]; [rxValue] is the [std::string]
    the client wrote. *)
Definition onWrite (rxValue : list ascii) (b : Ble) (st : App) : Ble * App :=
  if len rxValue >? 0 then
    let b := mkBle (c_str rxValue) (newBleData b) (pTxCharacteristic b) (notified b) in
    let b := mkBle (bleRxBuffer b) true (pTxCharacteristic b) (notified b) in
    (b, set_Serial (println (Serial st) (lit "BLE RX: " ++ bleRxBuffer b)) st)
  else (b, st).

Section Bluetooth.

Context {aes128 : BlockCipher}.
Variable stray : Z -> Z.

(** [bluetoothTask] before its loop: the server and its two
    characteristics are created and advertising starts. *)
Definition bluetoothTask_start (b : Ble) (st : App) : Ble * App :=
  let st := set_Serial (println (Serial st) (lit "Iniciando NimBLE...")) st in
  let b := mkBle (bleRxBuffer b) (newBleData b) (Some []) (notified b) in
  let st := set_bleInitialized true st in
  let st := set_Serial (println (Serial st) (lit "NimBLE OK: ESP32_LoRa")) st in
  let st := set_Serial (println (Serial st) (lit "Aguardando conexao BLE...")) st in
  (b, st).

(** One turn of the loop of [bluetoothTask]. *)
Definition bluetoothTask (b : Ble) (st : App) : M (Ble * App) :=
  if newBleData b && (len (bleRxBuffer b) >? 0) then
    let b := mkBle (bleRxBuffer b) false (pTxCharacteristic b) (notified b) in
    let msg := bleRxBuffer b in
    let b := mkBle [] (newBleData b) (pTxCharacteristic b) (notified b) in
    let msg := trim msg in
    if len msg >? 0 then
      toSend <- (if encryptionEnabled st then encryptMessage stray msg else ret msg) ;;
      let st := set_Serial2 (println (Serial2 st) toSend) st in
      let st := set_Serial (println (Serial st) (lit "BLE->LoRa: " ++ msg)) st in
      let btLogEntry := lit "< " ++ msg ++ newline ++ lit "> LoRa: OK" ++ newline in
      let st := set_ui_bt_log (lv_textarea_add_text (ui_bt_log st) btLogEntry) st in
      let loraLogEntry := lit "[BT]> " ++ msg ++ newline in
      let st := set_ui_lora_log (lv_textarea_add_text (ui_lora_log st) loraLogEntry) st in
      let b :=
        if bleConnected st
           && (match pTxCharacteristic b with Some _ => true | None => false end)
        then
          let echo := lit "Enviado via LoRa: " ++ msg in
          mkBle (bleRxBuffer b) (newBleData b) (Some echo) (notified b ++ [echo])
        else b in
      ret (b, st)
    else ret (b, st)
  else ret (b, st).

End Bluetooth.

(** ** What the screens show of the state

    The input field shows the text of the buffer, the screen on the display
    is the current one, which is never [SCREEN_SETTINGS], and there is text
    in the buffer on the LoRa screen only. *)

Definition ui_ok (st : App) : Prop :=
  ui_lora_input st = typed st
  /\ lv_screen st = currentScreen st
  /\ currentScreen st <> SCREEN_SETTINGS
  /\ (currentScreen st <> SCREEN_LORA -> messageLen st = 0).

(** The same character key pressed at each of [times] on the LoRa screen. *)
Fixpoint tap {aes128 : BlockCipher} (stray : Z -> Z) (keyIndex : Z) (times : list Z)
    (st : App) : App :=
  match times with
  | [] => st
  | now :: times' => tap stray keyIndex times' (value (processLoRaKey stray keyIndex now st))
  end.

(** Each press of [times] comes less than [T9_TIMEOUT] after the one before,
    the first one after [t]. *)
Fixpoint quick (t : Z) (times : list Z) : Prop :=
  match times with
  | [] => True
  | now :: times' => uint32_t (now - t) < T9_TIMEOUT /\ quick now times'
  end.

(** ** The battery reading

    [readBatteryVoltage] computes in [double] and returns a [float]: the
    conversion rounds to nearest even. *)

Definition float_of_double (x : spec_float) : spec_float :=
  match x with
  | S754_finite s m e => binary_round 24 128 s m e
  | _ => x
  end.

Definition ADC_MAX : spec_float := double_of_Z 4095.
Definition VREF : spec_float := double_tenths 33.
Definition VOLTAGE_DIVIDER_FACTOR : spec_float := double_of_Z 2.

(** [raw] is what [analogRead(BATTERY_PIN)] returns. *)
Definition readBatteryVoltage (raw : Z) : spec_float :=
  float_of_double
    (SFmul 53 1024
       (SFmul 53 1024 (SFdiv 53 1024 (double_of_Z raw) ADC_MAX) VREF)
       VOLTAGE_DIVIDER_FACTOR).

(** [sprintf(s, "%.2f", x)]: the decimal with two digits after the point
    that is nearest to [x], the even one of two that are as near. *)
Definition round_half_even (num den : Z) : Z :=
  let q := num / den in
  let r := num mod den in
  if 2 * r <? den then q
  else if den <? 2 * r then q + 1
  else if Z.even q then q else q + 1.

Definition two_digits (n : Z) : ArduinoString :=
  if n <? 10 then lit "0" ++ decimal n else decimal n.

Definition sprintf_2f (x : spec_float) : ArduinoString :=
  match x with
  | S754_zero s => lit (if s then "-0.00" else "0.00")
  | S754_infinity s => lit (if s then "-inf" else "inf")
  | S754_nan => lit "nan"
  | S754_finite s m e =>
      let hundredths :=
        if 0 <=? e then 100 * Z.pos m * 2 ^ e
        else round_half_even (100 * Z.pos m) (2 ^ (- e)) in
      lit (if s then "-" else "") ++ decimal (hundredths / 100) ++ lit "."
        ++ two_digits (hundredths mod 100)
  end.

(** The readings of the 12-bit ADC, and what is checked of the gauge on each
    of them by running it. *)
Definition adc_readings : list Z := map Z.of_nat (seq 0 4096).

Definition gauge_check (raw : Z) : bool :=
  let v := readBatteryVoltage raw in
  let p := voltageToPercent v in
  (0 <=? p) && (p <=? 100)
  && Bool.eqb (p =? 0) (raw <=? 1868)
  && Bool.eqb (p =? 100) (2606 <=? raw)
  && Bool.eqb (p <? 20) (raw <=? 2010)
  && Bool.eqb (p <? 50) (raw <=? 2233)
  && (len (sprintf_2f v) =? 4)
  && forallb (fun c => negb (Ascii.eqb c NUL)) (sprintf_2f v)
  && ((raw =? 4095) || (p <=? voltageToPercent (readBatteryVoltage (raw + 1)))).

(** ** The LVGL objects

    Building the screens allocates LVGL objects and keeps some of them in
    global pointers.  An object is known by its handle, the number of
    objects allocated before it, and is modelled by its class, its parent,
    the text it shows and, for a bar, its value and the colour of its
    indicator; sizes, alignment, fonts and the other colours are left out,
    as no code reads them back.  [Pointer] names the globals, [None] is NULL. *)

Module Lvgl.

Inductive Class : Type := Base | Label | Button | Textarea | Bar.

Record Object : Type := mkObject {
  class : Class;
  parent : option nat;
  text : ArduinoString;
  placeholder : ArduinoString;
  bar_value : Z;
  indicator_color : Z
}.

Inductive Pointer : Type :=
| ui_menu_screen
| ui_lora_screen
| ui_monitor_screen
| ui_monitor_log
| ui_monitor_status
| ui_lora_log
| ui_lora_input
| ui_lora_status
| ui_bt_screen
| ui_bt_log
| ui_bt_status
| ui_battery_screen
| ui_battery_voltage
| ui_battery_bar
| ui_header_battery.

Definition pointer_index (p : Pointer) : nat :=
  match p with
  | ui_menu_screen => 0
  | ui_lora_screen => 1
  | ui_monitor_screen => 2
  | ui_monitor_log => 3
  | ui_monitor_status => 4
  | ui_lora_log => 5
  | ui_lora_input => 6
  | ui_lora_status => 7
  | ui_bt_screen => 8
  | ui_bt_log => 9
  | ui_bt_status => 10
  | ui_battery_screen => 11
  | ui_battery_voltage => 12
  | ui_battery_bar => 13
  | ui_header_battery => 14
  end.

Record Ui : Type := mkUi {
  objects : list Object;
  pointer : Pointer -> option nat
}.

Definition no_ui : Ui := mkUi [] (fun _ => None).

(** [p = h] *)
Definition assign (p : Pointer) (h : nat) (ui : Ui) : Ui :=
  mkUi (objects ui)
    (fun q => if Nat.eqb (pointer_index q) (pointer_index p) then Some h else pointer ui q).

Definition create (c : Class) (parent : option nat) (ui : Ui) : nat * Ui :=
  (List.length (objects ui),
   mkUi (objects ui ++ [mkObject c parent [] [] 0 0]) (pointer ui)).

Definition update (h : nat) (f : Object -> Object) (ui : Ui) : Ui :=
  mkUi (firstn h (objects ui)
          ++ match skipn h (objects ui) with
             | [] => []
             | o :: rest => f o :: rest
             end)
    (pointer ui).

Definition lv_label_set_text (h : nat) (s : ArduinoString) : Ui -> Ui :=
  update h (fun o => mkObject (class o) (parent o) (c_str s) (placeholder o)
                       (bar_value o) (indicator_color o)).

Definition lv_textarea_set_placeholder_text (h : nat) (s : ArduinoString) : Ui -> Ui :=
  update h (fun o => mkObject (class o) (parent o) (text o) (c_str s)
                       (bar_value o) (indicator_color o)).

(** The range of the one bar is 0 to 100, by [lv_bar_set_range]. *)
Definition lv_bar_set_value (h : nat) (v : Z) : Ui -> Ui :=
  update h (fun o => mkObject (class o) (parent o) (text o) (placeholder o)
                       (Z.max 0 (Z.min 100 v)) (indicator_color o)).

(** [lv_obj_set_style_bg_color(obj, lv_color_hex(c), LV_PART_INDICATOR)] *)
Definition set_indicator_color (h : nat) (c : Z) : Ui -> Ui :=
  update h (fun o => mkObject (class o) (parent o) (text o) (placeholder o)
                       (bar_value o) c).

Definition lookup (h : nat) (ui : Ui) : option Object := nth_error (objects ui) h.

(** A label made and given its text. *)
Definition label (parent : nat) (s : ArduinoString) (ui : Ui) : nat * Ui :=
  let (lbl, ui) := create Label (Some parent) ui in
  (lbl, lv_label_set_text lbl s ui).

Section Screens.

(** The glyph strings of the LVGL symbol font. *)
Variables LV_SYMBOL_HOME LV_SYMBOL_CALL LV_SYMBOL_EYE_OPEN LV_SYMBOL_BLUETOOTH
          LV_SYMBOL_BATTERY_FULL LV_SYMBOL_SETTINGS : ArduinoString.

Definition createHeader (parent : nat) (title : ArduinoString) (ui : Ui) : nat * Ui :=
  let (header, ui) := create Base (Some parent) ui in
  let (lbl, ui) := label header title ui in
  let (batLbl, ui) := label header (lit "?.??V") ui in
  let ui := assign ui_header_battery batLbl ui in
  (header, ui).

Definition createMenuScreen (ui : Ui) : Ui :=
  let (screen, ui) := create Base None ui in
  let ui := assign ui_menu_screen screen ui in
  let (_, ui) := createHeader screen (LV_SYMBOL_HOME ++ lit " Menu") ui in
  let (container, ui) := create Base (Some screen) ui in
  let menuItems :=
    [LV_SYMBOL_CALL ++ lit " 1. LoRa Messenger";
     LV_SYMBOL_EYE_OPEN ++ lit " 2. Monitor";
     LV_SYMBOL_BLUETOOTH ++ lit " 3. Bluetooth";
     LV_SYMBOL_BATTERY_FULL ++ lit " 4. Bateria";
     LV_SYMBOL_SETTINGS ++ lit " 5. Crypto"] in
  let ui :=
    fold_left
      (fun ui item =>
         let (btn, ui) := create Button (Some container) ui in
         snd (label btn item ui))
      menuItems ui in
  snd (label screen (lit "[1-5] Selecionar") ui).

Definition createLoRaScreen (ui : Ui) : Ui :=
  let (screen, ui) := create Base None ui in
  let ui := assign ui_lora_screen screen ui in
  let (_, ui) := createHeader screen (LV_SYMBOL_CALL ++ lit " LoRa T9") ui in
  let (log, ui) := create Textarea (Some screen) ui in
  let ui := assign ui_lora_log log ui in
  let ui := lv_textarea_set_placeholder_text log (lit "Mensagens...") ui in
  let (_, ui) := label screen (lit "Mensagem:") ui in
  let (input, ui) := create Textarea (Some screen) ui in
  let ui := assign ui_lora_input input ui in
  let ui := lv_textarea_set_placeholder_text input (lit "Digite com T9...") ui in
  let (status, ui) := create Label (Some screen) ui in
  let ui := assign ui_lora_status status ui in
  lv_label_set_text status (lit "[B]Voltar [C]Enviar [D]Apagar") ui.

Definition createMonitorScreen (ui : Ui) : Ui :=
  let (screen, ui) := create Base None ui in
  let ui := assign ui_monitor_screen screen ui in
  let (_, ui) := createHeader screen (LV_SYMBOL_EYE_OPEN ++ lit " Monitor") ui in
  let (status, ui) := create Label (Some screen) ui in
  let ui := assign ui_monitor_status status ui in
  let ui := lv_label_set_text status (lit "Escutando... (0 msgs)") ui in
  let (log, ui) := create Textarea (Some screen) ui in
  let ui := assign ui_monitor_log log ui in
  let ui := lv_textarea_set_placeholder_text log (lit "Aguardando mensagens...") ui in
  snd (label screen (lit "[B] Voltar | [D] Limpar") ui).

Definition createBluetoothScreen (ui : Ui) : Ui :=
  let (screen, ui) := create Base None ui in
  let ui := assign ui_bt_screen screen ui in
  let (_, ui) := createHeader screen (LV_SYMBOL_BLUETOOTH ++ lit " Bluetooth") ui in
  let (status, ui) := create Label (Some screen) ui in
  let ui := assign ui_bt_status status ui in
  let ui := lv_label_set_text status (lit "BT: Desconectado") ui in
  let (log, ui) := create Textarea (Some screen) ui in
  let ui := assign ui_bt_log log ui in
  let ui := lv_textarea_set_placeholder_text log
              (lit "Use app 'nRF Connect' ou" ++ newline
                 ++ lit "'Serial Bluetooth Terminal'" ++ newline
                 ++ lit "para conectar via BLE") ui in
  snd (label screen (lit "[B] Voltar | [C] Limpar | [D] Info") ui).

Definition createBatteryScreen (ui : Ui) : Ui :=
  let (screen, ui) := create Base None ui in
  let ui := assign ui_battery_screen screen ui in
  let (_, ui) := createHeader screen (LV_SYMBOL_BATTERY_FULL ++ lit " Bateria") ui in
  let (_, ui) := label screen LV_SYMBOL_BATTERY_FULL ui in
  let (voltage, ui) := create Label (Some screen) ui in
  let ui := assign ui_battery_voltage voltage ui in
  let ui := lv_label_set_text voltage (lit "?.?? V") ui in
  let (bar, ui) := create Bar (Some screen) ui in
  let ui := assign ui_battery_bar bar ui in
  let ui := lv_bar_set_value bar 50 ui in
  let ui := set_indicator_color bar 0x00FF00 ui in
  let (_, ui) := label screen (lit "Tensao direta do ADC" ++ newline
                                 ++ lit "(Divisor R1=R2=100k)") ui in
  snd (label screen (lit "[B] Voltar ao Menu") ui).

(** The screens as [setup] builds them. *)
Definition setup : Ui :=
  createBatteryScreen
    (createBluetoothScreen
       (createMonitorScreen
          (createLoRaScreen
             (createMenuScreen no_ui)))).

End Screens.

(** Through a pointer that may be NULL; only [ui_header_battery] is tested
    by the code, the others are set by the time they are used. *)
Definition through (p : Pointer) (f : nat -> Ui -> Ui) (ui : Ui) : Ui :=
  match pointer ui p with
  | Some h => f h ui
  | None => ui
  end.

(** One turn of the loop of [batteryTask]: [raw] is the ADC reading; the
    result is the new [batteryVoltage] and the objects. *)
Definition batteryTask (raw : Z) (currentScreen : AppScreen) (ui : Ui) : spec_float * Ui :=
  let batteryVoltage := readBatteryVoltage raw in
  let percent := voltageToPercent batteryVoltage in
  let ui :=
    match currentScreen with
    | SCREEN_BATTERY =>
        let voltStr := sprintf_2f batteryVoltage ++ lit " V" in
        let ui := through ui_battery_voltage (fun h => lv_label_set_text h voltStr) ui in
        let ui := through ui_battery_bar (fun h => lv_bar_set_value h percent) ui in
        let color :=
          if percent <? 20 then 0xFF0000
          else if percent <? 50 then 0xFFAA00
          else 0x00FF00 in
        through ui_battery_bar (fun h => set_indicator_color h color) ui
    | _ => ui
    end in
  let ui :=
    match pointer ui ui_header_battery with
    | Some h => lv_label_set_text h (sprintf_2f batteryVoltage ++ lit "V") ui
    | None => ui
    end in
  (batteryVoltage, ui).

(** The turns of [batteryTask], one per reading; each comes with the screen
    that is current at the time. *)
Fixpoint batteryTask_run (turns : list (Z * AppScreen)) (ui : Ui) : Ui :=
  match turns with
  | [] => ui
  | (raw, screen) :: turns' => batteryTask_run turns' (snd (batteryTask raw screen ui))
  end.

(** The battery label in the header of a screen: the second label of the
    first child of the screen. *)
Definition header_battery_label (screen : nat) (ui : Ui) : option nat :=
  let is_child_of p h :=
    match lookup h ui with
    | Some o => match parent o with Some q => Nat.eqb q p | None => false end
    | None => false
    end in
  let handles := seq 0 (List.length (objects ui)) in
  match filter (is_child_of screen) handles with
  | header :: _ =>
      match filter (is_child_of header) handles with
      | _ :: batLbl :: _ => Some batLbl
      | _ => None
      end
  | [] => None
  end.

Definition text_at (h : option nat) (ui : Ui) : option ArduinoString :=
  match h with
  | Some h => option_map text (lookup h ui)
  | None => None
  end.

(** A field of the object behind a pointer. *)
Definition read {A : Type} (field : Object -> A) (p : Pointer) (ui : Ui) : option A :=
  match pointer ui p with
  | Some h => option_map field (lookup h ui)
  | None => None
  end.

(** The objects that [batteryTask] writes to. *)
Definition battery_handles (ui : Ui) : list nat :=
  flat_map (fun p => match pointer ui p with Some h => [h] | None => [] end)
    [ui_header_battery; ui_battery_voltage; ui_battery_bar].

(** [f] leaves the pointers, the tree of the objects and the objects outside
    [hs] as they are. *)
Definition keeps (f : Ui -> Ui) (ui : Ui) (hs : list nat) : Prop :=
  pointer (f ui) = pointer ui
  /\ map parent (objects (f ui)) = map parent (objects ui)
  /\ forall h, ~ In h hs -> nth_error (objects (f ui)) h = nth_error (objects ui) h.

End Lvgl.

(** ** Letter case

    [lower] maps a capital letter to its small letter, as [tolower] does in
    the C locale. *)

Definition lower (c : ascii) : ascii :=
  let n := byte_of_char c in
  if (65 <=? n) && (n <=? 90) then char_of_byte (n + 32) else c.

(** * Proofs *)

(** ** Runs *)

Lemma bind_run {A B : Type} (m : M A) (k : A -> M B) a t b t' :
  m = (a, t) -> k a = (b, t') -> bind m k = (b, t ++ t').
Proof. intros -> H. unfold bind. simpl. rewrite H. reflexivity. Qed.

Lemma bind_ret_run {A B : Type} (a : A) (k : A -> M B) : bind (ret a) k = k a.
Proof. unfold bind, ret. simpl. destruct (k a). reflexivity. Qed.

Lemma run_eta {A : Type} (m : M A) : m = (value m, trace m).
Proof. destruct m. reflexivity. Qed.

(** ** Lists as arrays *)

Lemma len_nonneg {A : Type} (l : list A) : 0 <= len l.
Proof. unfold len. lia. Qed.

Lemma len_app {A : Type} (l1 l2 : list A) : len (l1 ++ l2) = len l1 + len l2.
Proof. unfold len. rewrite length_app. lia. Qed.

Lemma length_poke {A : Type} (a : list A) i vs : List.length (poke a i vs) = List.length a.
Proof.
  unfold poke, len. destruct (i <? 0) eqn:Hi; [reflexivity|].
  apply Z.ltb_ge in Hi.
  rewrite !length_app, !length_firstn, length_skipn. lia.
Qed.

Lemma poke_at {A : Type} (pre rest vs : list A) i :
  i = len pre -> (List.length vs <= List.length rest)%nat ->
  poke (pre ++ rest) i vs = pre ++ vs ++ skipn (List.length vs) rest.
Proof.
  intros -> Hvs. unfold poke.
  destruct (len pre <? 0) eqn:Hi; [apply Z.ltb_lt in Hi; unfold len in Hi; lia|].
  unfold len. rewrite length_app.
  rewrite firstn_app, Nat2Z.id, firstn_all, Nat.sub_diag. simpl. rewrite app_nil_r.
  f_equal. rewrite firstn_all2 by lia. f_equal.
  rewrite skipn_app.
  replace (Z.to_nat (Z.of_nat (List.length pre) + Z.of_nat (List.length vs)))
    with (List.length pre + List.length vs)%nat by lia.
  rewrite skipn_all2 by lia. simpl. f_equal. lia.
Qed.

Lemma check_ok index count size :
  count <= 0 \/ (0 <= index /\ index + count <= size) -> check index count size = ret tt.
Proof.
  intros H. unfold check, in_bounds.
  destruct (count <=? 0) eqn:Hc; [reflexivity|]. apply Z.leb_gt in Hc.
  destruct H as [H|[H1 H2]]; [lia|].
  apply Z.leb_le in H1, H2. rewrite H1, H2. reflexivity.
Qed.

Lemma check_fail index count size :
  0 < count -> index < 0 \/ size < index + count ->
  check index count size = emit (OutOfBounds index count size).
Proof.
  intros Hc H. unfold check, in_bounds.
  destruct (count <=? 0) eqn:Hc'; [apply Z.leb_le in Hc'; lia|].
  destruct (0 <=? index) eqn:H1; [|reflexivity].
  destruct (index + count <=? size) eqn:H2; [|reflexivity].
  apply Z.leb_le in H1, H2. lia.
Qed.

Lemma skipn_nth_cons {A : Type} (l : list A) (n : nat) d :
  (n < List.length l)%nat -> skipn n l = nth n l d :: skipn (S n) l.
Proof.
  revert n. induction l as [|x l IH]; intros [|n] H; simpl in *; try lia; try reflexivity.
  apply IH. lia.
Qed.

Lemma peek_in stray (a : list Z) (i : nat) :
  (i < List.length a)%nat -> peek stray a (Z.of_nat i) = nth i a 0.
Proof.
  intros H. unfold peek, len.
  destruct (0 <=? Z.of_nat i) eqn:H1; [|apply Z.leb_gt in H1; lia].
  destruct (Z.of_nat i <? Z.of_nat (List.length a)) eqn:H2; [|apply Z.ltb_ge in H2; lia].
  simpl. rewrite Nat2Z.id. reflexivity.
Qed.

Lemma load_in stray (a : list Z) (i : nat) :
  (i < List.length a)%nat -> load stray a (Z.of_nat i) = ret (nth i a 0).
Proof.
  intros H. unfold load. rewrite check_ok by (unfold len; lia).
  rewrite bind_ret_run, peek_in by assumption. reflexivity.
Qed.

Lemma load_cells_in stray (a : list Z) (i n : nat) :
  (i + n <= List.length a)%nat ->
  load_cells stray a (Z.of_nat i) n = ret (firstn n (skipn i a)).
Proof.
  intros H. unfold load_cells. rewrite check_ok by (unfold len; lia).
  rewrite bind_ret_run. f_equal.
  apply nth_ext with (d := peek stray a (Z.of_nat i + Z.of_nat 0)) (d' := 0).
  - rewrite length_map, length_seq, length_firstn, length_skipn. lia.
  - intros k Hk. rewrite length_map, length_seq in Hk.
    rewrite (map_nth (fun k => peek stray a (Z.of_nat i + Z.of_nat k))).
    rewrite seq_nth by assumption. simpl.
    rewrite nth_firstn. destruct (k <? n)%nat eqn:Hkn; [|apply Nat.ltb_ge in Hkn; lia].
    rewrite nth_skipn. rewrite <- Nat2Z.inj_add. apply peek_in. lia.
Qed.

Lemma store_in {A : Type} (pre rest : list A) (x v : A) i :
  i = len pre -> store (pre ++ x :: rest) i v = ret (pre ++ v :: rest).
Proof.
  intros Hi. unfold store. rewrite check_ok.
  - rewrite bind_ret_run. rewrite poke_at by (simpl; auto with arith). reflexivity.
  - right. rewrite len_app. subst. unfold len. simpl. lia.
Qed.

Lemma store_cells_in {A : Type} (pre rest vs : list A) (n : nat) i :
  i = len pre -> (n <= List.length rest)%nat -> List.length vs = n ->
  store_cells (pre ++ rest) i n vs = ret (pre ++ vs ++ skipn n rest).
Proof.
  intros Hi Hn Hvs. unfold store_cells. rewrite check_ok.
  - rewrite bind_ret_run. rewrite firstn_all2 by lia.
    rewrite poke_at by (auto; lia). rewrite Hvs. reflexivity.
  - right. rewrite len_app. subst i. unfold len. lia.
Qed.

Lemma Forall_firstn {A : Type} (P : A -> Prop) (n : nat) (l : list A) :
  Forall P l -> Forall P (firstn n l).
Proof.
  intros H. revert n. induction H; intros [|n]; simpl; constructor; auto.
Qed.

Lemma Forall_skipn {A : Type} (P : A -> Prop) (n : nat) (l : list A) :
  Forall P l -> Forall P (skipn n l).
Proof.
  intros H. revert n. induction H; intros [|n]; simpl; auto.
Qed.

Lemma Forall_poke {A : Type} (P : A -> Prop) (a : list A) i vs :
  Forall P a -> Forall P vs -> Forall P (poke a i vs).
Proof.
  intros Ha Hvs. unfold poke. destruct (i <? 0); [assumption|].
  apply Forall_app. split; [apply Forall_firstn; assumption|].
  apply Forall_app. split; [apply Forall_firstn | apply Forall_skipn]; assumption.
Qed.

Lemma uint8_t_byte z : is_byte (uint8_t z).
Proof. unfold is_byte, uint8_t. apply Z.mod_pos_bound. lia. Qed.

Lemma uint8_t_id z : is_byte z -> uint8_t z = z.
Proof. unfold is_byte, uint8_t. intros H. apply Z.mod_small. lia. Qed.

Lemma map_uint8_t_id l : Forall is_byte l -> map uint8_t l = l.
Proof.
  induction 1 as [|x l Hx _ IH]; simpl; [reflexivity|].
  rewrite uint8_t_id, IH by assumption. reflexivity.
Qed.

Lemma Forall_map_uint8_t l : Forall is_byte (map uint8_t l).
Proof. induction l; simpl; constructor; auto using uint8_t_byte. Qed.

(** ** The loops of the codec *)

Section Loops.

Variable stray : Z -> Z.

(** A loop that reads [out[i]], [out[i+1]], ... and appends to its result. *)
Lemma read_loop {B : Type} (g : Z -> list B) (out : list Z) (n i : nat) (acc : list B) :
  (i + n <= List.length out)%nat ->
  iterate n (Z.of_nat i) 1 (fun i acc => b <- load stray out i ;; ret (acc ++ g b)) acc
  = ret (acc ++ flat_map g (firstn n (skipn i out))).
Proof.
  revert i acc. induction n as [|n IH]; intros i acc H; simpl.
  - rewrite app_nil_r. reflexivity.
  - rewrite load_in by lia. rewrite !bind_ret_run.
    replace (Z.of_nat i + 1) with (Z.of_nat (S i)) by lia.
    rewrite IH by lia. rewrite (skipn_nth_cons out i 0) by lia.
    simpl. rewrite <- app_assoc. reflexivity.
Qed.

(** A loop that writes [c[i] = g i] for the cells that follow [pre]. *)
Lemma store_loop {A : Type} (g : Z -> A) (n : nat) (pre rest : list A) :
  List.length rest = n ->
  iterate n (len pre) 1 (fun i c => store c i (g i)) (pre ++ rest)
  = ret (pre ++ map (fun k => g (len pre + Z.of_nat k)) (seq 0 n)).
Proof.
  revert pre rest. induction n as [|n IH]; intros pre rest H.
  - destruct rest; [|discriminate]. reflexivity.
  - destruct rest as [|x rest]; [discriminate|]. injection H as H.
    cbn [iterate]. rewrite store_in by reflexivity. rewrite bind_ret_run.
    replace (pre ++ g (len pre) :: rest) with ((pre ++ [g (len pre)]) ++ rest)
      by (rewrite <- app_assoc; reflexivity).
    replace (len pre + 1) with (len (pre ++ [g (len pre)]))
      by (rewrite len_app; reflexivity).
    rewrite IH by assumption. rewrite <- app_assoc. f_equal. f_equal.
    cbn [seq map app]. rewrite Z.add_0_r. f_equal.
    rewrite <- seq_shift, map_map. apply map_ext. intros k.
    rewrite len_app. f_equal. unfold len. simpl. lia.
Qed.

(** One call of the block cipher in place. *)
Lemma block_at_run f (src dst : list Z) (i : nat) :
  (i + 16 <= List.length src)%nat -> (i + 16 <= List.length dst)%nat ->
  block_at stray f src (Z.of_nat i) dst
  = (poke dst (Z.of_nat i) (firstn 16 (map uint8_t (f (firstn 16 (skipn i src))))),
     [CipherCall]).
Proof.
  intros Hs Hd. unfold block_at. rewrite load_cells_in by lia.
  rewrite bind_ret_run. unfold store_cells.
  rewrite check_ok by (unfold len; lia). reflexivity.
Qed.

(** The block loop calls the cipher once per block and stays in the arrays,
    whatever the cipher computes. *)
Lemma block_loop_trace f (src : list Z) (n i : nat) (dst : list Z) :
  (i + 16 * n <= List.length src)%nat -> (i + 16 * n <= List.length dst)%nat ->
  trace (iterate n (Z.of_nat i) 16 (block_at stray f src) dst) = repeat CipherCall n
  /\ List.length (value (iterate n (Z.of_nat i) 16 (block_at stray f src) dst))
     = List.length dst
  /\ (Forall is_byte dst ->
      Forall is_byte (value (iterate n (Z.of_nat i) 16 (block_at stray f src) dst))).
Proof.
  revert i dst. induction n as [|n IH]; intros i dst Hs Hd.
  - simpl. auto.
  - cbn [iterate]. rewrite block_at_run by lia.
    replace (Z.of_nat i + 16) with (Z.of_nat (i + 16)) by lia.
    set (dst' := poke dst _ _).
    assert (Hlen : List.length dst' = List.length dst) by apply length_poke.
    destruct (IH (i + 16)%nat dst') as (Ht & Hl & Hb); try lia.
    unfold bind, value, trace in *. cbn [fst snd]. rewrite Ht, Hl.
    repeat split; auto.
    intros Hdst. apply Hb. apply Forall_poke; [assumption|].
    apply Forall_firstn, Forall_map_uint8_t.
Qed.

(** Where the cipher maps blocks to blocks, the block loop computes [ecb]. *)
Lemma block_loop_value f (n : nat) (pre body pre' rest : list Z) :
  List.length pre' = List.length pre ->
  List.length body = (16 * n)%nat -> List.length rest = (16 * n)%nat ->
  blocks_ok f n body ->
  iterate n (len pre) 16 (block_at stray f (pre ++ body)) (pre' ++ rest)
  = (pre' ++ ecb f n body, repeat CipherCall n).
Proof.
  revert pre body pre' rest. induction n as [|n IH]; intros pre body pre' rest Hp Hb Hr Hok.
  - destruct body; [|discriminate]. destruct rest; [|discriminate]. reflexivity.
  - cbn [iterate]. destruct Hok as [[Hfl Hfb] Hok].
    pose proof (IH (pre ++ firstn 16 body) (skipn 16 body)
                  (pre' ++ f (firstn 16 body)) (skipn 16 rest)) as IH'.
    rewrite <- !app_assoc, firstn_skipn in IH'.
    replace (len (pre ++ firstn 16 body)) with (len pre + 16) in IH'
      by (unfold len; rewrite length_app, length_firstn; lia).
    unfold len at 1. rewrite block_at_run by (rewrite length_app; lia).
    rewrite skipn_app, skipn_all, Nat.sub_diag. cbn [app skipn].
    rewrite map_uint8_t_id by assumption. rewrite firstn_all2 by lia.
    rewrite poke_at by (unfold len; lia).
    rewrite Hfl. fold (len pre).
    erewrite bind_run; [| reflexivity | apply IH'].
    + reflexivity.
    + rewrite !length_app, length_firstn. lia.
    + rewrite length_skipn. lia.
    + rewrite length_skipn. lia.
    + assumption.
Qed.

End Loops.

(** ** Padding *)

Lemma byte_of_char_byte c : is_byte (byte_of_char c).
Proof.
  unfold is_byte, byte_of_char.
  pose proof (N_ascii_bounded c). lia.
Qed.

Lemma char_of_byte_of_char c : char_of_byte (byte_of_char c) = c.
Proof.
  unfold char_of_byte. rewrite uint8_t_id by apply byte_of_char_byte.
  unfold byte_of_char. rewrite N2Z.id. apply ascii_N_embedding.
Qed.

Lemma pad_bounds L : 0 <= L -> 1 <= 16 - L mod 16 <= 16.
Proof. intros H. pose proof (Z.mod_pos_bound L 16). lia. Qed.

Lemma padded_length L : 0 <= L -> L + (16 - L mod 16) = 16 * (L / 16 + 1).
Proof. intros H. pose proof (Z.div_mod L 16). lia. Qed.

Lemma length_pkcs7_pad P : List.length (pkcs7_pad P) = (16 * blocks P)%nat.
Proof.
  unfold pkcs7_pad, blocks. rewrite length_app, length_map, repeat_length.
  pose proof (len_nonneg P). pose proof (pad_bounds (len P) H).
  pose proof (padded_length (len P) H).
  assert (0 <= len P / 16) by (apply Z.div_pos; lia).
  unfold len in *. lia.
Qed.

Lemma pkcs7_pad_bytes P : Forall is_byte (pkcs7_pad P).
Proof.
  unfold pkcs7_pad. apply Forall_app. split.
  - apply Forall_forall. intros x Hx. apply in_map_iff in Hx.
    destruct Hx as (c & <- & _). apply byte_of_char_byte.
  - apply Forall_forall. intros x Hx. apply repeat_spec in Hx. subst x.
    pose proof (pad_bounds (len P) (len_nonneg P)). unfold is_byte. lia.
Qed.

Lemma new_array_length n : List.length (new_array n) = Z.to_nat n.
Proof. unfold new_array. apply repeat_length. Qed.

Lemma skipn_repeat {A : Type} (x : A) (n k : nat) :
  skipn k (repeat x n) = repeat x (n - k).
Proof.
  revert k. induction n as [|n IH]; intros [|k]; simpl; auto.
Qed.

Lemma len_map {A B : Type} (f : A -> B) l : len (map f l) = len l.
Proof. unfold len. rewrite length_map. reflexivity. Qed.

Lemma len_repeat {A : Type} (x : A) n : len (repeat x n) = Z.of_nat n.
Proof. unfold len. rewrite repeat_length. reflexivity. Qed.

(** The two library calls that fill [input], when the 8-bit sum did not wrap. *)
Lemma input_filled P :
  len P <= 239 ->
  let padLen := uint8_t (16 - len P mod 16) in
  let inputLen := uint8_t (len P + padLen) in
  padLen = 16 - len P mod 16
  /\ inputLen = 16 * Z.of_nat (blocks P)
  /\ memcpy (new_array inputLen) 0 (map byte_of_char P)
     = ret (map byte_of_char P ++ repeat 0 (Z.to_nat padLen))
  /\ memset (map byte_of_char P ++ repeat 0 (Z.to_nat padLen)) (len P) padLen padLen
     = ret (pkcs7_pad P).
Proof.
  intros HL padLen inputLen.
  pose proof (len_nonneg P) as H0.
  pose proof (pad_bounds (len P) H0) as Hpad.
  pose proof (padded_length (len P) H0) as Hsum.
  assert (Hdiv : 0 <= len P / 16 <= 14)
    by (pose proof (Z.div_mod (len P) 16); pose proof (Z.mod_pos_bound (len P) 16); lia).
  assert (HpadLen : padLen = 16 - len P mod 16)
    by (unfold padLen; apply uint8_t_id; unfold is_byte; lia).
  assert (HinputLen : inputLen = len P + padLen)
    by (unfold inputLen; apply uint8_t_id; unfold is_byte; lia).
  assert (Hblocks : Z.of_nat (blocks P) = len P / 16 + 1) by (unfold blocks; lia).
  split; [assumption|]. split; [lia|].
  split.
  - unfold memcpy, new_array. rewrite len_map, len_repeat.
    rewrite check_ok by lia. rewrite bind_ret_run. f_equal.
    change (repeat 0 (Z.to_nat inputLen)) with ([] ++ repeat 0 (Z.to_nat inputLen)).
    rewrite poke_at; [| reflexivity | rewrite length_map, repeat_length; unfold len in *; lia].
    cbn [app]. f_equal. rewrite length_map, skipn_repeat. f_equal.
    unfold len in *. lia.
  - unfold memset. rewrite len_app, len_map, len_repeat.
    rewrite check_ok by lia. rewrite bind_ret_run. f_equal.
    rewrite poke_at.
    + rewrite repeat_length, skipn_repeat, Nat.sub_diag. cbn [repeat].
      rewrite app_nil_r. unfold pkcs7_pad. f_equal.
      rewrite uint8_t_id by (unfold is_byte; lia). rewrite HpadLen. reflexivity.
    + rewrite len_map. reflexivity.
    + rewrite !repeat_length. lia.
Qed.

Lemma length_hex_encode l : List.length (hex_encode l) = (2 * List.length l)%nat.
Proof.
  unfold hex_encode. rewrite (flat_map_constant_length (c := 2)); [lia|reflexivity].
Qed.

Lemma block_count n : 0 <= n -> Z.to_nat ((16 * n + 16 - 1) / 16) = Z.to_nat n.
Proof.
  intros H. replace (16 * n + 16 - 1) with (15 + n * 16) by lia.
  rewrite Z.div_add by lia. reflexivity.
Qed.

Section EncryptShape.

Context {aes128 : BlockCipher}.
Variable stray : Z -> Z.

(** The shape of a run of [encryptMessage] on a plaintext of at most 239
    bytes, whatever the cipher computes. *)
Lemma encryptMessage_shape P :
  len P <= 239 ->
  trace (encryptMessage stray P) = repeat CipherCall (blocks P)
  /\ List.length (value (encryptMessage stray P)) = (32 * blocks P)%nat.
Proof.
  intros HL. destruct (input_filled P HL) as (HpadLen & HinputLen & Hcpy & Hset).
  unfold encryptMessage.
  set (padLen := uint8_t (16 - len P mod 16)) in *.
  set (inputLen := uint8_t (len P + padLen)) in *.
  cbv zeta. rewrite Hcpy, bind_ret_run, Hset, bind_ret_run.
  unfold for_loop.
  replace (Z.to_nat ((inputLen + 16 - 1) / 16)) with (blocks P)
    by (rewrite HinputLen, block_count; lia).
  replace (Z.to_nat ((inputLen + 1 - 1) / 1)) with (16 * blocks P)%nat
    by (rewrite Z.div_1_r; lia).
  destruct (block_loop_trace stray (encryptBlock AES_KEY) (pkcs7_pad P) (blocks P) 0
              (new_array inputLen)) as (Ht & Hl & _).
  { rewrite length_pkcs7_pad. lia. }
  { rewrite new_array_length; lia. }
  change (Z.of_nat 0) with 0 in *.
  set (run := iterate (blocks P) 0 16 _ _) in *.
  rewrite (run_eta run).
  erewrite bind_run; [| reflexivity |].
  2:{ erewrite bind_run; [reflexivity | | reflexivity].
      apply (read_loop stray sprintf_02X (value run) (16 * blocks P) 0 []).
      rewrite Hl, new_array_length; lia. }
  unfold value at 1, trace at 1. cbn [fst snd]. rewrite Ht, !app_nil_r.
  split; [reflexivity|].
  unfold value at 1. cbn [app skipn fst].
  fold (hex_encode (firstn (16 * blocks P) (value run))).
  rewrite length_hex_encode, length_firstn, Hl, new_array_length; lia.
Qed.

End EncryptShape.

Lemma for_loop_step1 {S : Type} limit (body : Z -> S -> M S) s :
  for_loop limit 1 body s = iterate (Z.to_nat limit) 0 1 body s.
Proof.
  unfold for_loop. replace (limit + 1 - 1) with limit by lia.
  rewrite Z.div_1_r. reflexivity.
Qed.

Lemma load_in_Z stray (a : list Z) i :
  0 <= i < len a -> load stray a i = ret (nth (Z.to_nat i) a 0).
Proof.
  intros H. rewrite <- (Z2Nat.id i) at 1 by lia. apply load_in. unfold len in H. lia.
Qed.

Lemma peek_byte stray a i : Forall is_byte a -> is_byte (peek stray a i).
Proof.
  intros Ha. unfold peek.
  destruct ((0 <=? i) && (i <? len a)) eqn:E; [|apply uint8_t_byte].
  apply andb_true_iff in E. destruct E as [E1 E2].
  apply Z.leb_le in E1. apply Z.ltb_lt in E2.
  rewrite Forall_forall in Ha. apply Ha. apply nth_In. unfold len in E2. lia.
Qed.

Lemma new_array_bytes n : Forall is_byte (new_array n).
Proof.
  unfold new_array. apply Forall_forall. intros x Hx.
  apply repeat_spec in Hx. subst. unfold is_byte. lia.
Qed.

Lemma blocks_ok_of_law f n l :
  (forall b, is_block b -> is_block (f b)) ->
  List.length l = (16 * n)%nat -> Forall is_byte l -> blocks_ok f n l.
Proof.
  intros Hf. revert l. induction n as [|n IH]; intros l Hl Hb; cbn [blocks_ok]; [trivial|].
  split.
  - apply Hf. split; [rewrite length_firstn; lia | apply Forall_firstn; assumption].
  - apply IH; [rewrite length_skipn; lia | apply Forall_skipn; assumption].
Qed.

Lemma AES_KEY_block : is_block AES_KEY.
Proof.
  split; [reflexivity|]. unfold AES_KEY, is_byte.
  repeat constructor; lia.
Qed.

Lemma memory_safe_app {A : Type} (m : M A) t1 t2 :
  trace m = t1 ++ t2 ->
  memory_safe m = forallb (fun e => negb (is_out_of_bounds e)) t1
                  && forallb (fun e => negb (is_out_of_bounds e)) t2.
Proof. intros H. unfold memory_safe. rewrite H. apply forallb_app. Qed.

Lemma cipher_calls_safe n :
  forallb (fun e => negb (is_out_of_bounds e)) (repeat CipherCall n) = true.
Proof. induction n; simpl; auto. Qed.

Lemma poke_nil {A : Type} i (vs : list A) : 0 <= i -> poke [] i vs = [].
Proof.
  intros Hi. unfold poke. destruct (i <? 0); [reflexivity|].
  rewrite firstn_nil, skipn_nil. change (len []) with 0.
  replace (Z.to_nat (0 - i)) with 0%nat by lia. reflexivity.
Qed.

Section EncryptRuns.

Context {aes128 : BlockCipher}.
Variable stray : Z -> Z.

(** *** Encryption *)

Lemma encryptMessage_run {laws : BlockCipherLaws aes128} P :
  len P <= 239 ->
  encryptMessage stray P
  = (hex_encode (ecb (encryptBlock AES_KEY) (blocks P) (pkcs7_pad P)),
     repeat CipherCall (blocks P)).
Proof.
  intros HL. destruct (input_filled P HL) as (HpadLen & HinputLen & Hcpy & Hset).
  unfold encryptMessage.
  set (padLen := uint8_t (16 - len P mod 16)) in *.
  set (inputLen := uint8_t (len P + padLen)) in *.
  cbv zeta. rewrite Hcpy, bind_ret_run, Hset, bind_ret_run.
  unfold for_loop at 1.
  replace (Z.to_nat ((inputLen + 16 - 1) / 16)) with (blocks P)
    by (rewrite HinputLen, block_count; lia).
  pose proof (block_loop_value stray (encryptBlock AES_KEY) (blocks P) [] (pkcs7_pad P) []
                (new_array inputLen) eq_refl (length_pkcs7_pad P)) as Hloop.
  cbn [app] in Hloop. change (len []) with 0 in Hloop.
  rewrite Hloop.
  - assert (Hlen : List.length (ecb (encryptBlock AES_KEY) (blocks P) (pkcs7_pad P))
                   = Z.to_nat inputLen).
    { pose proof (block_loop_trace stray (encryptBlock AES_KEY) (pkcs7_pad P) (blocks P) 0
                    (new_array inputLen)) as Ht.
      change (Z.of_nat 0) with 0 in Ht. rewrite Hloop in Ht.
      - destruct Ht as (_ & Hl & _).
        + rewrite length_pkcs7_pad. lia.
        + rewrite new_array_length. lia.
        + unfold value in Hl. cbn [fst] in Hl. rewrite Hl. apply new_array_length.
      - rewrite new_array_length. lia.
      - apply blocks_ok_of_law; auto using length_pkcs7_pad, pkcs7_pad_bytes.
        intros b Hb. apply encryptBlock_block; auto using AES_KEY_block. }
    erewrite bind_run; [| reflexivity |].
    2:{ cbv beta. rewrite for_loop_step1.
        erewrite bind_run; [reflexivity | | reflexivity].
        apply (read_loop stray sprintf_02X _ (Z.to_nat inputLen) 0 []). lia. }
    rewrite !app_nil_r. cbn [app skipn]. rewrite <- Hlen, firstn_all. reflexivity.
  - rewrite new_array_length. lia.
  - apply blocks_ok_of_law; auto using length_pkcs7_pad, pkcs7_pad_bytes.
    intros b Hb. apply encryptBlock_block; auto using AES_KEY_block.
Qed.

(** From 240 bytes on, the 8-bit [inputLen] is smaller than the plaintext. *)
Lemma inputLen_wraps (P : ArduinoString) :
  240 <= len P ->
  uint8_t (len P + uint8_t (16 - len P mod 16)) < len P
  /\ (len P <= 255 -> uint8_t (len P + uint8_t (16 - len P mod 16)) = 0).
Proof.
  intros HL. pose proof (pad_bounds (len P) (len_nonneg P)) as Hpad.
  pose proof (padded_length (len P) (len_nonneg P)) as Hsum.
  rewrite (uint8_t_id (16 - len P mod 16)) by (unfold is_byte; lia).
  unfold uint8_t. split.
  - pose proof (Z.mod_pos_bound (len P + (16 - len P mod 16)) 256).
    destruct (Z_le_gt_dec 256 (len P)); [lia|].
    assert (len P / 16 = 15)
      by (pose proof (Z.div_mod (len P) 16); pose proof (Z.mod_pos_bound (len P) 16); lia).
    rewrite Hsum. replace (16 * (len P / 16 + 1)) with 256 by lia.
    rewrite Z.mod_same by lia. lia.
  - intros HL'.
    assert (len P / 16 = 15)
      by (pose proof (Z.div_mod (len P) 16); pose proof (Z.mod_pos_bound (len P) 16); lia).
    rewrite Hsum. replace (16 * (len P / 16 + 1)) with 256 by lia.
    apply Z.mod_same. lia.
Qed.

Lemma encryptMessage_overflow P :
  240 <= len P -> memory_safe (encryptMessage stray P) = false.
Proof.
  intros HL. destruct (inputLen_wraps P HL) as [Hlt _].
  unfold encryptMessage.
  set (padLen := uint8_t (16 - len P mod 16)) in *.
  set (inputLen := uint8_t (len P + padLen)) in *.
  cbv zeta. unfold memcpy at 1.
  rewrite len_map. unfold new_array at 1. rewrite len_repeat.
  assert (0 <= inputLen) by (apply uint8_t_byte).
  rewrite check_fail by lia.
  reflexivity.
Qed.

Lemma encryptMessage_wrapped P :
  240 <= len P <= 255 ->
  encryptMessage stray P
  = ([], [OutOfBounds 0 (len P) 0; OutOfBounds (len P) (16 - len P mod 16) 0]).
Proof.
  intros HL. destruct (inputLen_wraps P) as [_ H0]; [lia|].
  pose proof (pad_bounds (len P) (len_nonneg P)) as Hpad.
  unfold encryptMessage. cbv zeta. rewrite H0 by lia.
  rewrite (uint8_t_id (16 - len P mod 16)) by (unfold is_byte; lia).
  change (new_array 0) with (@nil Z).
  etransitivity.
  - eapply bind_run.
    + unfold memcpy. rewrite len_map. change (len []) with 0.
      rewrite check_fail by lia. reflexivity.
    + cbv beta. rewrite poke_nil by lia.
      eapply bind_run.
      * unfold memset. change (fst (ret (@nil Z))) with (@nil Z).
        change (len []) with 0. rewrite check_fail by lia. reflexivity.
      * cbv beta. change (fst (ret (@nil Z))) with (@nil Z).
        rewrite poke_nil by lia. reflexivity.
  - reflexivity.
Qed.

End EncryptRuns.

Lemma load_run stray (a : list Z) i :
  load stray a i
  = (peek stray a i, if in_bounds i 1 (len a) then [] else [OutOfBounds i 1 (len a)]).
Proof. unfold load, check. destruct (in_bounds i 1 (len a)); reflexivity. Qed.

Lemma flat_map_singleton {A B : Type} (f : A -> B) l :
  flat_map (fun x => [f x]) l = map f l.
Proof. induction l; simpl; congruence. Qed.

(** The 8-bit byte count of a hex string of whole blocks. *)
Lemma cipherLen_blocks L :
  0 <= L -> L mod 32 = 0 ->
  0 <= uint8_t (L / 2) < 256
  /\ uint8_t (L / 2) = 16 * (uint8_t (L / 2) / 16)
  /\ (uint8_t (L / 2) = 0 <-> L mod 512 = 0).
Proof.
  intros H0 H32. unfold uint8_t.
  pose proof (Z.div_mod L 32). pose proof (Z.div_mod L 2).
  pose proof (Z.mod_pos_bound L 2).
  pose proof (Z.div_mod (L / 2) 256). pose proof (Z.mod_pos_bound (L / 2) 256).
  pose proof (Z.div_mod ((L / 2) mod 256) 16).
  pose proof (Z.mod_pos_bound ((L / 2) mod 256) 16).
  pose proof (Z.div_mod L 512). pose proof (Z.mod_pos_bound L 512).
  lia.
Qed.

Section DecryptRuns.

Context {aes128 : BlockCipher}.
Variable stray : Z -> Z.

Lemma decryptMessage_reject s :
  len s mod 32 <> 0 -> decryptMessage stray s = (lit "[ERRO DECRYPT]", []).
Proof.
  intros H. unfold decryptMessage.
  destruct (len s mod 32 =? 0) eqn:E; [apply Z.eqb_eq in E; contradiction|].
  reflexivity.
Qed.

(** A run of [decryptMessage] past the length check: the bytes named by the
    hex pairs, the block loop over them, the padding byte, the text. *)
Lemma decryptMessage_run s :
  len s mod 32 = 0 ->
  let cipherLen := uint8_t (len s / 2) in
  let cipher := map (fun k => hex_byte_at s (Z.of_nat k)) (seq 0 (Z.to_nat cipherLen)) in
  let loop := iterate (Z.to_nat (cipherLen / 16)) 0 16
                (block_at stray (decryptBlock AES_KEY) cipher) (new_array cipherLen) in
  let last := peek stray (value loop) (cipherLen - 1) in
  let padLen := if last >? 16 then 0 else last in
  trace loop = repeat CipherCall (Z.to_nat (cipherLen / 16))
  /\ List.length (value loop) = Z.to_nat cipherLen
  /\ 0 <= padLen <= 16
  /\ decryptMessage stray s
     = (map char_of_byte (firstn (Z.to_nat (cipherLen - padLen)) (value loop)),
        repeat CipherCall (Z.to_nat (cipherLen / 16))
          ++ (if cipherLen =? 0 then [OutOfBounds (-1) 1 0] else [])).
Proof.
  intros H32 cipherLen cipher loop last padLen.
  destruct (cipherLen_blocks (len s) (len_nonneg s) H32) as (Hc & H16 & Hz).
  fold cipherLen in Hc, H16, Hz.
  assert (Hcipher : List.length cipher = Z.to_nat cipherLen)
    by (unfold cipher; rewrite length_map, length_seq; reflexivity).
  destruct (block_loop_trace stray (decryptBlock AES_KEY) cipher
              (Z.to_nat (cipherLen / 16)) 0 (new_array cipherLen))
    as (Ht & Hl & Hb); try (rewrite ?new_array_length; lia).
  change (Z.of_nat 0) with 0 in *. fold loop in Ht, Hl, Hb.
  rewrite new_array_length in Hl. specialize (Hb (new_array_bytes _)).
  assert (Hlast : is_byte last) by (apply peek_byte; assumption).
  assert (Hpad : 0 <= padLen <= 16).
  { unfold padLen. destruct (last >? 16) eqn:E; [lia|].
    unfold is_byte in Hlast. rewrite Z.gtb_ltb in E. apply Z.ltb_ge in E. lia. }
  assert (Hs : iterate (Z.to_nat cipherLen) 0 1
                 (fun i c => store c i (hex_byte_at s i)) (new_array cipherLen)
               = ret cipher).
  { pose proof (store_loop (hex_byte_at s) (Z.to_nat cipherLen) []
                  (new_array cipherLen) (new_array_length _)) as Hs.
    cbn [app] in Hs. change (len []) with 0 in Hs. exact Hs. }
  assert (Hloop : for_loop cipherLen 16 (block_at stray (decryptBlock AES_KEY) cipher)
                    (new_array cipherLen) = loop).
  { unfold for_loop, loop. rewrite H16 at 1. rewrite block_count by lia. reflexivity. }
  repeat split; try assumption; try lia.
  unfold decryptMessage. rewrite H32. cbn [Z.eqb negb]. cbv zeta.
  fold cipherLen.
  etransitivity.
  - eapply bind_run.
    + rewrite for_loop_step1. exact Hs.
    + cbv beta.
      eapply bind_run.
      * rewrite Hloop. apply run_eta.
      * cbv beta. eapply bind_run; [apply load_run|].
        cbv beta. fold last. fold padLen.
        eapply bind_run; [|reflexivity].
        rewrite for_loop_step1.
        apply (read_loop stray (fun b => [char_of_byte b]) (value loop)
                 (Z.to_nat (cipherLen - padLen)) 0 []).
        lia.
  - assert (Hlen : len (value loop) = cipherLen) by (unfold len; lia).
    rewrite Ht, Hlen. cbn [app skipn]. rewrite flat_map_singleton, !app_nil_r.
    f_equal. f_equal. unfold in_bounds.
    destruct (cipherLen =? 0) eqn:E.
    + apply Z.eqb_eq in E. rewrite E. reflexivity.
    + apply Z.eqb_neq in E. cbn [Z.leb orb].
      replace (0 <=? cipherLen - 1) with true by (symmetry; apply Z.leb_le; lia).
      replace (cipherLen - 1 + 1 <=? cipherLen) with true by (symmetry; apply Z.leb_le; lia).
      reflexivity.
Qed.

End DecryptRuns.

Section DecryptValue.

Context {aes128 : BlockCipher}.
Variable stray : Z -> Z.

Lemma length_ecb_blocks f n l :
  blocks_ok f n l -> List.length (ecb f n l) = (16 * n)%nat.
Proof.
  revert l. induction n as [|n IH]; intros l H; cbn [ecb blocks_ok] in *.
  - reflexivity.
  - destruct H as [[Hl _] H]. rewrite length_app, Hl, (IH _ H). lia.
Qed.

(** The text that a run past the length check returns: the decoded bytes,
    decrypted block by block, without their padding. *)
Lemma decryptMessage_value s :
  len s mod 32 = 0 ->
  blocks_ok (decryptBlock AES_KEY) (Z.to_nat (uint8_t (len s / 2) / 16)) (cipher_bytes s) ->
  value (decryptMessage stray s)
  = map char_of_byte
      (strip_padding
         (ecb (decryptBlock AES_KEY) (Z.to_nat (uint8_t (len s / 2) / 16)) (cipher_bytes s))).
Proof.
  intros H32 Hok.
  pose proof (decryptMessage_run stray s H32) as Hrun. cbv zeta in Hrun.
  destruct Hrun as (_ & _ & Hpad & Hrun).
  destruct (cipherLen_blocks (len s) (len_nonneg s) H32) as (Hc & H16 & Hz).
  fold (cipher_bytes s) in Hrun, Hpad.
  set (c := uint8_t (len s / 2)) in *.
  set (n := Z.to_nat (c / 16)) in *.
  assert (Hn : Z.to_nat c = (16 * n)%nat) by lia.
  assert (Hcb : List.length (cipher_bytes s) = (16 * n)%nat).
  { unfold cipher_bytes. fold c. rewrite length_map, length_seq. exact Hn. }
  pose proof (block_loop_value stray (decryptBlock AES_KEY) n [] (cipher_bytes s) []
                (new_array c) eq_refl Hcb) as Hloop.
  cbn [app] in Hloop. change (len []) with 0 in Hloop.
  rewrite Hloop in Hrun, Hpad by (rewrite ?new_array_length; lia || assumption).
  unfold value in Hrun, Hpad |- *. cbn [fst] in Hrun, Hpad. rewrite Hrun. cbn [fst].
  f_equal. pose proof (length_ecb_blocks _ _ _ Hok) as Hlen.
  set (output := ecb (decryptBlock AES_KEY) n (cipher_bytes s)) in *.
  unfold strip_padding. cbv zeta. rewrite Hlen.
  destruct (Nat.eq_dec n 0) as [E|E].
  - rewrite E in *. replace c with 0 by lia.
    destruct output; [|discriminate]. rewrite !firstn_nil. reflexivity.
  - replace (c - 1) with (Z.of_nat (16 * n - 1)) in * by lia.
    rewrite peek_in in * by lia.
    f_equal. lia.
Qed.

End DecryptValue.

(** ** Hexadecimal transport *)

Lemma byte_cases (p : Z -> bool) :
  forallb p all_bytes = true -> forall b, is_byte b -> p b = true.
Proof.
  intros H b Hb. rewrite forallb_forall in H. apply H.
  unfold all_bytes. apply in_map_iff. exists (Z.to_nat b). split.
  - unfold is_byte in Hb. lia.
  - apply in_seq. unfold is_byte in Hb. lia.
Qed.

Lemma strtol16_sprintf_02X b :
  is_byte b -> uint8_t (strtol16 (c_str (sprintf_02X b))) = b.
Proof.
  intros Hb. apply Z.eqb_eq.
  apply (byte_cases (fun b => uint8_t (strtol16 (c_str (sprintf_02X b))) =? b));
    [vm_compute; reflexivity | assumption].
Qed.

Lemma skipn_hex_encode (k : nat) bs :
  skipn (2 * k) (hex_encode bs) = hex_encode (skipn k bs).
Proof.
  revert bs. induction k as [|k IH]; intros bs; [reflexivity|].
  destruct bs as [|b bs]; [reflexivity|].
  replace (2 * S k)%nat with (S (S (2 * k))) by lia.
  cbn [hex_encode flat_map sprintf_02X app skipn]. apply IH.
Qed.

Lemma hex_byte_at_hex_encode bs (k : nat) :
  Forall is_byte bs -> (k < List.length bs)%nat ->
  hex_byte_at (hex_encode bs) (Z.of_nat k) = nth k bs 0.
Proof.
  intros Hb Hk. unfold hex_byte_at, substring.
  rewrite Z.min_l, Z.max_r by lia.
  replace (Z.of_nat k * 2 + 2 - Z.of_nat k * 2) with 2 by lia.
  replace (Z.to_nat (Z.of_nat k * 2)) with (2 * k)%nat by lia.
  rewrite skipn_hex_encode. rewrite (skipn_nth_cons bs k 0) by assumption.
  change (Z.to_nat 2) with 2%nat.
  cbn [hex_encode flat_map sprintf_02X app firstn].
  apply strtol16_sprintf_02X.
  rewrite Forall_forall in Hb. apply Hb. apply nth_In. assumption.
Qed.

Lemma map_nth_seq {A : Type} (l : list A) d :
  map (fun k => nth k l d) (seq 0 (List.length l)) = l.
Proof.
  apply nth_ext with (d := nth 0 l d) (d' := d).
  - rewrite length_map, length_seq. reflexivity.
  - intros n Hn. rewrite length_map, length_seq in Hn.
    rewrite (map_nth (fun k => nth k l d)). rewrite seq_nth by assumption. reflexivity.
Qed.

Lemma hex_decode_encode bs :
  Forall is_byte bs ->
  map (fun k => hex_byte_at (hex_encode bs) (Z.of_nat k)) (seq 0 (List.length bs)) = bs.
Proof.
  intros Hb. transitivity (map (fun k => nth k bs 0) (seq 0 (List.length bs)));
    [| apply map_nth_seq].
  apply map_ext_in. intros k Hk. apply in_seq in Hk.
  apply hex_byte_at_hex_encode; [assumption | lia].
Qed.

(** ** ECB *)

Lemma firstn_app_exact {A : Type} (a b : list A) n :
  List.length a = n -> firstn n (a ++ b) = a.
Proof.
  intros <-. rewrite firstn_app, Nat.sub_diag, firstn_all. simpl. apply app_nil_r.
Qed.

Lemma skipn_app_exact {A : Type} (a b : list A) n :
  List.length a = n -> skipn n (a ++ b) = b.
Proof.
  intros <-. rewrite skipn_app, Nat.sub_diag, skipn_all. reflexivity.
Qed.

Section ECB.

Context {aes128 : BlockCipher} {laws : BlockCipherLaws aes128}.

Lemma firstn_block l n :
  List.length l = (16 * S n)%nat -> Forall is_byte l -> is_block (firstn 16 l).
Proof.
  intros Hl Hb. split; [rewrite length_firstn; lia | apply Forall_firstn; assumption].
Qed.

Lemma ecb_encrypt_shape key n l :
  is_block key -> List.length l = (16 * n)%nat -> Forall is_byte l ->
  List.length (ecb (encryptBlock key) n l) = (16 * n)%nat
  /\ Forall is_byte (ecb (encryptBlock key) n l).
Proof.
  intros Hk. revert l. induction n as [|n IH]; intros l Hl Hb; cbn [ecb].
  - split; [reflexivity | constructor].
  - destruct (encryptBlock_block key (firstn 16 l) Hk (firstn_block l n Hl Hb)) as [H1 H2].
    destruct (IH (skipn 16 l)) as [H3 H4];
      [rewrite length_skipn; lia | apply Forall_skipn; assumption |].
    split; [rewrite length_app; lia | apply Forall_app; auto].
Qed.

Lemma ecb_decrypt_encrypt key n l :
  is_block key -> List.length l = (16 * n)%nat -> Forall is_byte l ->
  ecb (decryptBlock key) n (ecb (encryptBlock key) n l) = l
  /\ blocks_ok (decryptBlock key) n (ecb (encryptBlock key) n l).
Proof.
  intros Hk. revert l. induction n as [|n IH]; intros l Hl Hb; cbn [ecb blocks_ok].
  - destruct l; [auto | discriminate].
  - pose proof (firstn_block l n Hl Hb) as Hfirst.
    destruct (encryptBlock_block key (firstn 16 l) Hk Hfirst) as [H1 H2].
    rewrite firstn_app_exact, skipn_app_exact by assumption.
    rewrite decryptBlock_encryptBlock by assumption.
    destruct (IH (skipn 16 l)) as [H3 H4];
      [rewrite length_skipn; lia | apply Forall_skipn; assumption |].
    rewrite H3. repeat split; auto using firstn_skipn.
    + apply Hfirst.
    + apply Hfirst.
Qed.

End ECB.

(** ** Removing the padding *)

Lemma nth_repeat_lt {A : Type} (x d : A) (n i : nat) :
  (i < n)%nat -> nth i (repeat x n) d = x.
Proof.
  intros H. apply (repeat_spec n x). apply nth_In. rewrite repeat_length. assumption.
Qed.

Lemma pkcs7_pad_last P :
  nth (16 * blocks P - 1) (pkcs7_pad P) 0 = 16 - len P mod 16.
Proof.
  pose proof (length_pkcs7_pad P) as Hlen.
  pose proof (pad_bounds (len P) (len_nonneg P)) as Hpad.
  unfold pkcs7_pad in *. rewrite length_app, length_map, repeat_length in Hlen.
  rewrite app_nth2 by (rewrite length_map; lia).
  apply nth_repeat_lt. rewrite length_map. lia.
Qed.

Lemma pkcs7_pad_text P :
  map char_of_byte (firstn (List.length P) (pkcs7_pad P)) = P.
Proof.
  unfold pkcs7_pad. rewrite firstn_app_exact by apply length_map.
  rewrite map_map. rewrite <- (map_id P) at 2.
  apply map_ext. apply char_of_byte_of_char.
Qed.

Section Roundtrip.

Context {aes128 : BlockCipher} {laws : BlockCipherLaws aes128}.
Variables stray stray' : Z -> Z.

Lemma decryptMessage_encryptMessage P :
  len P <= 239 ->
  decryptMessage stray' (value (encryptMessage stray P))
  = (P, repeat CipherCall (blocks P)).
Proof.
  intros HL. rewrite encryptMessage_run by assumption. unfold value. cbn [fst].
  set (ct := ecb (encryptBlock AES_KEY) (blocks P) (pkcs7_pad P)).
  destruct (ecb_encrypt_shape AES_KEY (blocks P) (pkcs7_pad P) AES_KEY_block
              (length_pkcs7_pad P) (pkcs7_pad_bytes P)) as [Hct Hctb].
  destruct (ecb_decrypt_encrypt AES_KEY (blocks P) (pkcs7_pad P) AES_KEY_block
              (length_pkcs7_pad P) (pkcs7_pad_bytes P)) as [Hdec Hok].
  fold ct in Hct, Hctb, Hdec, Hok.
  assert (Hblocks : Z.of_nat (blocks P) = len P / 16 + 1)
    by (unfold blocks; pose proof (len_nonneg P);
        assert (0 <= len P / 16) by (apply Z.div_pos; lia); lia).
  assert (Hpos : (1 <= blocks P)%nat)
    by (assert (0 <= len P / 16) by (apply Z.div_pos; pose proof (len_nonneg P); lia); lia).
  assert (Hnb : (blocks P <= 15)%nat)
    by (pose proof (Z.div_mod (len P) 16); pose proof (Z.mod_pos_bound (len P) 16); lia).
  assert (Hs : len (hex_encode ct) = 32 * Z.of_nat (blocks P))
    by (unfold len; rewrite length_hex_encode, Hct; lia).
  assert (H32 : len (hex_encode ct) mod 32 = 0)
    by (rewrite Hs, Z.mul_comm; apply Z.mod_mul; lia).
  assert (Hc : uint8_t (len (hex_encode ct) / 2) = 16 * Z.of_nat (blocks P)).
  { rewrite Hs. replace (32 * Z.of_nat (blocks P)) with (16 * Z.of_nat (blocks P) * 2) by lia.
    rewrite Z.div_mul by lia. apply uint8_t_id. unfold is_byte. lia. }
  pose proof (decryptMessage_run stray' (hex_encode ct) H32) as Hrun.
  cbv zeta in Hrun. destruct Hrun as (_ & _ & _ & Hrun). rewrite Hrun. clear Hrun.
  rewrite Hc.
  replace (Z.to_nat (16 * Z.of_nat (blocks P))) with (List.length ct) by lia.
  rewrite hex_decode_encode by assumption.
  replace (16 * Z.of_nat (blocks P) / 16) with (Z.of_nat (blocks P))
    by (rewrite Z.mul_comm, Z.div_mul; lia).
  rewrite Nat2Z.id.
  pose proof (block_loop_value stray' (decryptBlock AES_KEY) (blocks P) [] ct []
                (new_array (16 * Z.of_nat (blocks P))) eq_refl Hct) as Hloop.
  cbn [app] in Hloop. change (len []) with 0 in Hloop.
  rewrite Hloop; [| rewrite new_array_length; lia | assumption].
  unfold value. cbn [fst]. rewrite Hdec.
  pose proof (pad_bounds (len P) (len_nonneg P)) as Hpad.
  pose proof (padded_length (len P) (len_nonneg P)) as Hsum.
  assert (Hlast : peek stray' (pkcs7_pad P) (16 * Z.of_nat (blocks P) - 1)
                  = 16 - len P mod 16).
  { replace (16 * Z.of_nat (blocks P) - 1) with (Z.of_nat (16 * blocks P - 1)) by lia.
    rewrite peek_in by (rewrite length_pkcs7_pad; lia). apply pkcs7_pad_last. }
  rewrite Hlast.
  replace (16 - len P mod 16 >? 16) with false
    by (symmetry; rewrite Z.gtb_ltb; apply Z.ltb_ge; lia).
  replace (Z.to_nat (16 * Z.of_nat (blocks P) - (16 - len P mod 16)))
    with (List.length P) by (unfold len in *; lia).
  rewrite pkcs7_pad_text.
  replace (16 * Z.of_nat (blocks P) =? 0) with false
    by (symmetry; apply Z.eqb_neq; lia).
  rewrite app_nil_r. reflexivity.
Qed.

End Roundtrip.

Lemma byte_cases2 (p : Z -> Z -> bool) :
  forallb (fun a => forallb (p a) all_bytes) all_bytes = true ->
  forall a b, is_byte a -> is_byte b -> p a b = true.
Proof.
  intros H a b Ha Hb.
  apply (byte_cases (p a)); [|assumption].
  apply (byte_cases (fun a => forallb (p a) all_bytes)); assumption.
Qed.

Module AES128_facts.
Import AES128.

Lemma byteb_spec z : byteb z = true -> is_byte z.
Proof.
  unfold byteb, is_byte. intros H. apply andb_true_iff in H.
  destruct H as [H1 H2]. apply Z.leb_le in H1. apply Z.ltb_lt in H2. lia.
Qed.

Lemma lxor_byte a b : is_byte a -> is_byte b -> is_byte (Z.lxor a b).
Proof.
  intros Ha Hb. apply byteb_spec.
  apply (byte_cases2 (fun a b => byteb (Z.lxor a b))); [vm_compute; reflexivity | |]; assumption.
Qed.

Lemma xtime_byte a : is_byte a -> is_byte (xtime a).
Proof.
  intros Ha. apply byteb_spec.
  apply (byte_cases (fun a => byteb (xtime a))); [vm_compute; reflexivity | assumption].
Qed.

Lemma SubByte_byte a : is_byte a -> is_byte (SubByte a).
Proof.
  intros Ha. apply byteb_spec.
  apply (byte_cases (fun a => byteb (SubByte a))); [vm_compute; reflexivity | assumption].
Qed.

Lemma InvSubByte_SubByte a : is_byte a -> InvSubByte (SubByte a) = a.
Proof.
  intros Ha. apply Z.eqb_eq.
  apply (byte_cases (fun a => InvSubByte (SubByte a) =? a));
    [vm_compute; reflexivity | assumption].
Qed.

Lemma xtime_lxor a b :
  is_byte a -> is_byte b -> xtime (Z.lxor a b) = Z.lxor (xtime a) (xtime b).
Proof.
  intros Ha Hb. apply Z.eqb_eq.
  apply (byte_cases2 (fun a b => xtime (Z.lxor a b) =? Z.lxor (xtime a) (xtime b)));
    [vm_compute; reflexivity | |]; assumption.
Qed.

End AES128_facts.

Module AES128_mix.
Import AES128 AES128_facts.

Create HintDb bytes.
#[local] Hint Resolve lxor_byte xtime_byte SubByte_byte : bytes.

Ltac push_xtime :=
  unfold xor4, mul2, mul3, mul9, mul11, mul13, mul14;
  repeat rewrite xtime_lxor by auto 20 with bytes.

Ltac xor_bits :=
  apply Z.bits_inj'; intros n _; rewrite !Z.lxor_spec; btauto.

Lemma mix_column_0 a b c d :
  is_byte a -> is_byte b -> is_byte c -> is_byte d ->
  xor4 (mul14 (xor4 (mul2 a) (mul3 b) c d)) (mul11 (xor4 a (mul2 b) (mul3 c) d))
       (mul13 (xor4 a b (mul2 c) (mul3 d))) (mul9 (xor4 (mul3 a) b c (mul2 d))) = a.
Proof. intros. push_xtime. xor_bits. Qed.

Lemma mix_column_1 a b c d :
  is_byte a -> is_byte b -> is_byte c -> is_byte d ->
  xor4 (mul9 (xor4 (mul2 a) (mul3 b) c d)) (mul14 (xor4 a (mul2 b) (mul3 c) d))
       (mul11 (xor4 a b (mul2 c) (mul3 d))) (mul13 (xor4 (mul3 a) b c (mul2 d))) = b.
Proof. intros. push_xtime. xor_bits. Qed.

Lemma mix_column_2 a b c d :
  is_byte a -> is_byte b -> is_byte c -> is_byte d ->
  xor4 (mul13 (xor4 (mul2 a) (mul3 b) c d)) (mul9 (xor4 a (mul2 b) (mul3 c) d))
       (mul14 (xor4 a b (mul2 c) (mul3 d))) (mul11 (xor4 (mul3 a) b c (mul2 d))) = c.
Proof. intros. push_xtime. xor_bits. Qed.

Lemma mix_column_3 a b c d :
  is_byte a -> is_byte b -> is_byte c -> is_byte d ->
  xor4 (mul11 (xor4 (mul2 a) (mul3 b) c d)) (mul13 (xor4 a (mul2 b) (mul3 c) d))
       (mul9 (xor4 a b (mul2 c) (mul3 d))) (mul14 (xor4 (mul3 a) b c (mul2 d))) = d.
Proof. intros. push_xtime. xor_bits. Qed.

End AES128_mix.

Module AES128_inverse.
Import AES128 AES128_facts AES128_mix.

#[local] Hint Resolve lxor_byte xtime_byte SubByte_byte : bytes.

Ltac forall_inv :=
  repeat match goal with
         | H : Forall _ (_ :: _) |- _ => inversion H; clear H; subst
         | H : Forall _ [] |- _ => clear H
         end.

Ltac forall_cons tac :=
  repeat (apply Forall_cons; [solve [tac]|]); apply Forall_nil.

Ltac list16 s Hlen :=
  do 16 (destruct s as [|? s]; [discriminate Hlen|]);
  destruct s; [|discriminate Hlen].

(** *** The four transformations and their inverses *)

Lemma SubBytes_bytes s : Forall is_byte s -> Forall is_byte (SubBytes s).
Proof. induction 1; simpl; constructor; auto with bytes. Qed.

Lemma InvSubBytes_SubBytes s : Forall is_byte s -> InvSubBytes (SubBytes s) = s.
Proof.
  induction 1 as [|x s Hx _ IH]; simpl; [reflexivity|].
  rewrite InvSubByte_SubByte, IH by assumption. reflexivity.
Qed.

Lemma ShiftRows_block s : is_block s -> is_block (ShiftRows s).
Proof.
  intros [Hlen Hb]. list16 s Hlen. forall_inv.
  split; [reflexivity | cbn [ShiftRows]; forall_cons assumption].
Qed.

Lemma InvShiftRows_ShiftRows s : List.length s = 16%nat -> InvShiftRows (ShiftRows s) = s.
Proof. intros Hlen. list16 s Hlen. reflexivity. Qed.

Lemma MixColumns_shape n s :
  List.length s = (4 * n)%nat -> Forall is_byte s ->
  List.length (MixColumns s) = (4 * n)%nat
  /\ Forall is_byte (MixColumns s)
  /\ InvMixColumns (MixColumns s) = s.
Proof.
  revert s. induction n as [|n IH]; intros s Hlen Hb.
  - destruct s; [|discriminate]. repeat split; constructor.
  - do 4 (destruct s as [|? s]; [simpl in Hlen; lia|]).
    forall_inv. destruct (IH s) as (IH1 & IH2 & IH3); [simpl in Hlen; lia | assumption |].
    cbn [MixColumns InvMixColumns].
    rewrite mix_column_0, mix_column_1, mix_column_2, mix_column_3, IH3 by assumption.
    repeat split.
    + simpl. lia.
    + unfold xor4, mul2, mul3.
      repeat (apply Forall_cons; [solve [auto 10 with bytes]|]). assumption.
Qed.

Lemma AddRoundKey_block s k : is_block s -> is_block k -> is_block (AddRoundKey s k).
Proof.
  intros [Hs Hsb] [Hk Hkb]. list16 s Hs. list16 k Hk. forall_inv.
  split; [reflexivity | cbn [AddRoundKey]; forall_cons ltac:(auto with bytes)].
Qed.

Lemma lxor_cancel a b : Z.lxor (Z.lxor a b) b = a.
Proof. rewrite Z.lxor_assoc, Z.lxor_nilpotent, Z.lxor_0_r. reflexivity. Qed.

Lemma AddRoundKey_involutive s k :
  List.length s = List.length k -> AddRoundKey (AddRoundKey s k) k = s.
Proof.
  revert k. induction s as [|a s IH]; intros [|b k] H; try discriminate; [reflexivity|].
  cbn [AddRoundKey]. rewrite lxor_cancel, IH by (simpl in H; lia). reflexivity.
Qed.

(** *** Rounds *)

Lemma SubBytes_block s : is_block s -> is_block (SubBytes s).
Proof.
  intros [Hlen Hb]. split; [unfold SubBytes; rewrite length_map; assumption|].
  apply SubBytes_bytes. assumption.
Qed.

Lemma MixColumns_block s : is_block s -> is_block (MixColumns s).
Proof.
  intros [Hlen Hb]. destruct (MixColumns_shape 4 s Hlen Hb) as (H1 & H2 & _).
  split; assumption.
Qed.

Lemma round_block s k : is_block s -> is_block k -> is_block (round s k).
Proof.
  intros Hs Hk. unfold round.
  auto using AddRoundKey_block, MixColumns_block, ShiftRows_block, SubBytes_block.
Qed.

Lemma final_round_block s k : is_block s -> is_block k -> is_block (final_round s k).
Proof.
  intros Hs Hk. unfold final_round.
  auto using AddRoundKey_block, ShiftRows_block, SubBytes_block.
Qed.

Lemma inv_round_round s k : is_block s -> is_block k -> inv_round (round s k) k = s.
Proof.
  intros Hs Hk. unfold inv_round, round.
  pose proof (SubBytes_block s Hs) as H1.
  pose proof (ShiftRows_block _ H1) as H2.
  pose proof (MixColumns_block _ H2) as H3.
  rewrite AddRoundKey_involutive by (destruct H3, Hk; congruence).
  destruct H2 as [H2l H2b].
  destruct (MixColumns_shape 4 _ H2l H2b) as (_ & _ & ->).
  rewrite InvShiftRows_ShiftRows by apply H1.
  apply InvSubBytes_SubBytes, Hs.
Qed.

Lemma inv_final_round_final_round s k :
  is_block s -> is_block k -> inv_final_round (final_round s k) k = s.
Proof.
  intros Hs Hk. unfold inv_final_round, final_round.
  pose proof (SubBytes_block s Hs) as H1.
  pose proof (ShiftRows_block _ H1) as H2.
  rewrite AddRoundKey_involutive by (destruct H2, Hk; congruence).
  rewrite InvShiftRows_ShiftRows by apply H1.
  apply InvSubBytes_SubBytes, Hs.
Qed.

Lemma rounds_block ks s :
  Forall is_block ks -> is_block s -> is_block (fold_left round ks s).
Proof.
  intros Hks. revert s. induction Hks as [|k ks Hk _ IH]; intros s Hs; simpl; [assumption|].
  apply IH. apply round_block; assumption.
Qed.

Lemma inv_rounds_rounds ks s :
  Forall is_block ks -> is_block s ->
  fold_left inv_round (rev ks) (fold_left round ks s) = s.
Proof.
  intros Hks. revert s. induction Hks as [|k ks Hk _ IH]; intros s Hs; simpl; [reflexivity|].
  rewrite fold_left_app. simpl. rewrite IH by (apply round_block; assumption).
  apply inv_round_round; assumption.
Qed.

(** *** Key schedule *)

Lemma next_round_key_block k rc : is_block k -> is_byte rc -> is_block (next_round_key k rc).
Proof.
  intros [Hlen Hb] Hrc. list16 k Hlen. forall_inv.
  split; [reflexivity|]. cbn [next_round_key AddRoundKey app].
  forall_cons ltac:(auto 10 with bytes).
Qed.

Lemma expand_blocks rcs k :
  Forall is_byte rcs -> is_block k -> Forall is_block (expand k rcs).
Proof.
  intros Hrcs. revert k. induction Hrcs as [|rc rcs Hrc _ IH]; intros k Hk; simpl.
  - constructor.
  - constructor; [|apply IH]; apply next_round_key_block; assumption.
Qed.

Lemma RCON_bytes : Forall is_byte RCON.
Proof. unfold RCON. forall_cons ltac:(unfold is_byte; lia). Qed.

Lemma KeyExpansion_split key :
  is_block key ->
  KeyExpansion key = removelast (KeyExpansion key) ++ [last (KeyExpansion key) []]
  /\ Forall is_block (removelast (KeyExpansion key))
  /\ is_block (last (KeyExpansion key) []).
Proof.
  intros Hk. pose proof (expand_blocks RCON key RCON_bytes Hk) as Hks.
  fold (KeyExpansion key) in Hks.
  assert (Hne : KeyExpansion key <> []) by (unfold KeyExpansion, RCON; simpl; discriminate).
  pose proof (app_removelast_last [] Hne) as Hsplit.
  split; [assumption|].
  rewrite Hsplit in Hks. apply Forall_app in Hks. destruct Hks as [H1 H2].
  split; [assumption|]. exact (Forall_inv H2).
Qed.

(** *** The cipher *)

Lemma Cipher_block key b : is_block key -> is_block b -> is_block (Cipher key b).
Proof.
  intros Hk Hb. destruct (KeyExpansion_split key Hk) as (_ & Hmid & Hlast).
  unfold Cipher. apply final_round_block; [|assumption].
  apply rounds_block; [assumption|]. apply AddRoundKey_block; assumption.
Qed.

Lemma InvCipher_Cipher key b : is_block key -> is_block b -> InvCipher key (Cipher key b) = b.
Proof.
  intros Hk Hb. destruct (KeyExpansion_split key Hk) as (_ & Hmid & Hlast).
  unfold InvCipher, Cipher.
  pose proof (AddRoundKey_block b key Hb Hk) as H0.
  rewrite inv_final_round_final_round by (auto using rounds_block).
  rewrite inv_rounds_rounds by assumption.
  apply AddRoundKey_involutive. destruct Hb, Hk. congruence.
Qed.

End AES128_inverse.

(** The example vectors of FIPS-197, appendix B and appendix C.1. *)
Example Cipher_appendix_B :
  AES128.Cipher
    [0x2b; 0x7e; 0x15; 0x16; 0x28; 0xae; 0xd2; 0xa6;
     0xab; 0xf7; 0x15; 0x88; 0x09; 0xcf; 0x4f; 0x3c]
    [0x32; 0x43; 0xf6; 0xa8; 0x88; 0x5a; 0x30; 0x8d;
     0x31; 0x31; 0x98; 0xa2; 0xe0; 0x37; 0x07; 0x34]
  = [0x39; 0x25; 0x84; 0x1d; 0x02; 0xdc; 0x09; 0xfb;
     0xdc; 0x11; 0x85; 0x97; 0x19; 0x6a; 0x0b; 0x32].
Proof. vm_compute. reflexivity. Qed.

Example Cipher_appendix_C1 :
  AES128.Cipher
    [0x00; 0x01; 0x02; 0x03; 0x04; 0x05; 0x06; 0x07;
     0x08; 0x09; 0x0a; 0x0b; 0x0c; 0x0d; 0x0e; 0x0f]
    [0x00; 0x11; 0x22; 0x33; 0x44; 0x55; 0x66; 0x77;
     0x88; 0x99; 0xaa; 0xbb; 0xcc; 0xdd; 0xee; 0xff]
  = [0x69; 0xc4; 0xe0; 0xd8; 0x6a; 0x7b; 0x04; 0x30;
     0xd8; 0xcd; 0xb7; 0x80; 0x70; 0xb4; 0xc5; 0x5a].
Proof. vm_compute. reflexivity. Qed.

Example InvCipher_appendix_C1 :
  AES128.InvCipher
    [0x00; 0x01; 0x02; 0x03; 0x04; 0x05; 0x06; 0x07;
     0x08; 0x09; 0x0a; 0x0b; 0x0c; 0x0d; 0x0e; 0x0f]
    [0x69; 0xc4; 0xe0; 0xd8; 0x6a; 0x7b; 0x04; 0x30;
     0xd8; 0xcd; 0xb7; 0x80; 0x70; 0xb4; 0xc5; 0x5a]
  = [0x00; 0x11; 0x22; 0x33; 0x44; 0x55; 0x66; 0x77;
     0x88; 0x99; 0xaa; 0xbb; 0xcc; 0xdd; 0xee; 0xff].
Proof. vm_compute. reflexivity. Qed.

(** AES-128 meets the contract of the block cipher. *)
#[export] Instance AES128_laws : BlockCipherLaws AES128_cipher.
Proof.
  split.
  - exact AES128_inverse.Cipher_block.
  - exact AES128_inverse.InvCipher_Cipher.
Qed.

(** ** C strings *)

Lemma c_str_no_NUL s : no_NUL (c_str s).
Proof.
  induction s as [|c s IH]; simpl; [constructor|].
  destruct (Ascii.eqb c NUL) eqn:E; [constructor|].
  constructor; [|assumption]. apply Ascii.eqb_neq. assumption.
Qed.

Lemma c_str_id s : no_NUL s -> c_str s = s.
Proof.
  induction 1 as [|c s Hc _ IH]; simpl; [reflexivity|].
  apply Ascii.eqb_neq in Hc. rewrite Hc, IH. reflexivity.
Qed.

Lemma c_str_app_NUL pre rest : no_NUL pre -> c_str (pre ++ NUL :: rest) = pre.
Proof.
  induction 1 as [|c s Hc _ IH]; simpl; [reflexivity|].
  apply Ascii.eqb_neq in Hc. rewrite Hc, IH. reflexivity.
Qed.

Lemma no_NUL_app a b : no_NUL a -> no_NUL b -> no_NUL (a ++ b).
Proof. intros Ha Hb. apply Forall_app. split; assumption. Qed.

Lemma c_str_firstn s (k : nat) :
  (k <= List.length (c_str s))%nat -> firstn k s = firstn k (c_str s).
Proof.
  revert k. induction s as [|c s IH]; intros k Hk; simpl in *.
  - reflexivity.
  - destruct (Ascii.eqb c NUL).
    + simpl in Hk. replace k with 0%nat by lia. reflexivity.
    + destruct k; [reflexivity|]. simpl in *. rewrite IH by lia. reflexivity.
Qed.

Lemma length_c_str s : (List.length (c_str s) <= List.length s)%nat.
Proof.
  induction s as [|c s IH]; simpl; [lia|].
  destruct (Ascii.eqb c NUL); simpl; lia.
Qed.

(** [buf[k] = c; buf[k + 1] = '\0'] after [k] characters of text. *)
Lemma write_char (buf : list ascii) (k : nat) (c : ascii) :
  (k + 2 <= List.length buf)%nat -> (k <= List.length (c_str buf))%nat -> c <> NUL ->
  c_str (poke (poke buf (Z.of_nat k) [c]) (Z.of_nat k + 1) [NUL])
  = firstn k (c_str buf) ++ [c]
  /\ List.length (poke (poke buf (Z.of_nat k) [c]) (Z.of_nat k + 1) [NUL])
     = List.length buf.
Proof.
  intros Hlen Hk Hc. split; [|rewrite !length_poke; reflexivity].
  rewrite <- (firstn_skipn k buf) at 1.
  assert (Hpre : List.length (firstn k buf) = k) by (rewrite length_firstn; lia).
  destruct (skipn k buf) as [|x [|y rest]] eqn:E;
    try (apply (f_equal (@List.length _)) in E; rewrite length_skipn in E; simpl in E; lia).
  rewrite poke_at by (simpl; unfold len; lia). cbn [List.length skipn app].
  replace (firstn k buf ++ c :: y :: rest) with ((firstn k buf ++ [c]) ++ y :: rest)
    by (rewrite <- app_assoc; reflexivity).
  rewrite poke_at by (simpl; unfold len; rewrite ?length_app; simpl; lia).
  cbn [List.length skipn app].
  rewrite c_str_app_NUL.
  - rewrite c_str_firstn by assumption. reflexivity.
  - apply no_NUL_app; [|repeat constructor; assumption].
    rewrite c_str_firstn by assumption. apply Forall_firstn, c_str_no_NUL.
Qed.

(** [buf[k] = '\0'] inside the text. *)
Lemma write_NUL (buf : list ascii) (k : nat) :
  (k < List.length buf)%nat -> (k <= List.length (c_str buf))%nat ->
  c_str (poke buf (Z.of_nat k) [NUL]) = firstn k (c_str buf)
  /\ List.length (poke buf (Z.of_nat k) [NUL]) = List.length buf.
Proof.
  intros Hlen Hk. split; [|rewrite length_poke; reflexivity].
  rewrite <- (firstn_skipn k buf) at 1.
  assert (Hpre : List.length (firstn k buf) = k) by (rewrite length_firstn; lia).
  destruct (skipn k buf) as [|x rest] eqn:E;
    try (apply (f_equal (@List.length _)) in E; rewrite length_skipn in E; simpl in E; lia).
  rewrite poke_at by (simpl; unfold len; lia). cbn [List.length skipn app].
  rewrite c_str_app_NUL.
  - apply c_str_firstn. assumption.
  - rewrite c_str_firstn by assumption. apply Forall_firstn, c_str_no_NUL.
Qed.

Lemma store_run {A : Type} (a : list A) i v :
  0 <= i < len a -> store a i v = ret (poke a i [v]).
Proof.
  intros H. unfold store. rewrite check_ok by lia. reflexivity.
Qed.

Lemma c_str_poke_0 (buf : list ascii) : c_str (poke buf 0 [NUL]) = [].
Proof.
  destruct buf as [|x buf]; [reflexivity|].
  change (x :: buf) with ([] ++ x :: buf). rewrite poke_at by (simpl; auto with arith).
  reflexivity.
Qed.

(** ** The T9 table *)

Lemma getT9Char_no_NUL k i :
  0 <= k < 16 -> is_byte i -> getT9Char k i <> NUL.
Proof.
  intros Hk Hi. apply Ascii.eqb_neq.
  assert (H : forallb (fun k => forallb (fun i => negb (Ascii.eqb (getT9Char k i) NUL))
                                  all_bytes) (map Z.of_nat (seq 0 16)) = true)
    by (vm_compute; reflexivity).
  rewrite forallb_forall in H.
  specialize (H k). apply negb_true_iff.
  apply (byte_cases (fun i => negb (Ascii.eqb (getT9Char k i) NUL))); [|assumption].
  apply H. apply in_map_iff. exists (Z.to_nat k). split; [lia|]. apply in_seq. lia.
Qed.

Ltac app_simpl :=
  unfold typed in *;
  cbn [currentScreen encryptionEnabled bleConnected bleInitialized t9CharIndex
       lastKeyPressed lastKeyTime messageBuffer messageLen monitorMsgCount lv_screen
       ui_lora_log ui_lora_input ui_monitor_log ui_monitor_status ui_bt_log
       ui_bt_status Serial Serial2
       set_currentScreen set_encryptionEnabled set_t9CharIndex set_lastKeyPressed
       set_lastKeyTime set_messageBuffer set_messageLen set_monitorMsgCount
       set_lv_screen set_ui_lora_log set_ui_lora_input set_ui_monitor_log
       set_ui_monitor_status set_ui_bt_log set_ui_bt_status set_Serial set_Serial2
       switchScreen fst snd value trace] in *.

Ltac destruct_app st :=
  destruct st as [cs enc blc bli ci lk lt buf mlen cnt scr llog lin mlog mstat
                    btlog btstat ser ser2].

Lemma not_special k :
  isSpecialKey k = false -> (k =? 7) = false /\ (k =? 11) = false /\ (k =? 15) = false.
Proof.
  unfold isSpecialKey. intros H.
  apply orb_false_iff in H. destruct H as [H H15].
  apply orb_false_iff in H. destruct H as [H H11].
  apply orb_false_iff in H. destruct H as [_ H7]. auto.
Qed.

Section Keys.

Context {aes128 : BlockCipher}.
Variable stray : Z -> Z.

(** A press of a character key on the LoRa screen. *)
Lemma t9_press st k now :
  buffer_ok st -> 0 <= k < 16 -> isSpecialKey k = false ->
  let cycle := (k =? lastKeyPressed st)
               && (uint32_t (now - lastKeyTime st) <? T9_TIMEOUT) in
  cycle = true \/ messageLen st < 126 ->
  let idx := if cycle then uint8_t (t9CharIndex st + 1) else 0 in
  let base := if cycle then removelast (typed st) else typed st in
  exists st',
    processLoRaKey stray k now st = ret st'
    /\ typed st' = base ++ [getT9Char k idx]
    /\ ui_lora_input st' = typed st'
    /\ t9CharIndex st' = idx
    /\ lastKeyPressed st' = k
    /\ lastKeyTime st' = now
    /\ buffer_ok st'
    /\ currentScreen st' = currentScreen st.
Proof.
  destruct st as [cs enc blc bli ci lk lt buf mlen cnt scr llog lin mlog mstat
                    btlog btstat ser ser2].
  unfold buffer_ok. cbv zeta. app_simpl. intros (Hbuf & Hmlen & Hstr) Hk Hsp.
  set (cycle := (k =? lk) && (uint32_t (now - lt) <? T9_TIMEOUT)).
  set (idx := if cycle then uint8_t (ci + 1) else 0).
  set (base := if cycle then removelast (c_str buf) else c_str buf).
  intros Hroom.
  destruct (not_special k Hsp) as (H7 & H11 & H15).
  unfold processLoRaKey. rewrite H7, H11, H15, Hsp. cbn [negb]. app_simpl.
  fold cycle.
  assert (Hidx : is_byte idx)
    by (unfold idx; destruct cycle; [apply uint8_t_byte | unfold is_byte; lia]).
  pose proof (getT9Char_no_NUL k idx Hk Hidx) as Hc.
  pose (n := if cycle then (if mlen >? 0 then mlen - 1 else mlen) else mlen).
  assert (Hgt : (mlen >? 0) = true /\ 0 < mlen \/ (mlen >? 0) = false /\ mlen = 0).
  { destruct (mlen >? 0) eqn:E; rewrite Z.gtb_ltb in E;
      [apply Z.ltb_lt in E | apply Z.ltb_ge in E]; [left | right]; split; auto; lia. }
  assert (Hn : 0 <= n < 126).
  { unfold n. destruct cycle.
    - destruct Hgt as [[-> ?]|[-> ?]]; lia.
    - destruct Hroom; [discriminate | lia]. }
  assert (Hbase : base = firstn (Z.to_nat n) (c_str buf)).
  { unfold base, n. destruct cycle.
    - rewrite removelast_firstn_len. f_equal. unfold len in Hstr.
      destruct Hgt as [[-> ?]|[-> ?]]; lia.
    - rewrite firstn_all2; [reflexivity | unfold len in Hstr; lia]. }
  assert (Hnle : (Z.to_nat n <= List.length (c_str buf))%nat).
  { unfold len in Hstr. unfold n. destruct cycle; [|lia].
    destruct Hgt as [[-> ?]|[-> ?]]; lia. }
  destruct (write_char buf (Z.to_nat n) (getT9Char k idx)) as [Hw Hwl];
    [lia | assumption | assumption |].
  rewrite Z2Nat.id in Hw, Hwl by lia.
  exists (mkApp cs enc blc bli idx k now
            (poke (poke buf n [getT9Char k idx]) (n + 1) [NUL]) (n + 1) cnt scr llog
            (c_str (poke (poke buf n [getT9Char k idx]) (n + 1) [NUL]))
            mlog mstat btlog btstat ser ser2).
  app_simpl.
  split; [|split; [|split; [|split; [|split; [|split; [|split]]]]]];
    try reflexivity.
  - apply Ascii.eqb_neq in Hc. fold idx. 
    destruct cycle; app_simpl.
    + destruct Hgt as [[E ?]|[E ?]]; rewrite E; app_simpl.
      * rewrite (uint8_t_id (mlen - 1)) by (unfold is_byte; lia).
        fold idx. rewrite Hc. cbn [negb andb].
        replace (mlen - 1 <? 126) with true by (symmetry; apply Z.ltb_lt; lia).
        rewrite store_run by (unfold len; lia). rewrite bind_ret_run. app_simpl.
        rewrite (uint8_t_id (mlen - 1 + 1)) by (unfold is_byte; lia).
        rewrite store_run by (unfold len; rewrite length_poke; lia).
        rewrite !bind_ret_run. app_simpl. unfold n. rewrite E. reflexivity.
      * fold idx. rewrite Hc. cbn [negb andb].
        replace (mlen <? 126) with true by (symmetry; apply Z.ltb_lt; lia).
        rewrite store_run by (unfold len; lia). rewrite bind_ret_run. app_simpl.
        rewrite (uint8_t_id (mlen + 1)) by (unfold is_byte; lia).
        rewrite store_run by (unfold len; rewrite length_poke; lia).
        rewrite !bind_ret_run. app_simpl. unfold n. rewrite E. reflexivity.
    + fold idx. rewrite Hc. cbn [negb andb].
      replace (mlen <? 126) with true
        by (symmetry; apply Z.ltb_lt; destruct Hroom; [discriminate | lia]).
      rewrite store_run by (unfold len; lia). rewrite bind_ret_run. app_simpl.
      rewrite (uint8_t_id (mlen + 1)) by (unfold is_byte; lia).
      rewrite store_run by (unfold len; rewrite length_poke; lia).
      rewrite !bind_ret_run. app_simpl. reflexivity.
  - fold base. rewrite Hbase. exact Hw.
  - unfold buffer_ok. app_simpl. split; [congruence|]. split; [lia|].
    rewrite Hw. unfold len. rewrite length_app, length_firstn. simpl. lia.
Qed.

(** The message buffer stays a C string of [messageLen] characters under
    every key, on every screen. *)
Lemma buffer_ok_boot : buffer_ok boot.
Proof. unfold buffer_ok. repeat split; vm_compute; congruence. Qed.

Lemma buffer_ok_cleared (buf : list ascii) :
  List.length buf = 128%nat ->
  List.length (poke buf 0 [NUL]) = 128%nat
  /\ 0 <= 0 <= 126
  /\ len (c_str (poke buf 0 [NUL])) = 0.
Proof.
  intros H. rewrite length_poke, c_str_poke_0. repeat split; auto; lia.
Qed.

Lemma buffer_ok_processLoRaKey st k now :
  buffer_ok st -> 0 <= k < 16 -> buffer_ok (value (processLoRaKey stray k now st)).
Proof.
  intros Hok Hk.
  destruct (isSpecialKey k) eqn:Hsp.
  - destruct_app st. unfold buffer_ok in *. app_simpl. destruct Hok as (Hbuf & Hmlen & Hstr).
    unfold processLoRaKey. app_simpl.
    destruct (k =? 7) eqn:H7.
    { unfold store, bind, value, ret. app_simpl. apply buffer_ok_cleared, Hbuf. }
    destruct (k =? 11) eqn:H11.
    { destruct (mlen >? 0); [|app_simpl; auto].
      destruct enc; unfold store, bind, value, ret; app_simpl;
        apply buffer_ok_cleared, Hbuf. }
    destruct (k =? 15) eqn:H15; [|rewrite Hsp; app_simpl; auto].
    destruct (mlen >? 0) eqn:E; unfold store, bind, value, ret; app_simpl; [|auto].
    rewrite Z.gtb_ltb in E. apply Z.ltb_lt in E.
    rewrite (uint8_t_id (mlen - 1)) by (unfold is_byte; lia).
    destruct (write_NUL buf (Z.to_nat (mlen - 1))) as [Hw Hwl];
      [lia | unfold len in Hstr; lia |].
    rewrite Z2Nat.id in Hw, Hwl by lia.
    rewrite Hw, Hwl. split; [assumption|]. split; [lia|].
    unfold len in *. rewrite length_firstn. lia.
  - pose (cycle := (k =? lastKeyPressed st)
                   && (uint32_t (now - lastKeyTime st) <? T9_TIMEOUT)).
    destruct (Z_lt_ge_dec (messageLen st) 126) as [Hroom|Hfull].
    + destruct (t9_press st k now Hok Hk Hsp) as (st' & R & _ & _ & _ & _ & _ & O & _);
        [right; assumption|]. rewrite R. exact O.
    + destruct cycle eqn:Hc.
      * destruct (t9_press st k now Hok Hk Hsp) as (st' & R & _ & _ & _ & _ & _ & O & _);
          [left; exact Hc|]. rewrite R. exact O.
      * destruct (not_special k Hsp) as (H7 & H11 & H15). unfold cycle in Hc.
        destruct_app st. unfold buffer_ok in *. app_simpl.
        unfold processLoRaKey. rewrite H7, H11, H15, Hsp. cbn [negb]. app_simpl.
        rewrite Hc. app_simpl.
        replace (mlen <? 126) with false by (symmetry; apply Z.ltb_ge; lia).
        rewrite andb_false_r. unfold bind, value, ret. app_simpl. exact Hok.
Qed.

Lemma buffer_ok_handleKeyPress st k now :
  buffer_ok st -> 0 <= k < 16 -> buffer_ok (value (handleKeyPress stray k now st)).
Proof.
  intros Hok Hk. unfold handleKeyPress.
  destruct (currentScreen st) eqn:Hs.
  - destruct_app st. unfold buffer_ok in *. app_simpl. unfold processMenuKey.
    repeat match goal with
           | |- context [if ?b then _ else _] => destruct b
           end; app_simpl; try exact Hok.
    destruct bli, blc; app_simpl; exact Hok.
  - apply buffer_ok_processLoRaKey; assumption.
  - destruct_app st. unfold buffer_ok in *. app_simpl. unfold processMonitorKey.
    repeat match goal with
           | |- context [if ?b then _ else _] => destruct b
           end; app_simpl; exact Hok.
  - destruct_app st. unfold buffer_ok in *. app_simpl. unfold processBluetoothKey.
    repeat match goal with
           | |- context [if ?b then _ else _] => destruct b
           end; app_simpl; exact Hok.
  - destruct_app st. unfold buffer_ok in *. app_simpl. unfold processBatteryKey.
    repeat match goal with
           | |- context [if ?b then _ else _] => destruct b
           end; app_simpl; exact Hok.
  - exact Hok.
Qed.

Lemma value_ret {A : Type} (a : A) : value (ret a) = a.
Proof. reflexivity. Qed.

End Keys.

Lemma cipher_calls_repeat {A : Type} (m : M A) n :
  trace m = repeat CipherCall n -> cipher_calls m = n /\ memory_safe m = true.
Proof.
  intros H. unfold cipher_calls, memory_safe. rewrite H. clear H.
  induction n as [|n [IH1 IH2]]; simpl; auto.
Qed.

(** The round trip of the codec as it runs on the device, with AES-128. *)
Corollary decryptMessage_encryptMessage_AES128 (stray stray' : Z -> Z) (P : ArduinoString) :
  len P <= 239 ->
  value (decryptMessage (aes128 := AES128_cipher) stray'
           (value (encryptMessage (aes128 := AES128_cipher) stray P))) = P.
Proof.
  intros HL. rewrite (decryptMessage_encryptMessage (laws := AES128_laws)) by assumption.
  reflexivity.
Qed.

(** ** Comparing voltages *)

(** A number that is below another one is not at or above it. *)
Lemma SFltb_not_leb x y : SFltb x y = true -> SFleb y x = false.
Proof.
  unfold SFltb, SFleb.
  destruct x as [sx|sx| |sx mx ex], y as [sy|sy| |sy my ey]; cbn [SFcompare];
    try discriminate; try (destruct sx, sy; (discriminate || reflexivity));
    try (destruct sx; (discriminate || reflexivity));
    try (destruct sy; (discriminate || reflexivity)).
  change (Pos.compare_cont Eq mx my) with (Pos.compare mx my).
  change (Pos.compare_cont Eq my mx) with (Pos.compare my mx).
  rewrite (Z.compare_antisym ex ey), (Pos.compare_antisym mx my).
  destruct sx, sy, (ex ?= ey), (mx ?= my)%positive; cbn [CompOpp];
    (discriminate || reflexivity).
Qed.

(** * The properties of the specification *)

(** C1: for every plaintext of at most 200 bytes the ciphertext is the hex
    encoding of the ECB encryption, under the fixed key, of the PKCS7-padded
    plaintext, and decoding it returns the plaintext exactly; neither run
    leaves its buffers. *)
Theorem C1_roundtrip {aes128 : BlockCipher} {laws : BlockCipherLaws aes128}
    (stray stray' : Z -> Z) (P : ArduinoString) :
  len P <= 200 ->
  value (encryptMessage stray P)
  = hex_encode (ecb (encryptBlock AES_KEY) (blocks P) (pkcs7_pad P))
  /\ (len P mod 16 = 0 -> List.length (pkcs7_pad P) = (List.length P + 16)%nat)
  /\ value (decryptMessage stray' (value (encryptMessage stray P))) = P
  /\ memory_safe (encryptMessage stray P) = true
  /\ memory_safe (decryptMessage stray' (value (encryptMessage stray P))) = true.
Proof.
  intros HL.
  assert (HL' : len P <= 239) by lia.
  pose proof (encryptMessage_run stray P HL') as He.
  pose proof (decryptMessage_encryptMessage stray stray' P HL') as Hd.
  split; [rewrite He; reflexivity|].
  split.
  { intros H16. unfold pkcs7_pad. rewrite length_app, length_map, repeat_length, H16.
    simpl. lia. }
  split; [rewrite Hd; reflexivity|].
  split.
  - apply (cipher_calls_repeat _ (blocks P)). rewrite He. reflexivity.
  - apply (cipher_calls_repeat _ (blocks P)). rewrite Hd. reflexivity.
Qed.

Lemma C1_roundtrip_witness :
  len (lit "HELLO LORA") <= 200
  /\ value (decryptMessage (aes128 := AES128_cipher) (fun _ => 0)
              (value (encryptMessage (aes128 := AES128_cipher) (fun _ => 0)
                        (lit "HELLO LORA"))))
     = lit "HELLO LORA".
Proof.
  assert (H : len (lit "HELLO LORA") <= 200) by (vm_compute; discriminate).
  split; [exact H|].
  exact (proj1 (proj2 (proj2
           (C1_roundtrip (laws := AES128_laws) (fun _ => 0) (fun _ => 0) _ H)))).
Defined.

(** C2: a plaintext of 240 bytes (a multiple of 16) is one that
    [encryptMessage] can be handed; the 8-bit padded length is 0 rather than
    256, the hex string returned is empty and both library calls write
    outside the allocation. *)
Theorem C2_padding_at_240 {aes128 : BlockCipher} (stray : Z -> Z) :
  len (repeat "A"%char 240) mod 16 = 0
  /\ uint8_t (len (repeat "A"%char 240)
              + uint8_t (16 - len (repeat "A"%char 240) mod 16)) = 0
  /\ value (encryptMessage stray (repeat "A"%char 240)) = []
  /\ memory_safe (encryptMessage stray (repeat "A"%char 240)) = false.
Proof.
  assert (H : 240 <= len (repeat "A"%char 240) <= 255) by (rewrite len_repeat; lia).
  pose proof (encryptMessage_wrapped stray _ H) as Hrun.
  destruct (inputLen_wraps (repeat "A"%char 240)) as [_ H0]; [lia|].
  split; [rewrite len_repeat; reflexivity|].
  split; [apply H0; lia|].
  split; rewrite Hrun; reflexivity.
Qed.

(** C3: on the LoRa screen the Back key empties the message buffer and the
    input field and loads the menu, and it leaves the multi-tap session as
    it was (the Delete key resets it).  Run from the start: "2" typed on the
    LoRa screen, Back, LoRa again, "2" within the second: the text is "B". *)
Theorem C3_back_keeps_session {aes128 : BlockCipher} (stray : Z -> Z) :
  (forall st now,
      let st' := value (processLoRaKey stray 7 now st) in
      messageLen st' = 0 /\ typed st' = [] /\ ui_lora_input st' = []
      /\ currentScreen st' = SCREEN_MENU
      /\ lastKeyPressed st' = lastKeyPressed st
      /\ t9CharIndex st' = t9CharIndex st
      /\ lastKeyTime st' = lastKeyTime st)
  /\ (forall st now,
         let st' := value (processLoRaKey stray 15 now st) in
         lastKeyPressed st' = 255 /\ t9CharIndex st' = 0)
  /\ (let s1 := value (handleKeyPress stray 0 0 boot) in
      let s2 := value (handleKeyPress stray 1 1000 s1) in
      let s3 := value (handleKeyPress stray 7 1200 s2) in
      let s4 := value (handleKeyPress stray 0 1400 s3) in
      let s5 := value (handleKeyPress stray 1 1600 s4) in
      typed s2 = lit "A" /\ typed s3 = []
      /\ lastKeyPressed s3 = 1 /\ currentScreen s4 = SCREEN_LORA
      /\ typed s5 = lit "B").
Proof.
  split; [|split].
  - intros st now. destruct_app st. cbv zeta. unfold processLoRaKey.
    cbn [Z.eqb Pos.eqb]. unfold store, bind, value, ret. app_simpl.
    rewrite c_str_poke_0. repeat split.
  - intros st now. destruct_app st. cbv zeta. unfold processLoRaKey.
    cbn [Z.eqb Pos.eqb]. unfold bind, value, ret. app_simpl. repeat split.
  - vm_compute. repeat split.
Qed.

(** C4, as amended: on the LoRa screen, while the text has fewer than 126
    characters, the key "2" (index 1), pressed again and again with less
    than 1000 ms between presses, leaves 'A', then 'B', then 'C', then '2',
    then 'A' again at the end of the text, each replacing the one before;
    and a character key pressed after the timeout, or after another key,
    adds its first glyph at cycle index 0 and keeps what was typed. *)
Theorem C4_multitap {aes128 : BlockCipher} (stray : Z -> Z) :
  (forall st t1 t2 t3 t4 t5,
      buffer_ok st -> messageLen st < 126 ->
      lastKeyPressed st <> 1 \/ T9_TIMEOUT <= uint32_t (t1 - lastKeyTime st) ->
      uint32_t (t2 - t1) < T9_TIMEOUT ->
      uint32_t (t3 - t2) < T9_TIMEOUT ->
      uint32_t (t4 - t3) < T9_TIMEOUT ->
      uint32_t (t5 - t4) < T9_TIMEOUT ->
      let s1 := value (processLoRaKey stray 1 t1 st) in
      let s2 := value (processLoRaKey stray 1 t2 s1) in
      let s3 := value (processLoRaKey stray 1 t3 s2) in
      let s4 := value (processLoRaKey stray 1 t4 s3) in
      let s5 := value (processLoRaKey stray 1 t5 s4) in
      (typed s1 = typed st ++ lit "A" /\ t9CharIndex s1 = 0)
      /\ (typed s2 = typed st ++ lit "B" /\ t9CharIndex s2 = 1)
      /\ (typed s3 = typed st ++ lit "C" /\ t9CharIndex s3 = 2)
      /\ (typed s4 = typed st ++ lit "2" /\ t9CharIndex s4 = 3)
      /\ (typed s5 = typed st ++ lit "A" /\ t9CharIndex s5 = 4))
  /\ (forall st k now,
         buffer_ok st -> messageLen st < 126 ->
         0 <= k < 16 -> isSpecialKey k = false ->
         k <> lastKeyPressed st \/ T9_TIMEOUT <= uint32_t (now - lastKeyTime st) ->
         let s' := value (processLoRaKey stray k now st) in
         t9CharIndex s' = 0
         /\ typed s' = typed st ++ [getT9Char k 0]
         /\ getT9Char k 0 <> NUL).
Proof.
  assert (Hfresh : forall st k now,
             k <> lastKeyPressed st \/ T9_TIMEOUT <= uint32_t (now - lastKeyTime st) ->
             (k =? lastKeyPressed st) && (uint32_t (now - lastKeyTime st) <? T9_TIMEOUT)
             = false).
  { intros st k now [H|H].
    - apply Z.eqb_neq in H. rewrite H. reflexivity.
    - apply Z.ltb_ge in H. rewrite H. apply andb_false_r. }
  assert (Hcycle : forall st now t,
             lastKeyPressed st = 1 -> lastKeyTime st = t -> uint32_t (now - t) < T9_TIMEOUT ->
             (1 =? lastKeyPressed st) && (uint32_t (now - lastKeyTime st) <? T9_TIMEOUT)
             = true).
  { intros st now t -> -> H. apply Z.ltb_lt in H. rewrite H. reflexivity. }
  split.
  - intros st t1 t2 t3 t4 t5 Hok Hlen H1 H2 H3 H4 H5.
    destruct (t9_press stray st 1 t1 Hok) as (s1 & R1 & T1 & _ & I1 & K1 & L1 & O1 & _);
      [lia | reflexivity | right; assumption |].
    rewrite (Hfresh st 1 t1) in T1, I1
      by (destruct H1; [left; congruence | right; assumption]).
    destruct (t9_press stray s1 1 t2 O1) as (s2 & R2 & T2 & _ & I2 & K2 & L2 & O2 & _);
      [lia | reflexivity | left; eapply Hcycle; eauto |].
    rewrite (Hcycle s1 t2 t1) in T2, I2 by assumption.
    destruct (t9_press stray s2 1 t3 O2) as (s3 & R3 & T3 & _ & I3 & K3 & L3 & O3 & _);
      [lia | reflexivity | left; eapply Hcycle; eauto |].
    rewrite (Hcycle s2 t3 t2) in T3, I3 by assumption.
    destruct (t9_press stray s3 1 t4 O3) as (s4 & R4 & T4 & _ & I4 & K4 & L4 & O4 & _);
      [lia | reflexivity | left; eapply Hcycle; eauto |].
    rewrite (Hcycle s3 t4 t3) in T4, I4 by assumption.
    destruct (t9_press stray s4 1 t5 O4) as (s5 & R5 & T5 & _ & I5 & K5 & L5 & O5 & _);
      [lia | reflexivity | left; eapply Hcycle; eauto |].
    rewrite (Hcycle s4 t5 t4) in T5, I5 by assumption.
    cbv zeta. rewrite R1, value_ret, R2, value_ret, R3, value_ret, R4, value_ret.
    rewrite R5, value_ret.
    rewrite I1 in *. rewrite I2 in *. rewrite I3 in *. rewrite I4 in *.
    rewrite T1 in T2. rewrite removelast_last in T2.
    rewrite T2 in T3. rewrite removelast_last in T3.
    rewrite T3 in T4. rewrite removelast_last in T4.
    rewrite T4 in T5. rewrite removelast_last in T5.
    repeat split; assumption.
  - intros st k now Hok Hlen Hk Hsp Hnew.
    destruct (t9_press stray st k now Hok Hk Hsp) as (s' & R & T & _ & I & _);
      [right; assumption |].
    rewrite (Hfresh st k now Hnew) in T, I.
    cbv zeta. rewrite R, value_ret. repeat split; try assumption.
    apply getT9Char_no_NUL; [assumption | unfold is_byte; lia].
Qed.

Lemma C4_multitap_witness :
  typed
    (value (processLoRaKey (aes128 := AES128_cipher) (fun _ => 0) 1 1300
      (value (processLoRaKey (aes128 := AES128_cipher) (fun _ => 0) 1 1200
        (value (processLoRaKey (aes128 := AES128_cipher) (fun _ => 0) 1 1100
          (value (processLoRaKey (aes128 := AES128_cipher) (fun _ => 0) 1 1000
                    boot))))))))
  = lit "2".
Proof.
  refine (proj1 (proj1 (proj2 (proj2 (proj2
           (proj1 (C4_multitap (aes128 := AES128_cipher) (fun _ => 0))
              boot 1000 1100 1200 1300 1400 _ _ _ _ _ _ _)))))).
  - unfold buffer_ok. repeat split; vm_compute; try reflexivity; discriminate.
  - vm_compute. reflexivity.
  - left. vm_compute. discriminate.
  - vm_compute. reflexivity.
  - vm_compute. reflexivity.
  - vm_compute. reflexivity.
  - vm_compute. reflexivity.
Defined.

(** C4 as stated fails when the buffer is full.  After 126 characters, each
    typed two seconds after the one before, the key "2" adds no 'A', and
    pressed again within the second it puts 'B' in the place of the last
    character of the text that was there. *)
Lemma C4_counterexample :
  let press k now st :=
    value (processLoRaKey (aes128 := AES128_cipher) (fun _ => 0) k now st) in
  let full := fold_left (fun st i => press 2 (2000 * Z.of_nat i) st) (seq 1 126) boot in
  let s1 := press 1 300000 full in
  let s2 := press 1 300100 s1 in
  buffer_ok full
  /\ typed full = repeat "D"%char 126
  /\ lastKeyPressed full <> 1
  /\ uint32_t (300100 - 300000) < T9_TIMEOUT
  /\ typed s1 = typed full
  /\ typed s1 <> typed full ++ lit "A"
  /\ typed s2 = repeat "D"%char 125 ++ lit "B"
  /\ typed s2 <> typed full ++ lit "B".
Proof.
  cbv zeta. unfold buffer_ok.
  repeat match goal with |- _ /\ _ => split end;
    vm_compute; try reflexivity; discriminate.
Qed.

(** C5: on the LoRa screen the Send key, with a non-empty buffer, writes to
    the radio the encryption of the text when encryption is enabled and the
    text itself otherwise, appends the plaintext to the log and empties the
    buffer; with an empty buffer it changes nothing. *)
Theorem C5_send {aes128 : BlockCipher} (stray : Z -> Z) :
  (forall st now,
      0 < messageLen st ->
      let st' := value (processLoRaKey stray 11 now st) in
      Serial2 st'
      = println (Serial2 st)
          (if encryptionEnabled st then value (encryptMessage stray (typed st))
           else typed st)
      /\ ui_lora_log st' = ui_lora_log st ++ lit "> " ++ typed st ++ newline
      /\ messageLen st' = 0 /\ typed st' = [] /\ ui_lora_input st' = []
      /\ currentScreen st' = currentScreen st)
  /\ (forall st now, messageLen st <= 0 -> processLoRaKey stray 11 now st = ret st).
Proof.
  split.
  - intros st now Hlen. destruct_app st. cbv zeta. unfold processLoRaKey.
    cbn [Z.eqb Pos.eqb]. app_simpl.
    replace (mlen >? 0) with true by (symmetry; rewrite Z.gtb_ltb; apply Z.ltb_lt; lia).
    assert (Hlog : c_str (lit "> " ++ c_str buf ++ newline)
                   = lit "> " ++ c_str buf ++ newline).
    { apply c_str_id. apply no_NUL_app; [|apply no_NUL_app].
      - repeat constructor; discriminate.
      - apply c_str_no_NUL.
      - repeat constructor; discriminate. }
    unfold lv_textarea_add_text. rewrite Hlog.
    destruct enc; unfold store, bind, value, ret; app_simpl;
      rewrite c_str_poke_0; repeat split.
  - intros st now Hlen. unfold processLoRaKey. cbn [Z.eqb Pos.eqb].
    replace (messageLen st >? 0) with false
      by (symmetry; rewrite Z.gtb_ltb; apply Z.ltb_ge; lia).
    reflexivity.
Qed.

Lemma C5_send_witness :
  ui_lora_log
    (value (processLoRaKey (aes128 := AES128_cipher) (fun _ => 0) 11 2000
              (value (processLoRaKey (aes128 := AES128_cipher) (fun _ => 0) 1 1000 boot))))
  = lit "> A" ++ newline.
Proof.
  refine (proj1 (proj2
            (proj1 (C5_send (aes128 := AES128_cipher) (fun _ => 0))
               (value (processLoRaKey (aes128 := AES128_cipher) (fun _ => 0) 1 1000 boot))
               2000 _))).
  vm_compute. reflexivity.
Defined.

(** C6, as amended: [decryptMessage] returns the [[ERRO DECRYPT]] marker
    without calling the cipher or touching a buffer when the length of its
    input is not a multiple of 32.  Past the length check a run calls the
    cipher once per block of its 8-bit byte count and, with a count of 0,
    reads the padding byte: it is never the run of the length error.  It
    returns the bytes decoded from the hex pairs, decrypted block by block,
    without their padding; that text may spell the marker. *)
Theorem C6_format_error {aes128 : BlockCipher} (stray : Z -> Z) (s : ArduinoString) :
  (len s mod 32 <> 0 -> decryptMessage stray s = (lit "[ERRO DECRYPT]", []))
  /\ (len s mod 32 = 0 ->
      let n := Z.to_nat (uint8_t (len s / 2) / 16) in
      trace (decryptMessage stray s)
      = repeat CipherCall n
          ++ (if uint8_t (len s / 2) =? 0 then [OutOfBounds (-1) 1 0] else [])
      /\ trace (decryptMessage stray s) <> []
      /\ decryptMessage stray s <> (lit "[ERRO DECRYPT]", [])
      /\ (blocks_ok (decryptBlock AES_KEY) n (cipher_bytes s) ->
          value (decryptMessage stray s)
          = map char_of_byte
              (strip_padding (ecb (decryptBlock AES_KEY) n (cipher_bytes s))))).
Proof.
  split; [apply decryptMessage_reject|].
  intros H32 n. pose proof (decryptMessage_run stray s H32) as Hrun. cbv zeta in Hrun.
  destruct Hrun as (_ & _ & _ & Hrun).
  destruct (cipherLen_blocks (len s) (len_nonneg s) H32) as (Hc & H16 & _).
  assert (Ht : trace (decryptMessage stray s) <> []).
  { rewrite Hrun. unfold trace. cbn [snd].
    destruct (uint8_t (len s / 2) =? 0) eqn:E.
    - intros Habs. apply app_eq_nil in Habs. destruct Habs as [_ Habs]. discriminate.
    - apply Z.eqb_neq in E.
      assert (Hn : (0 < Z.to_nat (uint8_t (len s / 2) / 16))%nat) by lia.
      destruct (Z.to_nat (uint8_t (len s / 2) / 16)); [lia|]. discriminate. }
  split; [rewrite Hrun; reflexivity|].
  split; [assumption|].
  split; [intros Habs; apply Ht; rewrite Habs; reflexivity|].
  apply decryptMessage_value. assumption.
Qed.

Lemma C6_format_error_witness :
  decryptMessage (aes128 := AES128_cipher) (fun _ => 0) (lit "0123456789ABCDEF0")
  = (lit "[ERRO DECRYPT]", [])
  /\ value (decryptMessage (aes128 := AES128_cipher) (fun _ => 0)
              (lit "71409905A38EEDC9FDEEEDEB71C8B182"))
     = lit "OLA".
Proof.
  split.
  - apply (proj1 (C6_format_error (aes128 := AES128_cipher) (fun _ => 0) _)).
    vm_compute. discriminate.
  - refine (eq_trans
              (proj2 (proj2 (proj2
                 (proj2 (C6_format_error (aes128 := AES128_cipher) (fun _ => 0) _) _))) _) _).
    + vm_compute. reflexivity.
    + vm_compute. repeat split; repeat constructor; discriminate.
    + vm_compute. reflexivity.
Defined.

(** C6 as stated fails: the marker is an ordinary string, and the 32
    hexadecimal characters that encrypt it are decoded to it. *)
Lemma C6_counterexample :
  len (lit "D74CB606AE29BD8403BBA8D1D1ECF871") mod 32 = 0
  /\ value (decryptMessage (aes128 := AES128_cipher) (fun _ => 0)
              (lit "D74CB606AE29BD8403BBA8D1D1ECF871"))
     = lit "[ERRO DECRYPT]".
Proof. vm_compute. split; reflexivity. Qed.

(** C7, as amended: for a non-empty line the radio-link reader shows the
    decryption of the line when encryption is enabled, the line has at least
    32 characters and all of them are hexadecimal digits, and the line itself
    otherwise.  The entry ["< " + text + "\n"] goes to the LoRa log and to
    the monitor log as a C string: whole when the text holds no NUL, and up
    to the first NUL of the text, without the newline, when it holds one.
    The message count goes up by one, on whatever screen is active. *)
Theorem C7_radio_reader {aes128 : BlockCipher} (stray : Z -> Z)
    (line : ArduinoString) (st : App) :
  line <> [] ->
  let ciphertext := encryptionEnabled st && (32 <=? len line) && forallb isxdigit line in
  let displayMsg := if ciphertext then value (decryptMessage stray line) else line in
  let entry := c_str (lit "< " ++ displayMsg ++ newline) in
  let st' := value (loraTask stray (Some line) st) in
  ui_lora_log st' = ui_lora_log st ++ entry
  /\ ui_monitor_log st' = ui_monitor_log st ++ entry
  /\ monitorMsgCount st' = uint32_t (monitorMsgCount st + 1)
  /\ (0 <= monitorMsgCount st < 4294967295 ->
      monitorMsgCount st' = monitorMsgCount st + 1)
  /\ currentScreen st' = currentScreen st
  /\ (no_NUL displayMsg -> entry = lit "< " ++ displayMsg ++ newline)
  /\ (forall shown rest,
         displayMsg = shown ++ NUL :: rest -> no_NUL shown -> entry = lit "< " ++ shown).
Proof.
  intros Hne. destruct_app st. cbv zeta. unfold loraTask. app_simpl.
  assert (Hlen : (len line >? 0) = true).
  { rewrite Z.gtb_ltb. apply Z.ltb_lt. destruct line; [contradiction|].
    unfold len. simpl. lia. }
  rewrite Hlen. rewrite Z.geb_leb.
  unfold lv_textarea_add_text.
  assert (Hcount : forall m : M ArduinoString,
             monitorMsgCount
               (value (displayMsg <- m ;;
                       ret (set_ui_monitor_status
                              (lit "Escutando... (" ++ decimal (uint32_t (cnt + 1))
                                 ++ lit " msgs)")
                              (set_ui_monitor_log
                                 (mlog ++ c_str (lit "< " ++ displayMsg ++ newline))
                                 (set_monitorMsgCount (uint32_t (cnt + 1))
                                    (set_ui_lora_log
                                       (llog ++ c_str (lit "< " ++ displayMsg ++ newline))
                                       (mkApp cs enc blc bli ci lk lt buf mlen cnt scr llog
                                          lin mlog mstat btlog btstat
                                          (println ser (lit "LoRa RX: " ++ line))
                                          ser2)))))))
             = uint32_t (cnt + 1)) by reflexivity.
  split; [|split; [|split; [|split; [|split; [|split]]]]].
  - destruct enc, (32 <=? len line), (forallb isxdigit line);
      unfold bind, value, ret; app_simpl; reflexivity.
  - destruct enc, (32 <=? len line), (forallb isxdigit line);
      unfold bind, value, ret; app_simpl; reflexivity.
  - apply Hcount.
  - intros Hc. etransitivity; [apply Hcount|]. apply Z.mod_small. lia.
  - destruct enc, (32 <=? len line), (forallb isxdigit line);
      unfold bind, value, ret; app_simpl; reflexivity.
  - intros Hd. apply c_str_id. apply no_NUL_app; [|apply no_NUL_app].
    + repeat constructor; discriminate.
    + assumption.
    + repeat constructor; discriminate.
  - intros shown rest -> Hshown.
    rewrite <- app_assoc. cbn [app].
    change (lit "< " ++ shown ++ NUL :: rest ++ newline)
      with (lit "< " ++ (shown ++ NUL :: (rest ++ newline))).
    rewrite app_assoc. apply c_str_app_NUL. apply no_NUL_app; [|assumption].
    repeat constructor; discriminate.
Qed.

Lemma C7_radio_reader_witness :
  ui_monitor_log
    (value (loraTask (aes128 := AES128_cipher) (fun _ => 0) (Some (lit "PING")) boot))
  = lit "< PING" ++ newline.
Proof.
  refine (proj1 (proj2
            (C7_radio_reader (aes128 := AES128_cipher) (fun _ => 0) (lit "PING") boot _))).
  discriminate.
Defined.

(** C7 as stated fails: of a line that holds a NUL the logs get what comes
    before it, and neither the rest of the line nor the newline. *)
Lemma C7_counterexample :
  let line := ["A"%char; NUL; "B"%char] in
  let st' := value (loraTask (aes128 := AES128_cipher) (fun _ => 0) (Some line) boot) in
  line <> []
  /\ ui_lora_log st' = ui_lora_log boot ++ lit "< A"
  /\ ui_monitor_log st' = ui_monitor_log boot ++ lit "< A"
  /\ ui_lora_log st' <> ui_lora_log boot ++ lit "< " ++ line ++ newline
  /\ ui_monitor_log st' <> ui_monitor_log boot ++ lit "< " ++ line ++ newline.
Proof. vm_compute. repeat split; discriminate. Qed.

(** C8, as amended: every voltage that compares at or above 4.2 in [double]
    maps to 100 and every other one at or below 3.0 to 0, so 5.0 maps to 100
    and 3.0 to 0; a voltage above 3.0 and below 4.2 maps to the integer part
    of [(v - 3.0) / 1.2 * 100] as computed in [double].  4.2 and 3.6 are no
    [float]s: the [float]s nearest to them are below them, are not clamped
    and map to 99 and to 49. *)
Theorem C8_voltage_mapping :
  voltageToPercent (float_tenths 42) = 99
  /\ voltageToPercent (float_tenths 36) = 49
  /\ voltageToPercent (float_tenths 30) = 0
  /\ voltageToPercent (float_tenths 50) = 100
  /\ SFltb (double_of_float (float_tenths 42)) (double_tenths 42) = true
  /\ SFltb (double_of_float (float_tenths 36)) (double_tenths 36) = true
  /\ (forall v, SFleb (double_tenths 42) (double_of_float v) = true ->
                voltageToPercent v = 100)
  /\ (forall v, SFleb (double_tenths 42) (double_of_float v) = false ->
                SFleb (double_of_float v) (double_tenths 30) = true ->
                voltageToPercent v = 0)
  /\ (forall v, SFltb (double_tenths 30) (double_of_float v) = true ->
                SFltb (double_of_float v) (double_tenths 42) = true ->
                voltageToPercent v
                = uint8_t (truncate
                    (SFmul 53 1024
                       (SFdiv 53 1024
                          (SFsub 53 1024 (double_of_float v) (double_tenths 30))
                          (double_tenths 12))
                       (double_of_Z 100)))).
Proof.
  split; [vm_compute; reflexivity|].
  split; [vm_compute; reflexivity|].
  split; [vm_compute; reflexivity|].
  split; [vm_compute; reflexivity|].
  split; [vm_compute; reflexivity|].
  split; [vm_compute; reflexivity|].
  split; [|split].
  - intros v H. unfold voltageToPercent. cbv zeta. rewrite H. reflexivity.
  - intros v H1 H2. unfold voltageToPercent. cbv zeta. rewrite H1, H2. reflexivity.
  - intros v H1 H2. unfold voltageToPercent. cbv zeta.
    rewrite (SFltb_not_leb _ _ H1), (SFltb_not_leb _ _ H2). reflexivity.
Qed.

Lemma C8_voltage_mapping_witness :
  voltageToPercent (float_tenths 45) = 100
  /\ voltageToPercent (float_tenths 25) = 0
  /\ voltageToPercent (float_tenths 39) = 75.
Proof.
  pose proof C8_voltage_mapping as (_ & _ & _ & _ & _ & _ & Hhigh & Hlow & Hmid).
  split; [apply Hhigh; vm_compute; reflexivity|].
  split; [apply Hlow; vm_compute; reflexivity|].
  refine (eq_trans (Hmid _ _ _) _); vm_compute; reflexivity.
Defined.

(** C8 as stated fails: the argument 4.2 reaches [voltageToPercent] as the
    [float] nearest to it, 0x40866666, which maps to 99 and not to 100, and
    3.6 as 0x40666666, which maps to 49 and not to 50. *)
Lemma C8_counterexample :
  float_tenths 42 = S754_finite false 0x866666 (-21)
  /\ voltageToPercent (float_tenths 42) <> 100
  /\ float_tenths 36 = S754_finite false 0xE66666 (-22)
  /\ voltageToPercent (float_tenths 36) <> 50.
Proof. vm_compute. repeat split; discriminate. Qed.

(** C9: the padded length is kept in 8 bits.  For a plaintext of 240 to 255
    bytes it is 0: no block is encrypted, the hex string is empty, and
    [memcpy] and [memset] write outside the zero-length array.  The run stays
    inside its arrays exactly when the plaintext has at most 239 bytes, and
    then the hex string has 32 characters per block, at least one block. *)
Theorem C9_encrypt_length_wraps {aes128 : BlockCipher} (stray : Z -> Z)
    (P : ArduinoString) :
  (240 <= len P <= 255 ->
     uint8_t (len P + uint8_t (16 - len P mod 16)) = 0
     /\ encryptMessage stray P
        = ([], [OutOfBounds 0 (len P) 0; OutOfBounds (len P) (16 - len P mod 16) 0])
     /\ cipher_calls (encryptMessage stray P) = 0%nat)
  /\ (memory_safe (encryptMessage stray P) = true <-> len P <= 239)
  /\ (len P <= 239 ->
      cipher_calls (encryptMessage stray P) = blocks P
      /\ List.length (value (encryptMessage stray P)) = (32 * blocks P)%nat
      /\ (0 < blocks P)%nat).
Proof.
  split; [|split].
  - intros H. pose proof (encryptMessage_wrapped stray P H) as Hrun.
    destruct (inputLen_wraps P) as [_ H0]; [lia|].
    split; [apply H0; lia|]. split; [assumption|]. rewrite Hrun. reflexivity.
  - split.
    + intros Hsafe. destruct (Z_le_gt_dec (len P) 239) as [|Hgt]; [assumption|].
      rewrite encryptMessage_overflow in Hsafe by lia. discriminate.
    + intros HL. destruct (encryptMessage_shape stray P HL) as [Ht _].
      apply (cipher_calls_repeat _ _ Ht).
  - intros HL. destruct (encryptMessage_shape stray P HL) as [Ht Hl].
    split; [apply (cipher_calls_repeat _ _ Ht)|]. split; [assumption|].
    unfold blocks. pose proof (len_nonneg P).
    assert (0 <= len P / 16) by (apply Z.div_pos; lia). lia.
Qed.

Lemma C9_encrypt_length_wraps_witness :
  encryptMessage (aes128 := AES128_cipher) (fun _ => 0) (repeat "A"%char 250)
  = ([], [OutOfBounds 0 250 0; OutOfBounds 250 6 0]).
Proof.
  assert (H : 240 <= len (repeat "A"%char 250) <= 255) by (rewrite len_repeat; lia).
  exact (proj1 (proj2 (proj1
           (C9_encrypt_length_wraps (aes128 := AES128_cipher) (fun _ => 0) _) H))).
Defined.

(** C10, as amended: with the empty string and with 512 characters the 8-bit
    byte count is 0 and the padding byte is read at index -1 of a zero-length
    array; a run reads outside its arrays exactly when the length of the
    input is a multiple of 512.  An input of any other length is either
    turned down by the length check or decoded inside its arrays. *)
Theorem C10_decrypt_bounds {aes128 : BlockCipher} (stray : Z -> Z) (s : ArduinoString) :
  (len s = 0 \/ len s = 512 ->
     uint8_t (len s / 2) = 0
     /\ decryptMessage stray s = ([], [OutOfBounds (-1) 1 0]))
  /\ (memory_safe (decryptMessage stray s) = true <-> len s mod 512 <> 0)
  /\ (len s mod 32 = 0 -> 0 < len s < 512 -> memory_safe (decryptMessage stray s) = true).
Proof.
  assert (Hiff : memory_safe (decryptMessage stray s) = true <-> len s mod 512 <> 0).
  { destruct (Z.eq_dec (len s mod 32) 0) as [H32|H32].
    - pose proof (decryptMessage_run stray s H32) as Hrun. cbv zeta in Hrun.
      destruct Hrun as (_ & _ & _ & Hrun).
      destruct (cipherLen_blocks (len s) (len_nonneg s) H32) as (_ & _ & Hz).
      rewrite (memory_safe_app _ _ _ (f_equal snd Hrun)), cipher_calls_safe.
      destruct (uint8_t (len s / 2) =? 0) eqn:E; cbn.
      + apply Z.eqb_eq in E. apply Hz in E. split; [discriminate | contradiction].
      + apply Z.eqb_neq in E. split; [|reflexivity]. intros _ H. apply E, Hz, H.
    - rewrite decryptMessage_reject by assumption. split; [|reflexivity].
      intros _ H. apply H32.
      pose proof (Z.div_mod (len s) 512). pose proof (Z.div_mod (len s) 32).
      pose proof (Z.mod_pos_bound (len s) 32). lia. }
  split; [|split; [exact Hiff|]].
  - intros H.
    assert (H32 : len s mod 32 = 0) by (destruct H as [-> | ->]; reflexivity).
    assert (Hc : uint8_t (len s / 2) = 0) by (destruct H as [-> | ->]; reflexivity).
    split; [assumption|].
    pose proof (decryptMessage_run stray s H32) as Hrun. cbv zeta in Hrun.
    destruct Hrun as (_ & Hl & Hpad & Hrun). rewrite Hrun, Hc.
    change (Z.to_nat (0 / 16)) with 0%nat. cbn [repeat app Z.eqb].
    f_equal. rewrite Hc in Hpad. change (Z.to_nat (0 / 16)) with 0%nat in Hpad.
    match goal with |- map _ (firstn ?n _) = _ => replace n with 0%nat by lia end.
    reflexivity.
  - intros H32 Hlen. apply Hiff.
    pose proof (Z.div_mod (len s) 512). pose proof (Z.mod_pos_bound (len s) 512). lia.
Qed.

Lemma C10_decrypt_bounds_witness :
  decryptMessage (aes128 := AES128_cipher) (fun _ => 0) [] = ([], [OutOfBounds (-1) 1 0]).
Proof.
  exact (proj2 (proj1 (C10_decrypt_bounds (aes128 := AES128_cipher) (fun _ => 0) [])
                  (or_introl eq_refl))).
Defined.

(** C10 as stated fails: an input of 544 characters, a multiple of 32 that
    is not below 512, has the 8-bit byte count 16 and is decoded without any
    access outside the arrays; so is an input of one character, which the
    length check turns down. *)
Lemma C10_counterexample :
  (memory_safe (decryptMessage (aes128 := AES128_cipher) (fun _ => 0)
                  (repeat "0"%char 544)) = true
   /\ len (repeat "0"%char 544) mod 32 = 0
   /\ ~ len (repeat "0"%char 544) < 512)
  /\ (memory_safe (decryptMessage (aes128 := AES128_cipher) (fun _ => 0) (lit "0")) = true
      /\ len (lit "0") mod 32 <> 0).
Proof.
  split; split; try (vm_compute; reflexivity).
  - split; [reflexivity|]. rewrite len_repeat. lia.
  - vm_compute. discriminate.
Qed.

(** * Further properties of the code *)

(** ** The keypad scan *)

Lemma keypad_ready_initKeypad g : keypad_ready (initKeypad g).
Proof.
  intros row Hrow.
  destruct row as [|[|[|[|row]]]]; try lia; split; reflexivity.
Qed.

Ltac rows_of H :=
  pose proof (H 0%nat ltac:(lia)) as [?M0 ?L0];
  pose proof (H 1%nat ltac:(lia)) as [?M1 ?L1];
  pose proof (H 2%nat ltac:(lia)) as [?M2 ?L2];
  pose proof (H 3%nat ltac:(lia)) as [?M3 ?L3];
  cbn [nth ROW_PINS] in *.

Ltac found r c :=
  cbn [fst snd]; split;
  [ match goal with H : forall g', _ |- _ => apply H; try reflexivity; cbn; assumption end
  | right; exists r, c;
    split; [lia|]; split; [lia|]; split; [reflexivity|]; split; [assumption|];
    intros row' col' Hr Hc Hlt;
    destruct row' as [|[|[|[|row']]]]; try lia;
    destruct col' as [|[|[|[|col']]]]; try lia; assumption ].

(** A scan returns the key of lowest index among those that are down, and
    -1 when none is; it leaves the rows as it found them. *)
Lemma scanKeypad_run down g :
  keypad_ready g ->
  keypad_ready (snd (scanKeypad down g))
  /\ (fst (scanKeypad down g) = -1
      /\ (forall row col, (row < 4)%nat -> (col < 4)%nat -> down row col = false)
      \/ exists row col,
           (row < 4)%nat /\ (col < 4)%nat
           /\ fst (scanKeypad down g) = 4 * Z.of_nat row + Z.of_nat col
           /\ down row col = true
           /\ forall row' col', (row' < 4)%nat -> (col' < 4)%nat ->
                4 * Z.of_nat row' + Z.of_nat col' < 4 * Z.of_nat row + Z.of_nat col ->
                down row' col' = false).
Proof.
  intros Hready. rows_of Hready.
  unfold scanKeypad, scan_rows, scan_columns, digitalRead, drives_low.
  cbn -[Z.mul Z.add Z.of_nat].
  rewrite ?M0, ?M1, ?M2, ?M3, ?L0, ?L1, ?L2, ?L3.
  rewrite ?andb_false_r, ?orb_false_r, ?andb_true_r. cbn [orb andb].
  assert (Hkeep : forall g', pin_mode g' = pin_mode g ->
            pin_level g' 32 = HIGH -> pin_level g' 33 = HIGH ->
            pin_level g' 25 = HIGH -> pin_level g' 26 = HIGH -> keypad_ready g').
  { intros g' Hm H0 H1 H2 H3 row Hrow. rewrite Hm.
    destruct row as [|[|[|[|row]]]]; try lia; split; assumption. }
  destruct (down 0 0)%nat eqn:D00; [found 0%nat 0%nat|].
  destruct (down 0 1)%nat eqn:D01; [found 0%nat 1%nat|].
  destruct (down 0 2)%nat eqn:D02; [found 0%nat 2%nat|].
  destruct (down 0 3)%nat eqn:D03; [found 0%nat 3%nat|].
  destruct (down 1 0)%nat eqn:D10; [found 1%nat 0%nat|].
  destruct (down 1 1)%nat eqn:D11; [found 1%nat 1%nat|].
  destruct (down 1 2)%nat eqn:D12; [found 1%nat 2%nat|].
  destruct (down 1 3)%nat eqn:D13; [found 1%nat 3%nat|].
  destruct (down 2 0)%nat eqn:D20; [found 2%nat 0%nat|].
  destruct (down 2 1)%nat eqn:D21; [found 2%nat 1%nat|].
  destruct (down 2 2)%nat eqn:D22; [found 2%nat 2%nat|].
  destruct (down 2 3)%nat eqn:D23; [found 2%nat 3%nat|].
  destruct (down 3 0)%nat eqn:D30; [found 3%nat 0%nat|].
  destruct (down 3 1)%nat eqn:D31; [found 3%nat 1%nat|].
  destruct (down 3 2)%nat eqn:D32; [found 3%nat 2%nat|].
  destruct (down 3 3)%nat eqn:D33; [found 3%nat 3%nat|].
  cbn [fst snd]. split.
  - apply Hkeep; try reflexivity; cbn; assumption.
  - left. split; [reflexivity|]. intros row col Hr Hc.
    destruct row as [|[|[|[|row]]]]; try lia;
      destruct col as [|[|[|[|col]]]]; try lia; assumption.
Qed.

Lemma scanKeypad_range down g :
  keypad_ready g -> -1 <= fst (scanKeypad down g) < 16.
Proof.
  intros H. destruct (scanKeypad_run down g H) as [_ [[-> _]|(r & c & Hr & Hc & -> & _)]]; lia.
Qed.

Lemma scanKeypad_first_down down g :
  keypad_ready g -> fst (scanKeypad down g) = first_down down.
Proof.
  intros Hready. rows_of Hready.
  unfold first_down, scanKeypad, scan_rows, scan_columns, digitalRead, drives_low.
  cbn -[Z.of_nat].
  rewrite ?M0, ?M1, ?M2, ?M3, ?L0, ?L1, ?L2, ?L3.
  rewrite ?andb_false_r, ?orb_false_r, ?andb_true_r. cbn [orb andb].
  repeat match goal with
         | |- context [down ?r ?c] => destruct (down r c); [reflexivity|]
         end.
  reflexivity.
Qed.

(** ** The key handlers keep the buffer and the screens in order *)

Lemma gtb_cases a :
  (a >? 0) = true /\ 0 < a \/ (a >? 0) = false /\ a <= 0.
Proof.
  destruct (a >? 0) eqn:E; rewrite Z.gtb_ltb in E;
    [apply Z.ltb_lt in E | apply Z.ltb_ge in E]; [left | right]; split; auto.
Qed.

Ltac run_simpl := unfold value, trace, memory_safe, ret; cbn [fst snd forallb]; app_simpl.

Section KeyInvariants.

Context {aes128 : BlockCipher}.
Variable stray : Z -> Z.

(** A character key leaves everything but the buffer, the input field and
    the multi-tap session as it was. *)
Lemma processLoRaKey_char_frame st k now :
  isSpecialKey k = false ->
  let st' := value (processLoRaKey stray k now st) in
  currentScreen st' = currentScreen st /\ lv_screen st' = lv_screen st
  /\ encryptionEnabled st' = encryptionEnabled st
  /\ ui_lora_log st' = ui_lora_log st /\ Serial2 st' = Serial2 st
  /\ Serial st' = Serial st.
Proof.
  intros Hsp. destruct (not_special k Hsp) as (H7 & H11 & H15).
  destruct_app st. cbv zeta. unfold processLoRaKey. rewrite H7, H11, H15, Hsp.
  cbn [negb]. app_simpl.
  repeat match goal with
         | |- context [if ?b then _ else _] => destruct b
         end; unfold store, bind; run_simpl; repeat split.
Qed.

Lemma processLoRaKey_inv st k now :
  buffer_ok st -> ui_ok st -> currentScreen st = SCREEN_LORA -> 0 <= k < 16 ->
  buffer_ok (value (processLoRaKey stray k now st))
  /\ ui_ok (value (processLoRaKey stray k now st))
  /\ memory_safe (processLoRaKey stray k now st) = true.
Proof.
  intros Hok Hui Hscr Hk.
  split; [apply buffer_ok_processLoRaKey; assumption|].
  destruct (isSpecialKey k) eqn:Hsp.
  - destruct_app st. unfold buffer_ok, ui_ok in *. app_simpl.
    destruct Hok as (Hbuf & Hmlen & Hstr). destruct Hui as (Hin & Hlv & Hset & Hoff).
    subst cs scr. unfold processLoRaKey. app_simpl.
    destruct (k =? 7) eqn:H7.
    { rewrite store_run by (unfold len; lia). rewrite bind_ret_run. run_simpl.
      rewrite c_str_poke_0. repeat split; auto; discriminate. }
    destruct (k =? 11) eqn:H11.
    { destruct (gtb_cases mlen) as [[-> Hpos]|[-> Hz]];
        [|run_simpl; repeat split; auto; discriminate].
      destruct enc.
      - assert (HL : len (c_str buf) <= 239) by lia.
        destruct (encryptMessage_shape stray (c_str buf) HL) as [Ht _].
        destruct (encryptMessage stray (c_str buf)) as [v t]. cbn [trace snd] in Ht. subst t.
        unfold bind. run_simpl.
        rewrite store_run by (unfold len; lia). run_simpl.
        rewrite c_str_poke_0. rewrite !app_nil_r.
        split; [repeat split; auto; discriminate|].
        apply cipher_calls_safe.
      - rewrite bind_ret_run. app_simpl.
        rewrite store_run by (unfold len; lia). rewrite bind_ret_run. run_simpl.
        rewrite c_str_poke_0. repeat split; auto; discriminate. }
    destruct (k =? 15) eqn:H15;
      [|rewrite Hsp; run_simpl; repeat split; auto; discriminate].
    destruct (gtb_cases mlen) as [[-> Hpos]|[-> Hz]].
    + app_simpl. rewrite (uint8_t_id (mlen - 1)) by (unfold is_byte; lia).
      rewrite store_run by (unfold len; lia). rewrite !bind_ret_run. run_simpl.
      repeat split; auto; try discriminate. intros H; contradiction.
    + rewrite bind_ret_run. run_simpl. repeat split; auto; discriminate.
  - destruct (processLoRaKey_char_frame st k now Hsp) as (Fs & Fl & _).
    unfold ui_ok in *. destruct Hui as (Hin & Hlv & Hset & Hoff).
    rewrite Fs, Fl, Hscr.
    assert (Hrest : lv_screen st = SCREEN_LORA /\ SCREEN_LORA <> SCREEN_SETTINGS
                    /\ (SCREEN_LORA <> SCREEN_LORA ->
                        messageLen (value (processLoRaKey stray k now st)) = 0))
      by (repeat split; [congruence | discriminate | intros H; contradiction]).
    pose (cycle := (k =? lastKeyPressed st)
                   && (uint32_t (now - lastKeyTime st) <? T9_TIMEOUT)).
    assert (Hcase : cycle = true \/ messageLen st < 126
                    \/ (cycle = false /\ 126 <= messageLen st)).
    { destruct cycle; [left; reflexivity|].
      destruct (Z_lt_ge_dec (messageLen st) 126); [right; left; assumption|].
      right; right; split; [reflexivity | lia]. }
    destruct Hcase as [Hc|[Hc|[Hc Hfull]]].
    + destruct (t9_press stray st k now Hok Hk Hsp) as (st' & R & _ & I & _);
        [left; exact Hc|]. rewrite R. run_simpl.
      split; [|reflexivity]. split; [assumption|].
      repeat split; [congruence | discriminate | intros H; contradiction].
    + destruct (t9_press stray st k now Hok Hk Hsp) as (st' & R & _ & I & _);
        [right; exact Hc|]. rewrite R. run_simpl.
      split; [|reflexivity]. split; [assumption|].
      repeat split; [congruence | discriminate | intros H; contradiction].
    + destruct (not_special k Hsp) as (H7 & H11 & H15). unfold cycle in Hc.
      clear Hrest Fs Fl. destruct_app st. unfold buffer_ok in *. app_simpl.
      unfold processLoRaKey. rewrite H7, H11, H15, Hsp. cbn [negb]. app_simpl.
      rewrite Hc. app_simpl.
      replace (mlen <? 126) with false by (symmetry; apply Z.ltb_ge; lia).
      rewrite andb_false_r. rewrite bind_ret_run. run_simpl.
      repeat split; auto; try discriminate; try congruence.
Qed.

(** The LoRa handler stays inside the message buffer and inside the arrays
    of the codec. *)
Lemma processLoRaKey_safe st k now :
  buffer_ok st -> 0 <= k < 16 -> memory_safe (processLoRaKey stray k now st) = true.
Proof.
  intros Hok Hk.
  destruct (isSpecialKey k) eqn:Hsp.
  - destruct_app st. unfold buffer_ok in *. app_simpl.
    destruct Hok as (Hbuf & Hmlen & Hstr).
    unfold processLoRaKey. app_simpl.
    destruct (k =? 7) eqn:H7.
    { rewrite store_run by (unfold len; lia). reflexivity. }
    destruct (k =? 11) eqn:H11.
    { destruct (gtb_cases mlen) as [[-> Hpos]|[-> Hz]]; [|reflexivity].
      destruct enc.
      - assert (HL : len (c_str buf) <= 239) by lia.
        destruct (encryptMessage_shape stray (c_str buf) HL) as [Ht _].
        destruct (encryptMessage stray (c_str buf)) as [v t]. cbn [trace snd] in Ht. subst t.
        unfold bind. run_simpl.
        rewrite store_run by (unfold len; lia). run_simpl.
        rewrite !app_nil_r. apply cipher_calls_safe.
      - rewrite bind_ret_run. app_simpl.
        rewrite store_run by (unfold len; lia). reflexivity. }
    destruct (k =? 15) eqn:H15; [|rewrite Hsp; reflexivity].
    destruct (gtb_cases mlen) as [[-> Hpos]|[-> Hz]]; [|reflexivity].
    app_simpl. rewrite (uint8_t_id (mlen - 1)) by (unfold is_byte; lia).
    rewrite store_run by (unfold len; lia). reflexivity.
  - pose (cycle := (k =? lastKeyPressed st)
                   && (uint32_t (now - lastKeyTime st) <? T9_TIMEOUT)).
    assert (Hcase : cycle = true \/ messageLen st < 126
                    \/ (cycle = false /\ 126 <= messageLen st)).
    { destruct cycle; [left; reflexivity|].
      destruct (Z_lt_ge_dec (messageLen st) 126); [right; left; assumption|].
      right; right; split; [reflexivity | lia]. }
    destruct Hcase as [Hc|[Hc|[Hc Hfull]]].
    + destruct (t9_press stray st k now Hok Hk Hsp) as (st' & R & _);
        [left; exact Hc|]. rewrite R. reflexivity.
    + destruct (t9_press stray st k now Hok Hk Hsp) as (st' & R & _);
        [right; exact Hc|]. rewrite R. reflexivity.
    + destruct (not_special k Hsp) as (H7 & H11 & H15). unfold cycle in Hc.
      destruct_app st. app_simpl.
      unfold processLoRaKey. rewrite H7, H11, H15, Hsp. cbn [negb]. app_simpl.
      rewrite Hc. app_simpl.
      replace (mlen <? 126) with false by (symmetry; apply Z.ltb_ge; lia).
      rewrite andb_false_r. reflexivity.
Qed.

Lemma handleKeyPress_safe st k now :
  buffer_ok st -> 0 <= k < 16 -> memory_safe (handleKeyPress stray k now st) = true.
Proof.
  intros Hok Hk. unfold handleKeyPress.
  destruct (currentScreen st); try reflexivity. apply processLoRaKey_safe; assumption.
Qed.

Lemma handleKeyPress_inv st k now :
  buffer_ok st -> ui_ok st -> 0 <= k < 16 ->
  buffer_ok (value (handleKeyPress stray k now st))
  /\ ui_ok (value (handleKeyPress stray k now st))
  /\ memory_safe (handleKeyPress stray k now st) = true.
Proof.
  intros Hok Hui Hk.
  split; [apply buffer_ok_handleKeyPress; assumption|].
  unfold handleKeyPress. destruct (currentScreen st) eqn:Hs.
  - unfold processMenuKey. destruct_app st. unfold ui_ok in *. app_simpl.
    destruct Hui as (Hin & Hlv & Hset & Hoff). subst cs scr.
    assert (Hz : mlen = 0) by (apply Hoff; discriminate).
    repeat match goal with
           | |- context [if ?b then _ else _] => destruct b
           end; run_simpl; repeat split; auto; discriminate.
  - apply processLoRaKey_inv; assumption.
  - unfold processMonitorKey. destruct_app st. unfold ui_ok in *. app_simpl.
    destruct Hui as (Hin & Hlv & Hset & Hoff). subst cs scr.
    assert (Hz : mlen = 0) by (apply Hoff; discriminate).
    repeat match goal with
           | |- context [if ?b then _ else _] => destruct b
           end; run_simpl; repeat split; auto; discriminate.
  - unfold processBluetoothKey. destruct_app st. unfold ui_ok in *. app_simpl.
    destruct Hui as (Hin & Hlv & Hset & Hoff). subst cs scr.
    assert (Hz : mlen = 0) by (apply Hoff; discriminate).
    repeat match goal with
           | |- context [if ?b then _ else _] => destruct b
           end; run_simpl; repeat split; auto; discriminate.
  - unfold processBatteryKey. destruct_app st. unfold ui_ok in *. app_simpl.
    destruct Hui as (Hin & Hlv & Hset & Hoff). subst cs scr.
    assert (Hz : mlen = 0) by (apply Hoff; discriminate).
    repeat match goal with
           | |- context [if ?b then _ else _] => destruct b
           end; run_simpl; repeat split; auto; discriminate.
  - destruct Hui as (_ & _ & Hset & _). contradiction.
Qed.

Lemma buffer_ok_set_Serial s st : buffer_ok st -> buffer_ok (set_Serial s st).
Proof. destruct_app st. unfold buffer_ok. app_simpl. auto. Qed.

Lemma ui_ok_set_Serial s st : ui_ok st -> ui_ok (set_Serial s st).
Proof. destruct_app st. unfold ui_ok. app_simpl. auto. Qed.

(** One turn of the keypad task. *)
Lemma keypadTask_inv down t_check t_press t_done g task st :
  keypad_ready g -> buffer_ok st -> ui_ok st ->
  let r := keypadTask stray down t_check t_press t_done g task st in
  keypad_ready (fst (fst (value r)))
  /\ buffer_ok (snd (value r))
  /\ ui_ok (snd (value r))
  /\ memory_safe r = true.
Proof.
  intros Hg Hok Hui. cbv zeta. unfold keypadTask.
  destruct (scanKeypad_run down g Hg) as [Hg' _].
  pose proof (scanKeypad_range down g Hg) as Hr.
  destruct (scanKeypad down g) as [key g']. cbn [fst snd] in *.
  destruct (key =? lastKey task); cbn [negb]; [run_simpl; auto|].
  destruct (key >=? 0) eqn:Hpos; cbn [andb]; [|rewrite bind_ret_run; run_simpl; auto].
  rewrite Z.geb_leb in Hpos. apply Z.leb_le in Hpos.
  destruct (uint32_t (t_check - debounceTime task) >? 150);
    [|rewrite bind_ret_run; run_simpl; auto].
  rewrite (uint8_t_id key) by (unfold is_byte; lia).
  set (st1 := set_Serial _ st).
  destruct (handleKeyPress_inv st1 key t_press) as (B & U & S);
    [apply buffer_ok_set_Serial; assumption | apply ui_ok_set_Serial; assumption | lia |].
  destruct (handleKeyPress stray key t_press st1) as [st2 t2].
  unfold bind. run_simpl. unfold memory_safe in S. run_simpl.
  rewrite !app_nil_r. auto.
Qed.

Lemma keypadTask_run_inv turns : forall g task st,
  keypad_ready g -> buffer_ok st -> ui_ok st ->
  let r := keypadTask_run stray turns g task st in
  keypad_ready (fst (fst (value r)))
  /\ buffer_ok (snd (value r))
  /\ ui_ok (snd (value r))
  /\ memory_safe r = true.
Proof.
  induction turns as [|[down [[t_check t_press] t_done]] turns IH]; intros g task st Hg Hok Hui.
  - cbv zeta. run_simpl. auto.
  - cbv zeta. cbn [keypadTask_run].
    destruct (keypadTask_inv down t_check t_press t_done g task st Hg Hok Hui)
      as (G1 & B1 & U1 & S1).
    destruct (keypadTask stray down t_check t_press t_done g task st) as [[[g1 task1] st1] t1].
    unfold bind. cbn [value fst snd] in *.
    destruct (IH g1 task1 st1 G1 B1 U1) as (G2 & B2 & U2 & S2).
    destruct (keypadTask_run stray turns g1 task1 st1) as [[[g2 task2] st2] t2].
    cbn [value fst snd] in *. split; [assumption|].
    split; [assumption|]. split; [assumption|].
    unfold memory_safe in *. cbn [trace snd] in *. rewrite forallb_app, S1, S2. reflexivity.
Qed.

Lemma keypadTask_safe down t_check t_press t_done g task st :
  keypad_ready g -> buffer_ok st ->
  let r := keypadTask stray down t_check t_press t_done g task st in
  keypad_ready (fst (fst (value r)))
  /\ buffer_ok (snd (value r))
  /\ memory_safe r = true.
Proof.
  intros Hg Hok. cbv zeta. unfold keypadTask.
  destruct (scanKeypad_run down g Hg) as [Hg' _].
  pose proof (scanKeypad_range down g Hg) as Hr.
  destruct (scanKeypad down g) as [key g']. cbn [fst snd] in *.
  destruct (key =? lastKey task); cbn [negb]; [run_simpl; auto|].
  destruct (key >=? 0) eqn:Hpos; cbn [andb]; [|rewrite bind_ret_run; run_simpl; auto].
  rewrite Z.geb_leb in Hpos. apply Z.leb_le in Hpos.
  destruct (uint32_t (t_check - debounceTime task) >? 150);
    [|rewrite bind_ret_run; run_simpl; auto].
  rewrite (uint8_t_id key) by (unfold is_byte; lia).
  set (st1 := set_Serial _ st).
  assert (B1 : buffer_ok st1) by (apply buffer_ok_set_Serial; assumption).
  pose proof (buffer_ok_handleKeyPress stray st1 key t_press B1 ltac:(lia)) as B.
  pose proof (handleKeyPress_safe st1 key t_press B1 ltac:(lia)) as S.
  destruct (handleKeyPress stray key t_press st1) as [st2 t2].
  unfold bind. run_simpl. unfold memory_safe in S. run_simpl.
  rewrite !app_nil_r. auto.
Qed.

Lemma keypadTask_run_safe turns : forall g task st,
  keypad_ready g -> buffer_ok st ->
  let r := keypadTask_run stray turns g task st in
  keypad_ready (fst (fst (value r)))
  /\ buffer_ok (snd (value r))
  /\ memory_safe r = true.
Proof.
  induction turns as [|[down [[t_check t_press] t_done]] turns IH]; intros g task st Hg Hok.
  - cbv zeta. run_simpl. auto.
  - cbv zeta. cbn [keypadTask_run].
    destruct (keypadTask_safe down t_check t_press t_done g task st Hg Hok)
      as (G1 & B1 & S1).
    destruct (keypadTask stray down t_check t_press t_done g task st) as [[[g1 task1] st1] t1].
    unfold bind. cbn [value fst snd] in *.
    destruct (IH g1 task1 st1 G1 B1) as (G2 & B2 & S2).
    destruct (keypadTask_run stray turns g1 task1 st1) as [[[g2 task2] st2] t2].
    cbn [value fst snd] in *. split; [assumption|]. split; [assumption|].
    unfold memory_safe in *. cbn [trace snd] in *. rewrite forallb_app, S1, S2. reflexivity.
Qed.

Lemma ui_ok_boot : ui_ok boot.
Proof. unfold ui_ok. repeat split; try reflexivity; discriminate. Qed.

End KeyInvariants.

(** ** Debouncing *)

Section Debounce.

Context {aes128 : BlockCipher}.
Variable stray : Z -> Z.

(** While the scans find the key of the turn before, nothing happens. *)
Lemma keypadTask_idle turns : forall g task st,
  keypad_ready g ->
  Forall (fun turn => first_down (fst turn) = lastKey task) turns ->
  exists g', keypad_ready g' /\ keypadTask_run stray turns g task st = ret (g', task, st).
Proof.
  induction turns as [|[down [[t_check t_press] t_done]] turns IH]; intros g task st Hg Hall.
  - exists g. split; [assumption | reflexivity].
  - inversion Hall as [|? ? Hhd Htl]; subst. cbn [fst] in Hhd.
    cbn [keypadTask_run]. unfold keypadTask.
    rewrite (scanKeypad_first_down down g Hg), Hhd, Z.eqb_refl. cbn [negb].
    rewrite bind_ret_run. cbn [fst snd].
    apply IH; [|assumption]. apply (scanKeypad_run down g Hg).
Qed.

(** A key that goes down and stays down. *)
Lemma keypadTask_press down t_check t_press t_done turns g task st :
  keypad_ready g ->
  Forall (fun turn => first_down (fst turn) = first_down down) turns ->
  let key := first_down down in
  let fire := negb (key =? lastKey task) && (key >=? 0)
              && (uint32_t (t_check - debounceTime task) >? 150) in
  let r := keypadTask_run stray ((down, (t_check, t_press, t_done)) :: turns) g task st in
  (fire = true ->
     snd (value r)
     = value (handleKeyPress stray key t_press
                (set_Serial (Serial st ++ lit "Tecla: " ++ decimal key ++ newline) st))
     /\ debounceTime (snd (fst (value r))) = t_done)
  /\ (fire = false -> snd (value r) = st /\ trace r = []
                      /\ debounceTime (snd (fst (value r))) = debounceTime task)
  /\ lastKey (snd (fst (value r))) = key.
Proof.
  intros Hg Hall. cbv zeta. cbn [keypadTask_run]. unfold keypadTask.
  rewrite (scanKeypad_first_down down g Hg).
  pose proof (scanKeypad_range down g Hg) as Hr.
  rewrite (scanKeypad_first_down down g Hg) in Hr.
  destruct (scanKeypad_run down g Hg) as [Hg' _].
  set (key := first_down down) in *. set (g1 := snd (scanKeypad down g)) in *.
  destruct (key =? lastKey task) eqn:Hsame; cbn [negb andb].
  - apply Z.eqb_eq in Hsame. rewrite bind_ret_run. cbn [fst snd].
    destruct (keypadTask_idle turns g1 task st Hg') as (g2 & _ & R).
    { rewrite <- Hsame. exact Hall. }
    rewrite R. run_simpl. split; [discriminate|]. auto.
  - destruct ((key >=? 0) && (uint32_t (t_check - debounceTime task) >? 150)) eqn:Hfire.
    + apply andb_true_iff in Hfire. destruct Hfire as [Hpos _].
      rewrite Z.geb_leb in Hpos. apply Z.leb_le in Hpos.
      rewrite (uint8_t_id key) by (unfold is_byte; lia).
      set (st1 := set_Serial _ st).
      destruct (handleKeyPress stray key t_press st1) as [st2 t2].
      unfold bind. cbn [fst snd ret debounceTime lastKey].
      destruct (keypadTask_idle turns g1 (mkKeypadTask key t_done) st2 Hg') as (g2 & _ & R).
      { exact Hall. }
      rewrite R. run_simpl. split; [auto|]. split; [discriminate | reflexivity].
    + rewrite !bind_ret_run. cbn [fst snd].
      destruct (keypadTask_idle turns g1 (mkKeypadTask key (debounceTime task)) st Hg')
        as (g2 & _ & R).
      { exact Hall. }
      rewrite R. run_simpl. split; [discriminate|]. auto.
Qed.

End Debounce.

(** ** Multi-tap sessions *)

Section Sessions.

Context {aes128 : BlockCipher}.
Variable stray : Z -> Z.

Lemma uint8_t_succ i : uint8_t (uint8_t i + 1) = uint8_t (i + 1).
Proof. unfold uint8_t. apply Zplus_mod_idemp_l. Qed.

Lemma buffer_ok_text st : buffer_ok st -> len (typed st) = messageLen st.
Proof. intros (_ & _ & H). exact H. Qed.

(** Further presses of the key of the session, each in time. *)
Lemma tap_quick k times : forall st i base,
  buffer_ok st -> 0 <= k < 16 -> isSpecialKey k = false ->
  lastKeyPressed st = k -> t9CharIndex st = uint8_t i ->
  typed st = base ++ [getT9Char k (uint8_t i)] ->
  ui_lora_input st = typed st ->
  quick (lastKeyTime st) times ->
  let st' := tap stray k times st in
  typed st' = base ++ [getT9Char k (uint8_t (i + len times))]
  /\ t9CharIndex st' = uint8_t (i + len times)
  /\ lastKeyPressed st' = k
  /\ ui_lora_input st' = typed st'
  /\ buffer_ok st'.
Proof.
  induction times as [|now times IH]; intros st i base Hok Hk Hsp Hlast Hidx Htext Hui Hq.
  - cbv zeta. cbn [tap]. change (len (@nil Z)) with 0. rewrite Z.add_0_r. auto.
  - cbn [quick] in Hq. destruct Hq as [Hnow Hq].
    assert (Hc : (k =? lastKeyPressed st)
                 && (uint32_t (now - lastKeyTime st) <? T9_TIMEOUT) = true).
    { rewrite Hlast, Z.eqb_refl. apply Z.ltb_lt in Hnow. rewrite Hnow. reflexivity. }
    destruct (t9_press stray st k now Hok Hk Hsp) as (st1 & R & T & U & I & K & L & O & _);
      [left; exact Hc|].
    rewrite Hc in T, I. rewrite Htext, removelast_last in T.
    rewrite Hidx, uint8_t_succ in T, I.
    cbv zeta. cbn [tap]. rewrite R. change (value (ret st1)) with st1.
    destruct (IH st1 (i + 1) base O Hk Hsp K I T U) as (T' & I' & K' & U' & O').
    { rewrite L. exact Hq. }
    replace (i + len (now :: times)) with (i + 1 + len times)
      by (unfold len; cbn [List.length]; lia).
    auto.
Qed.

(** The Delete key. *)
Lemma delete_run st now :
  buffer_ok st ->
  exists st',
    processLoRaKey stray 15 now st = ret st'
    /\ typed st' = removelast (typed st)
    /\ ui_lora_input st' = (if messageLen st >? 0 then typed st' else ui_lora_input st)
    /\ t9CharIndex st' = 0 /\ lastKeyPressed st' = 255
    /\ buffer_ok st'
    /\ currentScreen st' = currentScreen st.
Proof.
  intros Hok. pose proof (buffer_ok_processLoRaKey stray st 15 now Hok ltac:(lia)) as Hok'.
  destruct_app st. unfold buffer_ok in Hok. app_simpl.
  destruct Hok as (Hbuf & Hmlen & Hstr).
  revert Hok'. unfold processLoRaKey. cbn [Z.eqb Pos.eqb]. app_simpl.
  destruct (gtb_cases mlen) as [[-> Hpos]|[-> Hz]].
  - app_simpl. rewrite (uint8_t_id (mlen - 1)) by (unfold is_byte; lia).
    rewrite store_run by (unfold len; lia). rewrite !bind_ret_run. app_simpl.
    intros Hok'. eexists. split; [reflexivity|]. app_simpl.
    destruct (write_NUL buf (Z.to_nat (mlen - 1))) as [Hw _];
      [lia | unfold len in Hstr; lia |].
    rewrite Z2Nat.id in Hw by lia. rewrite Hw.
    replace (mlen >? 0) with true by (symmetry; rewrite Z.gtb_ltb; apply Z.ltb_lt; lia).
    split; [|split; [|split; [|split; [|split]]]]; try reflexivity; try exact Hok'.
    rewrite removelast_firstn_len. f_equal. unfold len in Hstr. lia.
  - rewrite bind_ret_run. app_simpl. intros Hok'.
    eexists. split; [reflexivity|]. app_simpl.
    replace (mlen >? 0) with false by (symmetry; rewrite Z.gtb_ltb; apply Z.ltb_ge; lia).
    split; [|split; [|split; [|split; [|split]]]]; try reflexivity; try exact Hok'.
    assert (E : c_str buf = []).
    { destruct (c_str buf); [reflexivity|]. unfold len in Hstr. simpl in Hstr. lia. }
    rewrite E. reflexivity.
Qed.

(** The Send key with text in the buffer. *)
Lemma send_run st now :
  buffer_ok st -> 0 < messageLen st ->
  let st' := value (processLoRaKey stray 11 now st) in
  typed st' = [] /\ messageLen st' = 0
  /\ t9CharIndex st' = t9CharIndex st
  /\ lastKeyPressed st' = lastKeyPressed st
  /\ lastKeyTime st' = lastKeyTime st
  /\ buffer_ok st'.
Proof.
  intros Hok Hpos. pose proof (buffer_ok_processLoRaKey stray st 11 now Hok ltac:(lia)) as Hok'.
  revert Hok'. destruct_app st. cbv zeta. unfold processLoRaKey. cbn [Z.eqb Pos.eqb].
  app_simpl.
  replace (mlen >? 0) with true by (symmetry; rewrite Z.gtb_ltb; apply Z.ltb_lt; assumption).
  destruct enc; unfold store, bind; run_simpl; rewrite c_str_poke_0; intros Hok';
    (split; [|split; [|split; [|split; [|split]]]]); try reflexivity; exact Hok'.
Qed.

(** A character key pressed afresh on a full buffer. *)
Lemma full_press st k now :
  isSpecialKey k = false -> 126 <= messageLen st ->
  (k =? lastKeyPressed st) && (uint32_t (now - lastKeyTime st) <? T9_TIMEOUT) = false ->
  processLoRaKey stray k now st
  = ret (set_lastKeyTime now (set_lastKeyPressed k (set_t9CharIndex 0 st))).
Proof.
  intros Hsp Hfull Hc. destruct (not_special k Hsp) as (H7 & H11 & H15).
  destruct_app st. app_simpl. unfold processLoRaKey. rewrite H7, H11, H15, Hsp.
  cbn [negb]. app_simpl. rewrite Hc. app_simpl.
  replace (mlen <? 126) with false by (symmetry; apply Z.ltb_ge; lia).
  rewrite andb_false_r. rewrite bind_ret_run. reflexivity.
Qed.

End Sessions.

(** ** The keypad *)

(** With the row pins as [initKeypad] leaves them, [scanKeypad] returns -1
    when no key is down and otherwise the index [4 * row + col] of a key
    that is down, the lowest such index: of several keys held together the
    first in reading order wins.  The rows are outputs at [HIGH] again when
    it returns, on the early return too. *)
Theorem scanKeypad_lowest_key (down : nat -> nat -> bool) (g : Gpio) :
  keypad_ready g ->
  keypad_ready (snd (scanKeypad down g))
  /\ (fst (scanKeypad down g) = -1
      /\ (forall row col, (row < 4)%nat -> (col < 4)%nat -> down row col = false)
      \/ exists row col,
           (row < 4)%nat /\ (col < 4)%nat
           /\ fst (scanKeypad down g) = 4 * Z.of_nat row + Z.of_nat col
           /\ down row col = true
           /\ forall row' col', (row' < 4)%nat -> (col' < 4)%nat ->
                4 * Z.of_nat row' + Z.of_nat col' < 4 * Z.of_nat row + Z.of_nat col ->
                down row' col' = false).
Proof. apply scanKeypad_run. Qed.

Lemma scanKeypad_lowest_key_witness :
  keypad_ready (initKeypad (mkGpio (fun _ => None) (fun _ => LOW)))
  /\ keypad_ready
       (snd (scanKeypad (fun row col => Nat.eqb row 1 && Nat.eqb col 2)
               (initKeypad (mkGpio (fun _ => None) (fun _ => LOW))))).
Proof.
  assert (H : keypad_ready (initKeypad (mkGpio (fun _ => None) (fun _ => LOW)))).
  { intros row Hrow. destruct row as [|[|[|[|row]]]]; try lia; split; reflexivity. }
  split; [exact H|].
  exact (proj1 (scanKeypad_lowest_key (fun row col => Nat.eqb row 1 && Nat.eqb col 2) _ H)).
Defined.

(** A key that goes down and stays down over any number of turns of
    [keypadTask] is handed to [handleKeyPress] exactly once, by the first
    turn, when it differs from the key of the turn before and more than
    150 ms have passed since the last key was handled; otherwise it is never
    handled, however long it is held, and nothing is printed.  A turn that
    finds no key down ([-1]) handles nothing. *)
Theorem keypadTask_press_once {aes128 : BlockCipher} (stray : Z -> Z)
    (down : nat -> nat -> bool) (t_check t_press t_done : Z)
    (turns : list ((nat -> nat -> bool) * (Z * Z * Z)))
    (g : Gpio) (task : KeypadTask) (st : App) :
  keypad_ready g ->
  Forall (fun turn => first_down (fst turn) = first_down down) turns ->
  let key := fst (scanKeypad down g) in
  let fire := negb (key =? lastKey task) && (key >=? 0)
              && (uint32_t (t_check - debounceTime task) >? 150) in
  let r := keypadTask_run stray ((down, (t_check, t_press, t_done)) :: turns) g task st in
  key = first_down down
  /\ (fire = true ->
      snd (value r)
      = value (handleKeyPress stray key t_press
                 (set_Serial (Serial st ++ lit "Tecla: " ++ decimal key ++ newline) st))
      /\ debounceTime (snd (fst (value r))) = t_done)
  /\ (fire = false ->
      snd (value r) = st /\ trace r = []
      /\ debounceTime (snd (fst (value r))) = debounceTime task)
  /\ lastKey (snd (fst (value r))) = key.
Proof.
  intros Hg Hall. cbv zeta. rewrite (scanKeypad_first_down down g Hg).
  split; [reflexivity|].
  exact (keypadTask_press stray down t_check t_press t_done turns g task st Hg Hall).
Qed.

Lemma keypadTask_press_once_witness :
  currentScreen
    (snd (value (keypadTask_run (aes128 := AES128_cipher) (fun _ => 0)
                   [(fun row col => Nat.eqb row 0 && Nat.eqb col 0, (200, 201, 202));
                    (fun row col => Nat.eqb row 0 && Nat.eqb col 0, (220, 221, 222))]
                   (initKeypad (mkGpio (fun _ => None) (fun _ => LOW)))
                   keypadTask_start boot)))
  = SCREEN_LORA.
Proof.
  assert (H : keypad_ready (initKeypad (mkGpio (fun _ => None) (fun _ => LOW)))).
  { intros row Hrow. destruct row as [|[|[|[|row]]]]; try lia; split; reflexivity. }
  assert (F : Forall (fun turn : (nat -> nat -> bool) * (Z * Z * Z) =>
                        first_down (fst turn)
                        = first_down (fun row col => Nat.eqb row 0 && Nat.eqb col 0))
                [(fun row col => Nat.eqb row 0 && Nat.eqb col 0, (220, 221, 222))])
    by (repeat constructor).
  rewrite (proj1 (proj1 (proj2
             (keypadTask_press_once (aes128 := AES128_cipher) (fun _ => 0)
                (fun row col => Nat.eqb row 0 && Nat.eqb col 0) 200 201 202
                [(fun row col => Nat.eqb row 0 && Nat.eqb col 0, (220, 221, 222))]
                _ keypadTask_start boot H F)) eq_refl)).
  reflexivity.
Defined.

(** Whatever keys go down and whenever, the turns of [keypadTask] never
    access [messageBuffer] or an array of the codec outside its bounds: the
    buffer stays a string of at most 126 characters with its terminator
    inside the 128 bytes, so that the text handed to [encryptMessage] is far
    below the 240 bytes at which its 8-bit length wraps. *)
Theorem keypad_never_overflows {aes128 : BlockCipher} (stray : Z -> Z)
    (turns : list ((nat -> nat -> bool) * (Z * Z * Z)))
    (g : Gpio) (task : KeypadTask) (st : App) :
  keypad_ready g -> buffer_ok st ->
  let r := keypadTask_run stray turns g task st in
  memory_safe r = true
  /\ List.length (messageBuffer (snd (value r))) = 128%nat
  /\ len (typed (snd (value r))) = messageLen (snd (value r))
  /\ 0 <= messageLen (snd (value r)) <= 126
  /\ keypad_ready (fst (fst (value r))).
Proof.
  intros Hg Hok. cbv zeta.
  destruct (keypadTask_run_safe stray turns g task st Hg Hok) as (G & (B1 & B2 & B3) & S).
  auto.
Qed.

Lemma keypad_never_overflows_witness :
  memory_safe
    (keypadTask_run (aes128 := AES128_cipher) (fun _ => 0)
       [(fun row col => Nat.eqb row 0 && Nat.eqb col 0, (200, 201, 202));
        (fun _ _ => false, (220, 221, 222));
        (fun row col => Nat.eqb row 0 && Nat.eqb col 1, (400, 401, 402));
        (fun _ _ => false, (420, 421, 422));
        (fun row col => Nat.eqb row 2 && Nat.eqb col 3, (600, 601, 602))]
       (initKeypad (mkGpio (fun _ => None) (fun _ => LOW))) keypadTask_start boot)
  = true.
Proof.
  assert (H : keypad_ready (initKeypad (mkGpio (fun _ => None) (fun _ => LOW)))).
  { intros row Hrow. destruct row as [|[|[|[|row]]]]; try lia; split; reflexivity. }
  assert (B : buffer_ok boot).
  { unfold buffer_ok. repeat split; vm_compute; try reflexivity; discriminate. }
  exact (proj1 (keypad_never_overflows (aes128 := AES128_cipher) (fun _ => 0) _ _ _ _ H B)).
Defined.

(** Whatever keys go down and whenever, after the turns of [keypadTask] the
    input field shows the text of the buffer, the screen on the display is
    the current one, the current screen is never [SCREEN_SETTINGS], and off
    the LoRa screen the buffer is empty. *)
Theorem keypad_keeps_screens {aes128 : BlockCipher} (stray : Z -> Z)
    (turns : list ((nat -> nat -> bool) * (Z * Z * Z)))
    (g : Gpio) (task : KeypadTask) (st : App) :
  keypad_ready g -> buffer_ok st -> ui_ok st ->
  let st' := snd (value (keypadTask_run stray turns g task st)) in
  ui_lora_input st' = typed st'
  /\ lv_screen st' = currentScreen st'
  /\ currentScreen st' <> SCREEN_SETTINGS
  /\ (currentScreen st' <> SCREEN_LORA -> messageLen st' = 0 /\ typed st' = []).
Proof.
  intros Hg Hok Hui. cbv zeta.
  destruct (keypadTask_run_inv stray turns g task st Hg Hok Hui)
    as (_ & B & (U1 & U2 & U3 & U4) & _).
  split; [assumption|]. split; [assumption|]. split; [assumption|].
  intros Hs. specialize (U4 Hs). split; [assumption|].
  pose proof (buffer_ok_text _ B) as Hl. rewrite U4 in Hl.
  destruct (typed _); [reflexivity|]. unfold len in Hl. simpl in Hl. lia.
Qed.

Lemma keypad_keeps_screens_witness :
  lv_screen
    (snd (value (keypadTask_run (aes128 := AES128_cipher) (fun _ => 0)
                   [(fun row col => Nat.eqb row 0 && Nat.eqb col 2, (200, 201, 202))]
                   (initKeypad (mkGpio (fun _ => None) (fun _ => LOW)))
                   keypadTask_start boot)))
  = currentScreen
      (snd (value (keypadTask_run (aes128 := AES128_cipher) (fun _ => 0)
                     [(fun row col => Nat.eqb row 0 && Nat.eqb col 2, (200, 201, 202))]
                     (initKeypad (mkGpio (fun _ => None) (fun _ => LOW)))
                     keypadTask_start boot))).
Proof.
  assert (H : keypad_ready (initKeypad (mkGpio (fun _ => None) (fun _ => LOW)))).
  { intros row Hrow. destruct row as [|[|[|[|row]]]]; try lia; split; reflexivity. }
  assert (B : buffer_ok boot).
  { unfold buffer_ok. repeat split; vm_compute; try reflexivity; discriminate. }
  assert (U : ui_ok boot).
  { unfold ui_ok. repeat split; try reflexivity; discriminate. }
  exact (proj1 (proj2
           (keypad_keeps_screens (aes128 := AES128_cipher) (fun _ => 0) _ _ _ _ H B U))).
Defined.

(** ** Typing on the LoRa screen *)

(** While the text has fewer than 126 characters, a character key pressed
    afresh and then again any number of times, each press less than 1000 ms
    after the one before, leaves one character at the end of the text: the
    glyph of the key at the number of repeats, and that number is counted in
    8 bits, so that it starts again from 0 at the 256th repeat whatever the
    number of glyphs of the key. *)
Theorem multitap_cycle {aes128 : BlockCipher} (stray : Z -> Z)
    (st : App) (k t0 : Z) (times : list Z) :
  buffer_ok st -> messageLen st < 126 ->
  0 <= k < 16 -> isSpecialKey k = false ->
  k <> lastKeyPressed st \/ T9_TIMEOUT <= uint32_t (t0 - lastKeyTime st) ->
  quick t0 times ->
  let st' := tap stray k (t0 :: times) st in
  typed st' = typed st ++ [getT9Char k (uint8_t (len times))]
  /\ t9CharIndex st' = uint8_t (len times)
  /\ messageLen st' = messageLen st + 1
  /\ ui_lora_input st' = typed st'.
Proof.
  intros Hok Hroom Hk Hsp Hfresh Hq.
  assert (Hc : (k =? lastKeyPressed st)
               && (uint32_t (t0 - lastKeyTime st) <? T9_TIMEOUT) = false).
  { destruct Hfresh as [H|H].
    - apply Z.eqb_neq in H. rewrite H. reflexivity.
    - apply Z.ltb_ge in H. rewrite H. apply andb_false_r. }
  destruct (t9_press stray st k t0 Hok Hk Hsp) as (s1 & R & T & U & I & K & L & O & _);
    [right; assumption|].
  rewrite Hc in T, I.
  cbv zeta. cbn [tap]. rewrite R. change (value (ret s1)) with s1.
  destruct (tap_quick stray k times s1 0 (typed st) O Hk Hsp K I T U)
    as (T' & I' & K' & U' & O').
  { rewrite L. exact Hq. }
  rewrite Z.add_0_l in T', I'.
  split; [assumption|]. split; [assumption|].
  pose proof (buffer_ok_text _ O') as Hl. pose proof (buffer_ok_text _ Hok) as Hl0.
  rewrite T' in Hl. rewrite len_app in Hl.
  change (len [getT9Char k (uint8_t (len times))]) with 1 in Hl.
  split; [lia | assumption].
Qed.

Lemma multitap_cycle_witness :
  typed (tap (aes128 := AES128_cipher) (fun _ => 0) 8 [1000; 1500; 2000; 2500; 3000; 3500] boot)
  = typed boot ++ [getT9Char 8 (uint8_t (len [1500; 2000; 2500; 3000; 3500]))].
Proof.
  refine (proj1 (multitap_cycle (aes128 := AES128_cipher) (fun _ => 0) boot 8 1000
                   [1500; 2000; 2500; 3000; 3500] _ _ _ _ _ _)).
  - unfold buffer_ok. repeat split; vm_compute; try reflexivity; discriminate.
  - vm_compute. reflexivity.
  - lia.
  - reflexivity.
  - left. vm_compute. discriminate.
  - cbn [quick]. repeat split; vm_compute; reflexivity.
Defined.

(** The Delete key takes the last character off the text, and after it the
    next press of any character key starts at the first glyph: a character
    typed afresh and deleted leaves the text, the input field and the length
    as they were, and the same key pressed again gives its first glyph
    again, however soon. *)
Theorem delete_undoes_press {aes128 : BlockCipher} (stray : Z -> Z)
    (st : App) (k t1 t2 t3 : Z) :
  buffer_ok st -> messageLen st < 126 ->
  0 <= k < 16 -> isSpecialKey k = false ->
  k <> lastKeyPressed st \/ T9_TIMEOUT <= uint32_t (t1 - lastKeyTime st) ->
  let s0 := value (processLoRaKey stray 15 t2 st) in
  let s1 := value (processLoRaKey stray k t1 st) in
  let s2 := value (processLoRaKey stray 15 t2 s1) in
  let s3 := value (processLoRaKey stray k t3 s2) in
  typed s0 = removelast (typed st)
  /\ typed s2 = typed st /\ ui_lora_input s2 = typed st /\ messageLen s2 = messageLen st
  /\ typed s3 = typed st ++ [getT9Char k 0].
Proof.
  intros Hok Hroom Hk Hsp Hfresh.
  assert (Hc : (k =? lastKeyPressed st)
               && (uint32_t (t1 - lastKeyTime st) <? T9_TIMEOUT) = false).
  { destruct Hfresh as [H|H].
    - apply Z.eqb_neq in H. rewrite H. reflexivity.
    - apply Z.ltb_ge in H. rewrite H. apply andb_false_r. }
  destruct (delete_run stray st t2 Hok) as (s0 & R0 & T0 & _).
  destruct (t9_press stray st k t1 Hok Hk Hsp) as (s1 & R1 & T1 & U1 & I1 & K1 & L1 & O1 & _);
    [right; assumption|].
  rewrite Hc in T1.
  destruct (delete_run stray s1 t2 O1) as (s2 & R2 & T2 & U2 & I2 & K2 & O2 & _).
  rewrite T1, removelast_last in T2.
  pose proof (buffer_ok_text _ O1) as Hl1. pose proof (buffer_ok_text _ O2) as Hl2.
  pose proof (buffer_ok_text _ Hok) as Hl0.
  rewrite T1, len_app in Hl1. change (len [getT9Char k 0]) with 1 in Hl1.
  replace (messageLen s1 >? 0) with true in U2
    by (symmetry; rewrite Z.gtb_ltb; apply Z.ltb_lt; pose proof (len_nonneg (typed st)); lia).
  destruct (t9_press stray s2 k t3 O2 Hk Hsp) as (s3 & R3 & T3 & _);
    [right; rewrite <- Hl2, T2; lia|].
  replace ((k =? lastKeyPressed s2) && (uint32_t (t3 - lastKeyTime s2) <? T9_TIMEOUT))
    with false in T3
    by (rewrite K2; replace (k =? 255) with false by (symmetry; apply Z.eqb_neq; lia);
        reflexivity).
  cbv zeta. rewrite R0, R1. change (value (ret s1)) with s1. rewrite R2.
  change (value (ret s2)) with s2. rewrite R3. change (value (ret s3)) with s3.
  change (value (ret s0)) with s0.
  split; [assumption|]. split; [assumption|]. split; [congruence|].
  split; [rewrite <- Hl2, T2; assumption | rewrite T3, T2; reflexivity].
Qed.

Lemma delete_undoes_press_witness :
  typed (value (processLoRaKey (aes128 := AES128_cipher) (fun _ => 0) 15 1100
                  (value (processLoRaKey (aes128 := AES128_cipher) (fun _ => 0) 1 1000
                            boot))))
  = typed boot.
Proof.
  refine (proj1 (proj2 (delete_undoes_press (aes128 := AES128_cipher) (fun _ => 0)
                          boot 1 1000 1100 1200 _ _ _ _ _))).
  - unfold buffer_ok. repeat split; vm_compute; try reflexivity; discriminate.
  - vm_compute. reflexivity.
  - lia.
  - reflexivity.
  - left. vm_compute. discriminate.
Defined.

(** The buffer takes 126 characters.  On a full buffer a character key
    pressed afresh is dropped, yet it opens a multi-tap session: the same
    key pressed again within 1000 ms replaces the last character of the
    text by the second glyph of the key. *)
Theorem full_buffer_overwrite {aes128 : BlockCipher} (stray : Z -> Z)
    (st : App) (k t1 t2 : Z) :
  buffer_ok st -> messageLen st = 126 ->
  0 <= k < 16 -> isSpecialKey k = false ->
  k <> lastKeyPressed st \/ T9_TIMEOUT <= uint32_t (t1 - lastKeyTime st) ->
  uint32_t (t2 - t1) < T9_TIMEOUT ->
  let s1 := value (processLoRaKey stray k t1 st) in
  let s2 := value (processLoRaKey stray k t2 s1) in
  typed s1 = typed st /\ messageLen s1 = 126
  /\ typed s2 = removelast (typed st) ++ [getT9Char k 1]
  /\ messageLen s2 = 126.
Proof.
  intros Hok Hfull Hk Hsp Hfresh Hquick.
  assert (Hc : (k =? lastKeyPressed st)
               && (uint32_t (t1 - lastKeyTime st) <? T9_TIMEOUT) = false).
  { destruct Hfresh as [H|H].
    - apply Z.eqb_neq in H. rewrite H. reflexivity.
    - apply Z.ltb_ge in H. rewrite H. apply andb_false_r. }
  cbv zeta. rewrite (full_press stray st k t1 Hsp) by (assumption || lia).
  change (value (ret ?x)) with x.
  set (s1 := set_lastKeyTime t1 (set_lastKeyPressed k (set_t9CharIndex 0 st))).
  assert (O1 : buffer_ok s1) by (destruct_app st; exact Hok).
  assert (T1 : typed s1 = typed st) by (destruct_app st; reflexivity).
  assert (M1 : messageLen s1 = 126) by (destruct_app st; exact Hfull).
  assert (K1 : lastKeyPressed s1 = k) by (destruct_app st; reflexivity).
  assert (L1 : lastKeyTime s1 = t1) by (destruct_app st; reflexivity).
  assert (I1 : t9CharIndex s1 = 0) by (destruct_app st; reflexivity).
  assert (Hc2 : (k =? lastKeyPressed s1)
                && (uint32_t (t2 - lastKeyTime s1) <? T9_TIMEOUT) = true).
  { rewrite K1, L1, Z.eqb_refl. apply Z.ltb_lt in Hquick. rewrite Hquick. reflexivity. }
  destruct (t9_press stray s1 k t2 O1 Hk Hsp) as (s2 & R2 & T2 & _ & _ & _ & _ & O2 & _);
    [left; exact Hc2|].
  rewrite Hc2, I1, T1 in T2. change (uint8_t (0 + 1)) with 1 in T2.
  rewrite R2. change (value (ret s2)) with s2.
  split; [assumption|]. split; [assumption|]. split; [assumption|].
  pose proof (buffer_ok_text _ O2) as Hl2. pose proof (buffer_ok_text _ Hok) as Hl0.
  rewrite T2, len_app in Hl2. change (len [getT9Char k 1]) with 1 in Hl2.
  assert (Hrl : len (removelast (typed st)) = len (typed st) - 1).
  { unfold len in *. rewrite removelast_firstn_len, length_firstn. lia. }
  lia.
Qed.

Lemma full_buffer_overwrite_witness :
  typed
    (value (processLoRaKey (aes128 := AES128_cipher) (fun _ => 0) 1 1100
       (value (processLoRaKey (aes128 := AES128_cipher) (fun _ => 0) 1 1000
          (set_messageLen 126
             (set_messageBuffer (repeat "Z"%char 126 ++ [NUL; NUL]) boot))))))
  = removelast (typed (set_messageLen 126
                         (set_messageBuffer (repeat "Z"%char 126 ++ [NUL; NUL]) boot)))
      ++ [getT9Char 1 1].
Proof.
  refine (proj1 (proj2 (proj2
            (full_buffer_overwrite (aes128 := AES128_cipher) (fun _ => 0)
               (set_messageLen 126
                  (set_messageBuffer (repeat "Z"%char 126 ++ [NUL; NUL]) boot))
               1 1000 1100 _ _ _ _ _ _)))).
  - unfold buffer_ok. repeat split; vm_compute; try reflexivity; discriminate.
  - reflexivity.
  - lia.
  - reflexivity.
  - left. vm_compute. discriminate.
  - vm_compute. reflexivity.
Defined.

(** The Send key empties the buffer and leaves the multi-tap session open:
    the key of the last character pressed again within 1000 ms of its last
    press starts the new message with the next glyph of its cycle, not with
    its first glyph. *)
Theorem send_keeps_session {aes128 : BlockCipher} (stray : Z -> Z)
    (st : App) (k t_send t : Z) :
  buffer_ok st -> 0 < messageLen st ->
  0 <= k < 16 -> isSpecialKey k = false ->
  lastKeyPressed st = k -> uint32_t (t - lastKeyTime st) < T9_TIMEOUT ->
  let s1 := value (processLoRaKey stray 11 t_send st) in
  let s2 := value (processLoRaKey stray k t s1) in
  typed s1 = []
  /\ lastKeyPressed s1 = k /\ t9CharIndex s1 = t9CharIndex st
  /\ typed s2 = [getT9Char k (uint8_t (t9CharIndex st + 1))].
Proof.
  intros Hok Hpos Hk Hsp Hlast Hquick. cbv zeta.
  destruct (send_run stray st t_send Hok Hpos) as (T1 & M1 & I1 & K1 & L1 & O1).
  set (s1 := value (processLoRaKey stray 11 t_send st)) in *.
  assert (Hc : (k =? lastKeyPressed s1)
               && (uint32_t (t - lastKeyTime s1) <? T9_TIMEOUT) = true).
  { rewrite K1, L1, Hlast, Z.eqb_refl. apply Z.ltb_lt in Hquick. rewrite Hquick.
    reflexivity. }
  destruct (t9_press stray s1 k t O1 Hk Hsp) as (s2 & R2 & T2 & _);
    [left; exact Hc|].
  rewrite Hc, T1, I1 in T2. rewrite R2. change (value (ret s2)) with s2.
  split; [assumption|]. split; [congruence|]. split; [assumption|]. exact T2.
Qed.

Lemma send_keeps_session_witness :
  typed
    (value (processLoRaKey (aes128 := AES128_cipher) (fun _ => 0) 1 1500
       (value (processLoRaKey (aes128 := AES128_cipher) (fun _ => 0) 11 1200
          (value (processLoRaKey (aes128 := AES128_cipher) (fun _ => 0) 1 1000 boot))))))
  = [getT9Char 1
       (uint8_t (t9CharIndex
                   (value (processLoRaKey (aes128 := AES128_cipher) (fun _ => 0) 1 1000
                             boot)) + 1))].
Proof.
  refine (proj2 (proj2 (proj2
            (send_keeps_session (aes128 := AES128_cipher) (fun _ => 0)
               (value (processLoRaKey (aes128 := AES128_cipher) (fun _ => 0) 1 1000 boot))
               1 1200 1500 _ _ _ _ _ _)))).
  - unfold buffer_ok. repeat split; vm_compute; try reflexivity; discriminate.
  - vm_compute. reflexivity.
  - lia.
  - reflexivity.
  - vm_compute. reflexivity.
  - vm_compute. reflexivity.
Defined.

(** ** Screens and settings *)

(** The key handlers change [encryptionEnabled] in one place only: key "5"
    (index 5) on the menu flips it and prints the new setting; every other
    key, on every screen, leaves it as it is, and so does a turn of
    [loraTask]. *)
Theorem encryption_toggle_on_menu_only {aes128 : BlockCipher} (stray : Z -> Z)
    (st : App) (k now : Z) (incoming : option ArduinoString) :
  let st' := value (handleKeyPress stray k now st) in
  (currentScreen st = SCREEN_MENU -> k = 5 ->
     encryptionEnabled st' = negb (encryptionEnabled st)
     /\ Serial st' = Serial st ++ lit "Criptografia: "
                       ++ lit (if encryptionEnabled st then "OFF" else "ON") ++ newline
     /\ currentScreen st' = SCREEN_MENU)
  /\ (currentScreen st <> SCREEN_MENU \/ k <> 5 ->
      encryptionEnabled st' = encryptionEnabled st)
  /\ encryptionEnabled (value (loraTask stray incoming st)) = encryptionEnabled st.
Proof.
  cbv zeta. split; [|split].
  - intros Hs ->. unfold handleKeyPress. rewrite Hs. destruct_app st.
    unfold processMenuKey. cbn [Z.eqb Pos.eqb]. run_simpl. destruct enc; repeat split; assumption.
  - intros Hne. unfold handleKeyPress. destruct (currentScreen st) eqn:Hs.
    + destruct Hne as [Hne|Hne]; [contradiction|].
      apply Z.eqb_neq in Hne. unfold processMenuKey. rewrite Hne.
      destruct_app st. run_simpl.
      repeat match goal with
             | |- context [if ?b then _ else _] => destruct b
             end; run_simpl; reflexivity.
    + destruct_app st. unfold processLoRaKey. app_simpl.
      repeat match goal with
             | |- context [if ?b then _ else _] => destruct b
             end; unfold store, bind; run_simpl; reflexivity.
    + destruct_app st. unfold processMonitorKey.
      repeat match goal with
             | |- context [if ?b then _ else _] => destruct b
             end; reflexivity.
    + destruct_app st. unfold processBluetoothKey.
      repeat match goal with
             | |- context [if ?b then _ else _] => destruct b
             end; reflexivity.
    + destruct_app st. unfold processBatteryKey.
      repeat match goal with
             | |- context [if ?b then _ else _] => destruct b
             end; reflexivity.
    + reflexivity.
  - destruct incoming as [line|]; [|reflexivity].
    destruct_app st. unfold loraTask. app_simpl.
    repeat match goal with
           | |- context [if ?b then _ else _] => destruct b
           end; unfold bind; run_simpl; reflexivity.
Qed.

(** The screens form a star around the menu.  From the menu the keys "1",
    "2", "3" and "4" (indices 0, 1, 2 and 4) open the LoRa, monitor,
    Bluetooth and battery screens and no other key leaves the menu; from
    each of these four screens the key "B" (index 7) leads back to the menu
    and no other key leaves the screen. *)
Theorem screens_around_menu {aes128 : BlockCipher} (stray : Z -> Z)
    (st : App) (k now : Z) :
  let st' := value (handleKeyPress stray k now st) in
  (currentScreen st = SCREEN_MENU ->
     currentScreen st'
     = if k =? 0 then SCREEN_LORA
       else if k =? 1 then SCREEN_MONITOR
       else if k =? 2 then SCREEN_BLUETOOTH
       else if k =? 4 then SCREEN_BATTERY
       else SCREEN_MENU)
  /\ (currentScreen st <> SCREEN_MENU ->
      currentScreen st'
      = if (k =? 7) && negb (match currentScreen st with
                             | SCREEN_SETTINGS => true
                             | _ => false
                             end)
        then SCREEN_MENU else currentScreen st).
Proof.
  cbv zeta. split.
  - intros Hs. unfold handleKeyPress. rewrite Hs. unfold processMenuKey.
    destruct_app st. run_simpl.
    repeat match goal with
           | |- context [if ?b then _ else _] => destruct b
           end; run_simpl; try reflexivity; assumption.
  - intros Hne. unfold handleKeyPress. destruct (currentScreen st) eqn:Hs.
    + contradiction.
    + destruct_app st. unfold processLoRaKey. app_simpl. subst cs.
      destruct (k =? 7) eqn:H7; [unfold store, bind; run_simpl; reflexivity|].
      cbn [andb negb].
      repeat match goal with
             | |- context [if ?b then _ else _] => destruct b
             end; unfold store, bind; run_simpl; reflexivity.
    + destruct_app st. unfold processMonitorKey. app_simpl. subst cs.
      destruct (k =? 7); [reflexivity|]. destruct (k =? 15); reflexivity.
    + destruct_app st. unfold processBluetoothKey. app_simpl. subst cs.
      destruct (k =? 7); [reflexivity|]. destruct (k =? 11), (k =? 15); reflexivity.
    + destruct_app st. unfold processBatteryKey. app_simpl. subst cs.
      destruct (k =? 7); reflexivity.
    + rewrite andb_false_r. run_simpl. assumption.
Qed.

(** ** The ciphertext as a line of text *)

Lemma sprintf_02X_xdigits b : is_byte b -> forallb isxdigit (sprintf_02X b) = true.
Proof.
  apply (byte_cases (fun b => forallb isxdigit (sprintf_02X b))). vm_compute. reflexivity.
Qed.

Lemma hex_encode_xdigits l : Forall is_byte l -> forallb isxdigit (hex_encode l) = true.
Proof.
  induction 1 as [|b l Hb _ IH]; [reflexivity|].
  unfold hex_encode in *. cbn [flat_map]. rewrite forallb_app, IH, sprintf_02X_xdigits; auto.
Qed.

Lemma xdigit_not c : isxdigit c = true -> c <> NUL /\ c <> CR /\ c <> LF.
Proof.
  intros H. repeat split; intros ->; vm_compute in H; discriminate.
Qed.

Lemma xdigits_no_NUL s : forallb isxdigit s = true -> no_NUL s.
Proof.
  intros H. apply Forall_forall. intros c Hc.
  rewrite forallb_forall in H. apply xdigit_not. auto.
Qed.

Lemma readStringUntil_line s rest :
  Forall (fun c => c <> LF) s -> readStringUntil LF (s ++ LF :: rest) = (s, rest).
Proof.
  induction 1 as [|c s Hc _ IH]; cbn [readStringUntil app].
  - reflexivity.
  - apply Ascii.eqb_neq in Hc. rewrite Hc, IH. reflexivity.
Qed.

Section CipherLine.

Context {aes128 : BlockCipher}.
Variable stray : Z -> Z.

(** A run of [encryptMessage] on at most 239 bytes returns the hex text of
    the bytes in its output array, whatever the cipher computes. *)
Lemma encryptMessage_hex P :
  len P <= 239 ->
  exists out,
    List.length out = (16 * blocks P)%nat /\ Forall is_byte out
    /\ encryptMessage stray P = (hex_encode out, repeat CipherCall (blocks P)).
Proof.
  intros HL. destruct (input_filled P HL) as (HpadLen & HinputLen & Hcpy & Hset).
  unfold encryptMessage.
  set (padLen := uint8_t (16 - len P mod 16)) in *.
  set (inputLen := uint8_t (len P + padLen)) in *.
  cbv zeta. rewrite Hcpy, bind_ret_run, Hset, bind_ret_run.
  unfold for_loop.
  replace (Z.to_nat ((inputLen + 16 - 1) / 16)) with (blocks P)
    by (rewrite HinputLen, block_count; lia).
  replace (Z.to_nat ((inputLen + 1 - 1) / 1)) with (16 * blocks P)%nat
    by (rewrite Z.div_1_r; lia).
  destruct (block_loop_trace stray (encryptBlock AES_KEY) (pkcs7_pad P) (blocks P) 0
              (new_array inputLen)) as (Ht & Hl & Hb).
  { rewrite length_pkcs7_pad. lia. }
  { rewrite new_array_length; lia. }
  change (Z.of_nat 0) with 0 in *.
  set (run := iterate (blocks P) 0 16 _ _) in *.
  exists (value run).
  split; [rewrite Hl, new_array_length; lia|].
  split; [apply Hb, new_array_bytes|].
  rewrite (run_eta run) at 1.
  erewrite bind_run; [| reflexivity |].
  2:{ erewrite bind_run; [reflexivity | | reflexivity].
      apply (read_loop stray sprintf_02X (value run) (16 * blocks P) 0 []).
      rewrite Hl, new_array_length; lia. }
  rewrite Ht, !app_nil_r. cbn [app skipn].
  rewrite firstn_all2 by (rewrite Hl, new_array_length; lia). reflexivity.
Qed.

Lemma encryptMessage_line P :
  len P <= 239 ->
  forallb isxdigit (value (encryptMessage stray P)) = true
  /\ len (value (encryptMessage stray P)) = 32 * Z.of_nat (blocks P)
  /\ (0 < blocks P)%nat
  /\ trace (encryptMessage stray P) = repeat CipherCall (blocks P).
Proof.
  intros HL. destruct (encryptMessage_hex P HL) as (out & Hlen & Hb & R).
  rewrite R. cbn [value trace fst snd].
  split; [apply hex_encode_xdigits; assumption|].
  split; [unfold len; rewrite length_hex_encode; lia|].
  split; [|reflexivity].
  unfold blocks. pose proof (len_nonneg P).
  assert (0 <= len P / 16) by (apply Z.div_pos; lia). lia.
Qed.

End CipherLine.

(** ** The radio-link reader *)

Section Reader.

Context {aes128 : BlockCipher}.
Variable stray : Z -> Z.

Lemma len_pos {A : Type} (l : list A) : l <> [] -> (len l >? 0) = true.
Proof.
  intros H. rewrite Z.gtb_ltb. apply Z.ltb_lt.
  destruct l; [contradiction|]. unfold len. simpl. lia.
Qed.

(** What a turn of [loraTask] does with a non-empty line. *)
Lemma loraTask_line line st :
  line <> [] ->
  let m := if encryptionEnabled st && (32 <=? len line) && forallb isxdigit line
           then decryptMessage stray line else ret line in
  let entry := c_str (lit "< " ++ value m ++ newline) in
  let st' := value (loraTask stray (Some line) st) in
  trace (loraTask stray (Some line) st) = trace m
  /\ ui_lora_log st' = ui_lora_log st ++ entry
  /\ ui_monitor_log st' = ui_monitor_log st ++ entry
  /\ monitorMsgCount st' = uint32_t (monitorMsgCount st + 1)
  /\ ui_monitor_status st'
     = lit "Escutando... (" ++ decimal (uint32_t (monitorMsgCount st + 1)) ++ lit " msgs)"
  /\ Serial st' = println (Serial st) (lit "LoRa RX: " ++ line)
  /\ set_Serial (Serial st)
       (set_ui_monitor_status (ui_monitor_status st)
          (set_monitorMsgCount (monitorMsgCount st)
             (set_ui_monitor_log (ui_monitor_log st)
                (set_ui_lora_log (ui_lora_log st) st')))) = st.
Proof.
  intros Hne. destruct_app st. cbv zeta. unfold loraTask. app_simpl.
  rewrite (len_pos line Hne), Z.geb_leb. unfold lv_textarea_add_text.
  destruct (enc && (32 <=? len line) && forallb isxdigit line) eqn:E.
  - replace (if enc && (32 <=? len line) then
               if forallb isxdigit line then decryptMessage stray line else ret line
             else ret line) with (decryptMessage stray line)
      by (destruct enc, (32 <=? len line), (forallb isxdigit line); try discriminate;
          reflexivity).
    destruct (decryptMessage stray line) as [v t].
    unfold bind. run_simpl. rewrite app_nil_r. repeat split.
  - replace (if enc && (32 <=? len line) then
               if forallb isxdigit line then decryptMessage stray line else ret line
             else ret line) with (ret (A := ArduinoString) line)
      by (destruct enc, (32 <=? len line), (forallb isxdigit line); try discriminate;
          reflexivity).
    unfold bind. run_simpl. repeat split.
Qed.

Lemma loraTask_empty st : loraTask stray (Some []) st = ret st.
Proof. reflexivity. Qed.

End Reader.

(** ** The radio link *)

(** What [encryptMessage] returns for a text of at most 239 bytes is a line
    that [loraTask] takes for ciphertext: hexadecimal digits only, at least
    32 of them, a multiple of 32.  Handed to [loraTask] as it is, with
    encryption enabled, it is decrypted, and both logs show the text that
    was encrypted; the run stays inside its arrays. *)
Theorem loraTask_shows_plaintext {aes128 : BlockCipher} {laws : BlockCipherLaws aes128}
    (stray stray' : Z -> Z) (P : ArduinoString) (st : App) :
  len P <= 239 -> no_NUL P -> encryptionEnabled st = true ->
  let line := value (encryptMessage stray P) in
  let r := loraTask stray' (Some line) st in
  forallb isxdigit line = true
  /\ 32 <= len line /\ len line mod 32 = 0
  /\ ui_lora_log (value r) = ui_lora_log st ++ lit "< " ++ P ++ newline
  /\ ui_monitor_log (value r) = ui_monitor_log st ++ lit "< " ++ P ++ newline
  /\ memory_safe r = true.
Proof.
  intros HL HP Henc. cbv zeta.
  destruct (encryptMessage_line stray P HL) as (Hx & Hlen & Hb & _).
  pose proof (decryptMessage_encryptMessage stray stray' P HL) as Hd.
  set (line := value (encryptMessage stray P)) in *.
  assert (H32 : 32 <= len line) by lia.
  assert (Hne : line <> []).
  { intros E. rewrite E in H32. change (len []) with 0 in H32. lia. }
  destruct (loraTask_line stray' line st Hne) as (Ht & Hl & Hm & _).
  rewrite Henc, Hx in Ht, Hl, Hm.
  replace (32 <=? len line) with true in Ht, Hl, Hm by (symmetry; apply Z.leb_le; lia).
  cbn [andb] in Ht, Hl, Hm. rewrite Hd in Ht, Hl, Hm. cbn [value trace fst snd] in Ht, Hl, Hm.
  assert (Hentry : c_str (lit "< " ++ P ++ newline) = lit "< " ++ P ++ newline).
  { apply c_str_id. apply no_NUL_app; [|apply no_NUL_app].
    - repeat constructor; discriminate.
    - assumption.
    - repeat constructor; discriminate. }
  rewrite Hentry in Hl, Hm.
  split; [assumption|]. split; [assumption|].
  split; [rewrite Hlen; rewrite Z.mul_comm; apply Z.mod_mul; lia|].
  split; [assumption|]. split; [assumption|].
  apply (cipher_calls_repeat _ _ Ht).
Qed.

Lemma loraTask_shows_plaintext_witness :
  ui_monitor_log
    (value (loraTask (aes128 := AES128_cipher) (fun _ => 0)
              (Some (value (encryptMessage (aes128 := AES128_cipher) (fun _ => 0)
                              (lit "OLA"))))
              boot))
  = ui_monitor_log boot ++ lit "< " ++ lit "OLA" ++ newline.
Proof.
  refine (proj1 (proj2 (proj2 (proj2 (proj2
            (loraTask_shows_plaintext (laws := AES128_laws) (fun _ => 0) (fun _ => 0)
               (lit "OLA") boot _ _ _)))))).
  - vm_compute. discriminate.
  - repeat constructor; discriminate.
  - reflexivity.
Defined.

(** The Send key writes the line with [println], which ends it with CR LF,
    and [loraTask] reads up to the LF: fed with the bytes that Send wrote
    with encryption enabled, it takes the hexadecimal text followed by the
    CR as its line.  The CR is not a hexadecimal digit, so the line is never
    decrypted, whether encryption is enabled at the reader or not: the logs
    show the hexadecimal text and the CR, and the cipher is not called. *)
Theorem radio_line_keeps_CR {aes128 : BlockCipher} (stray stray' : Z -> Z)
    (sender receiver : App) (now : Z) :
  buffer_ok sender -> 0 < messageLen sender ->
  encryptionEnabled sender = true -> Serial2 sender = [] ->
  let hex := value (encryptMessage stray (typed sender)) in
  let wire := Serial2 (value (processLoRaKey stray 11 now sender)) in
  let r := loraTask_turn stray' wire receiver in
  wire = hex ++ [CR; LF]
  /\ readStringUntil LF wire = (hex ++ [CR], [])
  /\ fst (value r) = []
  /\ ui_lora_log (snd (value r)) = ui_lora_log receiver ++ lit "< " ++ hex ++ [CR] ++ newline
  /\ ui_monitor_log (snd (value r))
     = ui_monitor_log receiver ++ lit "< " ++ hex ++ [CR] ++ newline
  /\ trace r = [].
Proof.
  intros Hok Hpos Henc Hs2. cbv zeta.
  pose proof (buffer_ok_text _ Hok) as Hlen. destruct Hok as (_ & Hmlen & _).
  assert (HL : len (typed sender) <= 239) by lia.
  destruct (encryptMessage_line stray (typed sender) HL) as (Hx & Hl & Hb & _).
  set (hex := value (encryptMessage stray (typed sender))) in *.
  assert (Hwire : Serial2 (value (processLoRaKey stray 11 now sender)) = hex ++ [CR; LF]).
  { subst hex. clear Hx Hl. destruct_app sender. unfold processLoRaKey in *.
    cbn [Z.eqb Pos.eqb]. app_simpl. cbn in Henc, Hs2. subst enc ser2.
    replace (mlen >? 0) with true by (symmetry; rewrite Z.gtb_ltb; apply Z.ltb_lt; lia).
    unfold store, bind. run_simpl. reflexivity. }
  rewrite Hwire.
  assert (Hread : readStringUntil LF (hex ++ [CR; LF]) = (hex ++ [CR], [])).
  { change (hex ++ [CR; LF]) with (hex ++ [CR] ++ LF :: []). rewrite app_assoc.
    apply readStringUntil_line. apply Forall_app. split.
    - apply Forall_forall. intros c Hc. rewrite forallb_forall in Hx.
      apply xdigit_not. auto.
    - repeat constructor. discriminate. }
  unfold loraTask_turn. rewrite Hread. cbn [fst snd].
  replace (len (hex ++ [CR; LF]) >? 0) with true
    by (symmetry; rewrite Z.gtb_ltb; apply Z.ltb_lt; rewrite len_app;
        change (len [CR; LF]) with 2; lia).
  assert (Hne : hex ++ [CR] <> []) by (destruct hex; discriminate).
  destruct (loraTask_line stray' (hex ++ [CR]) receiver Hne) as (Ht & Hlog & Hmon & _).
  assert (Hnot : forallb isxdigit (hex ++ [CR]) = false).
  { rewrite forallb_app, Hx. reflexivity. }
  rewrite Hnot, andb_false_r in Ht, Hlog, Hmon. cbn [value trace ret fst snd] in Ht, Hlog, Hmon.
  assert (Hentry : c_str (lit "< " ++ (hex ++ [CR]) ++ newline)
                   = lit "< " ++ hex ++ [CR] ++ newline).
  { rewrite <- app_assoc. apply c_str_id. apply no_NUL_app; [|apply no_NUL_app].
    - repeat constructor; discriminate.
    - apply xdigits_no_NUL. assumption.
    - repeat constructor; discriminate. }
  rewrite Hentry in Hlog, Hmon.
  unfold bind. run_simpl. unfold value, trace in Ht, Hlog, Hmon.
  rewrite app_nil_r.
  split; [reflexivity|]. split; [reflexivity|]. split; [reflexivity|].
  split; [exact Hlog|]. split; [exact Hmon | exact Ht].
Qed.

Lemma radio_line_keeps_CR_witness :
  readStringUntil LF
    (Serial2
       (value (processLoRaKey (aes128 := AES128_cipher) (fun _ => 0) 11 1200
                 (value (processLoRaKey (aes128 := AES128_cipher) (fun _ => 0) 1 1000
                           boot)))))
  = (value (encryptMessage (aes128 := AES128_cipher) (fun _ => 0)
              (typed (value (processLoRaKey (aes128 := AES128_cipher) (fun _ => 0) 1 1000
                               boot)))) ++ [CR],
     []).
Proof.
  refine (proj1 (proj2
            (radio_line_keeps_CR (aes128 := AES128_cipher) (fun _ => 0) (fun _ => 0)
               (value (processLoRaKey (aes128 := AES128_cipher) (fun _ => 0) 1 1000 boot))
               boot 1200 _ _ _ _))).
  - unfold buffer_ok. repeat split; vm_compute; try reflexivity; discriminate.
  - vm_compute. reflexivity.
  - reflexivity.
  - reflexivity.
Defined.

(** The monitor counts the lines it was given: after the key "D" (index 15)
    on the monitor screen has cleared the log, the counter is the number of
    non-empty lines received since, modulo 2^32, whatever the lines hold and
    whether they were decrypted, and the status line shows that number once
    a line has come; empty lines are not counted. *)
Theorem monitor_counts_lines {aes128 : BlockCipher} (stray : Z -> Z)
    (lines : list ArduinoString) (st : App) :
  let cleared := processMonitorKey 15 st in
  let n := Z.of_nat (List.length (filter (fun line => len line >? 0) lines)) in
  let st' := value (loraTask_run stray lines cleared) in
  monitorMsgCount cleared = 0 /\ ui_monitor_log cleared = []
  /\ ui_monitor_status cleared = lit "Log limpo"
  /\ monitorMsgCount st' = uint32_t n
  /\ ui_monitor_status st'
     = (if n =? 0 then lit "Log limpo"
        else lit "Escutando... (" ++ decimal (uint32_t n) ++ lit " msgs)").
Proof.
  cbv zeta.
  assert (Hrun : forall lines st0 c,
             monitorMsgCount st0 = uint32_t c -> 0 <= c ->
             let n := Z.of_nat (List.length (filter (fun line => len line >? 0) lines)) in
             let st' := value (loraTask_run stray lines st0) in
             monitorMsgCount st' = uint32_t (c + n)
             /\ ui_monitor_status st'
                = (if n =? 0 then ui_monitor_status st0
                   else lit "Escutando... (" ++ decimal (uint32_t (c + n)) ++ lit " msgs)")).
  { clear. induction lines as [|line lines IH]; intros st0 c Hc Hpos.
    - cbv zeta. cbn. rewrite Z.add_0_r. auto.
    - cbv zeta. cbn [loraTask_run filter].
      destruct line as [|ch line].
      + rewrite loraTask_empty, bind_ret_run. change (len [] >? 0) with false. cbv iota.
        apply IH; assumption.
      + assert (Hne : ch :: line <> []) by discriminate.
        rewrite (len_pos _ Hne). cbn [List.length].
        destruct (loraTask_line stray (ch :: line) st0 Hne) as (_ & _ & _ & Hcnt & Hst & _).
        set (st1 := value (loraTask stray (Some (ch :: line)) st0)) in *.
        set (m := List.length (filter (fun line => len line >? 0) lines)).
        change (monitorMsgCount (value (loraTask_run stray lines st1))
                = uint32_t (c + Z.of_nat (S m))
                /\ ui_monitor_status (value (loraTask_run stray lines st1))
                   = (if Z.of_nat (S m) =? 0 then ui_monitor_status st0
                      else lit "Escutando... (" ++ decimal (uint32_t (c + Z.of_nat (S m)))
                             ++ lit " msgs)")).
        assert (Hc1 : monitorMsgCount st1 = uint32_t (c + 1)).
        { rewrite Hcnt, Hc. unfold uint32_t. apply Zplus_mod_idemp_l. }
        destruct (IH st1 (c + 1) Hc1 ltac:(lia)) as (IH1 & IH2). fold m in IH1, IH2.
        replace (c + Z.of_nat (S m)) with (c + 1 + Z.of_nat m) by lia.
        split; [assumption|]. rewrite IH2.
        replace (Z.of_nat (S m) =? 0) with false by (symmetry; apply Z.eqb_neq; lia).
        destruct (Z.of_nat m =? 0) eqn:E; [|reflexivity].
        apply Z.eqb_eq in E. rewrite E, Z.add_0_r, Hst, Hc.
        replace (uint32_t (uint32_t c + 1)) with (uint32_t (c + 1))
          by (unfold uint32_t; symmetry; apply Zplus_mod_idemp_l).
        reflexivity. }
  destruct (Hrun lines (processMonitorKey 15 st) 0) as (H1 & H2);
    [destruct_app st; reflexivity | lia |].
  rewrite Z.add_0_l in H1, H2.
  split; [destruct_app st; reflexivity|].
  split; [destruct_app st; reflexivity|].
  split; [destruct_app st; reflexivity|].
  split; [assumption|]. rewrite H2.
  destruct (_ =? 0); [destruct_app st; reflexivity | reflexivity].
Qed.

(** ** White space *)

Lemma skip_spaces_suffix s :
  exists pre, s = pre ++ skip_spaces s /\ forallb isspace pre = true.
Proof.
  induction s as [|c s (pre & E & Hpre)]; [exists []; auto|].
  cbn [skip_spaces]. destruct (isspace c) eqn:Hc.
  - exists (c :: pre). cbn [app forallb]. rewrite Hc, Hpre, <- E. auto.
  - exists []. auto.
Qed.

Lemma skip_spaces_head s :
  match skip_spaces s with
  | [] => True
  | c :: _ => isspace c = false
  end.
Proof.
  induction s as [|c s IH]; cbn [skip_spaces]; [trivial|].
  destruct (isspace c) eqn:Hc; [exact IH | exact Hc].
Qed.

(** [trim] cuts a run of white space off each end of the text. *)
Lemma trim_parts s :
  exists pre post,
    s = pre ++ trim s ++ post
    /\ forallb isspace pre = true /\ forallb isspace post = true.
Proof.
  unfold trim. destruct (skip_spaces_suffix s) as (pre & E & Hpre).
  destruct (skip_spaces_suffix (rev (skip_spaces s))) as (post & E' & Hpost).
  exists pre, (rev post). split; [|split; [assumption|]].
  - rewrite E at 1. f_equal. rewrite <- rev_app_distr, <- E', rev_involutive. reflexivity.
  - rewrite forallb_forall in *. intros c Hc. apply Hpost. apply in_rev. assumption.
Qed.

Lemma len_trim s : len (trim s) <= len s.
Proof.
  destruct (trim_parts s) as (pre & post & E & _).
  rewrite E at 2. rewrite !len_app. pose proof (len_nonneg pre). pose proof (len_nonneg post).
  lia.
Qed.

Lemma no_NUL_trim s : no_NUL s -> no_NUL (trim s).
Proof.
  intros H. destruct (trim_parts s) as (pre & post & E & _).
  rewrite E in H. unfold no_NUL in *.
  apply Forall_app in H. destruct H as [_ H]. apply Forall_app in H. apply H.
Qed.

(** The trimmed text neither starts nor ends with white space. *)
Lemma trim_ends s :
  match trim s with
  | [] => True
  | c :: _ => isspace c = false /\ isspace (last (trim s) c) = false
  end.
Proof.
  destruct (trim s) as [|c t] eqn:E; [trivial|].
  unfold trim in E. split.
  - pose proof (skip_spaces_head s) as Hh.
    destruct (skip_spaces_suffix (rev (skip_spaces s))) as (post & E' & Hpost).
    apply (f_equal (@rev ascii)) in E'. rewrite rev_involutive, rev_app_distr, E in E'.
    destruct (skip_spaces s) as [|d u]; [discriminate|].
    cbn [app] in E'. injection E' as -> _. exact Hh.
  - pose proof (skip_spaces_head (rev (skip_spaces s))) as Hh.
    destruct (skip_spaces (rev (skip_spaces s))) as [|d u]; [discriminate|].
    cbn [rev] in E. rewrite <- E. rewrite last_last. exact Hh.
Qed.

(** ** Writes of a Bluetooth client *)

(** A write leaves the characteristic and, but for the debug console, the
    application state as they were. *)
Lemma onWrite_frame rxValue b st :
  pTxCharacteristic (fst (onWrite rxValue b st)) = pTxCharacteristic b
  /\ notified (fst (onWrite rxValue b st)) = notified b
  /\ set_Serial (Serial st) (snd (onWrite rxValue b st)) = st.
Proof.
  unfold onWrite. destruct (len rxValue >? 0); cbn [fst snd pTxCharacteristic notified];
    destruct_app st; auto.
Qed.

Lemma onWrite_some rxValue b st :
  c_str rxValue <> [] ->
  fst (onWrite rxValue b st) = mkBle (c_str rxValue) true (pTxCharacteristic b) (notified b).
Proof.
  intros H. unfold onWrite.
  assert (Hne : rxValue <> []) by (intros ->; apply H; reflexivity).
  rewrite (len_pos _ Hne). reflexivity.
Qed.

Lemma writes_frame earlier : forall b st,
  let w := fold_left (fun w rxValue => onWrite rxValue (fst w) (snd w)) earlier (b, st) in
  pTxCharacteristic (fst w) = pTxCharacteristic b
  /\ notified (fst w) = notified b
  /\ set_Serial (Serial st) (snd w) = st.
Proof.
  induction earlier as [|rx earlier IH]; intros b st; cbv zeta; cbn [fold_left fst snd].
  - destruct_app st. auto.
  - destruct (onWrite_frame rx b st) as (F1 & F2 & F3).
    destruct (onWrite rx b st) as [b1 st1]. cbn [fst snd] in *.
    destruct (IH b1 st1) as (G1 & G2 & G3).
    split; [congruence|]. split; [congruence|].
    rewrite <- F3 at 2. rewrite <- G3 at 2.
    destruct (snd (fold_left _ earlier (b1, st1))). reflexivity.
Qed.

(** ** The Bluetooth bridge *)

(** The bridge keeps one message: of the writes of a client that come before
    a turn of [bluetoothTask], the last one alone is relayed.  Its text, up
    to its first NUL and without the white space at its ends, when it is not
    empty and has at most 239 bytes, goes to the radio (encrypted when
    encryption is enabled, and then [decryptMessage] gives the text back),
    to the Bluetooth log and to the LoRa log, and is echoed to the client if
    one is connected; the flag and the buffer are cleared and the run stays
    inside its arrays.  Nothing of the earlier writes goes anywhere but to
    the debug console. *)
Theorem bluetooth_relays_last_write {aes128 : BlockCipher} {laws : BlockCipherLaws aes128}
    (stray stray' : Z -> Z) (earlier : list (list ascii)) (rxValue : list ascii)
    (b : Ble) (st : App) :
  0 < len (trim (c_str rxValue)) <= 239 ->
  let msg := trim (c_str rxValue) in
  let w := fold_left (fun w rx => onWrite rx (fst w) (snd w)) (earlier ++ [rxValue]) (b, st) in
  let r := bluetoothTask stray (fst w) (snd w) in
  let toSend := if encryptionEnabled st then value (encryptMessage stray msg) else msg in
  Serial2 (snd (value r)) = Serial2 st ++ toSend ++ [CR; LF]
  /\ (encryptionEnabled st = true -> value (decryptMessage stray' toSend) = msg)
  /\ ui_bt_log (snd (value r))
     = ui_bt_log st ++ lit "< " ++ msg ++ newline ++ lit "> LoRa: OK" ++ newline
  /\ ui_lora_log (snd (value r)) = ui_lora_log st ++ lit "[BT]> " ++ msg ++ newline
  /\ newBleData (fst (value r)) = false /\ bleRxBuffer (fst (value r)) = []
  /\ notified (fst (value r))
     = notified b
         ++ (if bleConnected st
                && (match pTxCharacteristic b with Some _ => true | None => false end)
             then [lit "Enviado via LoRa: " ++ msg] else [])
  /\ memory_safe r = true.
Proof.
  intros Hlen. cbv zeta. rewrite fold_left_app. cbn [fold_left].
  destruct (writes_frame earlier b st) as (F1 & F2 & F3). cbv zeta in F1, F2, F3.
  destruct (fold_left _ earlier (b, st)) as [b1 st1]. cbn [fst snd] in *.
  set (msg := trim (c_str rxValue)) in *.
  assert (Hsome : c_str rxValue <> []).
  { intros E. unfold msg in Hlen. rewrite E in Hlen. cbn in Hlen. lia. }
  destruct (onWrite_frame rxValue b1 st1) as (_ & _ & G3).
  rewrite (onWrite_some rxValue b1 st1 Hsome), F1, F2.
  set (st2 := snd (onWrite rxValue b1 st1)) in *.
  assert (E2 : set_Serial (Serial st) st2 = st).
  { rewrite <- F3 at 2. rewrite <- G3. destruct st2. reflexivity. }
  assert (Hnn : no_NUL msg) by apply no_NUL_trim, c_str_no_NUL.
  assert (Hbt : c_str (lit "< " ++ msg ++ newline ++ lit "> LoRa: OK" ++ newline)
                = lit "< " ++ msg ++ newline ++ lit "> LoRa: OK" ++ newline).
  { apply c_str_id. apply no_NUL_app; [|apply no_NUL_app; [assumption|]];
      repeat constructor; discriminate. }
  assert (Hlo : c_str (lit "[BT]> " ++ msg ++ newline) = lit "[BT]> " ++ msg ++ newline).
  { apply c_str_id. apply no_NUL_app; [|apply no_NUL_app; [assumption|]];
      repeat constructor; discriminate. }
  assert (HL : len msg <= 239) by lia.
  pose proof (encryptMessage_run stray msg HL) as He.
  pose proof (decryptMessage_encryptMessage stray stray' msg HL) as Hd.
  unfold bluetoothTask. cbn [newBleData bleRxBuffer pTxCharacteristic notified andb].
  assert (Hpos : (len (c_str rxValue) >? 0) = true) by (apply len_pos; assumption).
  rewrite Hpos. fold msg.
  replace (len msg >? 0) with true by (symmetry; rewrite Z.gtb_ltb; apply Z.ltb_lt; lia).
  unfold lv_textarea_add_text. rewrite Hbt, Hlo.
  rewrite <- E2. clear E2 F1 F2 F3 G3. destruct_app st2. app_simpl.
  destruct enc.
  - rewrite He in Hd |- *. unfold value in Hd. cbn [fst] in Hd.
    unfold bind. run_simpl. rewrite app_nil_r.
    split; [reflexivity|]. split; [intros _; rewrite Hd; reflexivity|].
    split; [reflexivity|]. split; [reflexivity|].
    destruct blc, (pTxCharacteristic b); cbn [andb newBleData bleRxBuffer notified];
      rewrite ?app_nil_r; repeat split; apply cipher_calls_safe.
  - unfold bind. run_simpl.
    split; [reflexivity|]. split; [discriminate|].
    split; [reflexivity|]. split; [reflexivity|].
    destruct blc, (pTxCharacteristic b); cbn [andb newBleData bleRxBuffer notified];
      rewrite ?app_nil_r; repeat split.
Qed.

Lemma bluetooth_relays_last_write_witness :
  ui_lora_log
    (snd (value (bluetoothTask (aes128 := AES128_cipher) (fun _ => 0)
                   (fst (fold_left (fun w rx => onWrite rx (fst w) (snd w))
                           ([lit "first"] ++ [lit " second "]) (ble_start, boot)))
                   (snd (fold_left (fun w rx => onWrite rx (fst w) (snd w))
                           ([lit "first"] ++ [lit " second "]) (ble_start, boot))))))
  = ui_lora_log boot ++ lit "[BT]> " ++ trim (c_str (lit " second ")) ++ newline.
Proof.
  refine (proj1 (proj2 (proj2 (proj2
            (bluetooth_relays_last_write (laws := AES128_laws) (fun _ => 0) (fun _ => 0)
               [lit "first"] (lit " second ") ble_start boot _))))).
  vm_compute. split; [reflexivity | discriminate].
Defined.

(** A write that holds nothing but white space is taken by the next turn of
    [bluetoothTask] and dropped: the flag and the buffer are cleared, and
    nothing is sent, logged or echoed. *)
Theorem bluetooth_drops_blank {aes128 : BlockCipher} (stray : Z -> Z)
    (rxValue : list ascii) (b : Ble) (st : App) :
  c_str rxValue <> [] -> trim (c_str rxValue) = [] ->
  let w := onWrite rxValue b st in
  let r := bluetoothTask stray (fst w) (snd w) in
  newBleData (fst w) = true /\ bleRxBuffer (fst w) = c_str rxValue
  /\ newBleData (fst (value r)) = false /\ bleRxBuffer (fst (value r)) = []
  /\ notified (fst (value r)) = notified b
  /\ snd (value r) = snd w
  /\ Serial2 (snd (value r)) = Serial2 st
  /\ trace r = [].
Proof.
  intros Hsome Hblank. cbv zeta.
  destruct (onWrite_frame rxValue b st) as (_ & _ & G3).
  rewrite (onWrite_some rxValue b st Hsome).
  set (st2 := snd (onWrite rxValue b st)) in *.
  unfold bluetoothTask. cbn [newBleData bleRxBuffer pTxCharacteristic notified andb].
  rewrite (len_pos _ Hsome), Hblank. change (len [] >? 0) with false. cbv iota.
  run_simpl. cbn [newBleData bleRxBuffer notified].
  repeat split. rewrite <- G3. destruct st2. reflexivity.
Qed.

Lemma bluetooth_drops_blank_witness :
  Serial2
    (snd (value (bluetoothTask (aes128 := AES128_cipher) (fun _ => 0)
                   (fst (onWrite (lit "   ") ble_start boot))
                   (snd (onWrite (lit "   ") ble_start boot)))))
  = Serial2 boot.
Proof.
  refine (proj1 (proj2 (proj2 (proj2 (proj2 (proj2 (proj2
            (bluetooth_drops_blank (aes128 := AES128_cipher) (fun _ => 0)
               (lit "   ") ble_start boot _ _))))))));
    vm_compute; [discriminate | reflexivity].
Defined.

(** ** The status line of the Bluetooth screen *)

Lemma onConnect_fields s :
  ui_bt_status (onConnect s) = ui_bt_status s
  /\ ui_bt_log (onConnect s) = ui_bt_log s
  /\ currentScreen (onConnect s) = currentScreen s
  /\ bleConnected (onConnect s) = true.
Proof. destruct s. repeat split. Qed.

Lemma onDisconnect_fields s :
  ui_bt_status (onDisconnect s) = ui_bt_status s
  /\ currentScreen (onDisconnect s) = currentScreen s
  /\ bleConnected (onDisconnect s) = false.
Proof. destruct s. repeat split. Qed.

Lemma switchScreen_bluetooth s :
  currentScreen (switchScreen SCREEN_BLUETOOTH s) = SCREEN_BLUETOOTH
  /\ ui_bt_log (switchScreen SCREEN_BLUETOOTH s) = ui_bt_log s
  /\ ui_bt_status (switchScreen SCREEN_BLUETOOTH s)
     = lit (if bleInitialized s
            then if bleConnected s then "BLE Conectado!"
                 else "BLE: ESP32_LoRa (aguardando)"
            else "BLE: Inicializando...").
Proof. destruct s as [? ? [|] [|]]; repeat split. Qed.

Section BluetoothScreen.

Context {aes128 : BlockCipher}.
Variable stray : Z -> Z.

Lemma menu_key_3 s now :
  currentScreen s = SCREEN_MENU ->
  value (handleKeyPress stray 2 now s) = switchScreen SCREEN_BLUETOOTH s.
Proof. intros H. unfold handleKeyPress. rewrite H. reflexivity. Qed.

Lemma bluetooth_key_status s k now :
  currentScreen s = SCREEN_BLUETOOTH ->
  ui_bt_status (value (handleKeyPress stray k now s)) = ui_bt_status s.
Proof.
  intros H. unfold handleKeyPress. rewrite H. unfold processBluetoothKey.
  destruct s. destruct (k =? 7); [reflexivity|].
  destruct (k =? 11), (k =? 15); reflexivity.
Qed.

Lemma bluetooth_key_info s now :
  currentScreen s = SCREEN_BLUETOOTH ->
  ui_bt_log (value (handleKeyPress stray 15 now s))
  = ui_bt_log s ++ lit "Nome: ESP32_LoRa" ++ newline
      ++ lit "Tipo: BLE (UART)" ++ newline
      ++ lit (if bleConnected s then "Status: Conectado" else "Status: Aguardando...")
      ++ newline
      ++ lit "Use app: nRF Connect" ++ newline.
Proof.
  intros H. unfold handleKeyPress. rewrite H. unfold processBluetoothKey.
  cbn [Z.eqb Pos.eqb]. destruct s as [? ? [|]]; reflexivity.
Qed.

End BluetoothScreen.

(** The status line of the Bluetooth screen is written when the screen is
    opened and at no other time.  Opened from the menu it tells whether the
    stack is up and a client connected at that moment; a client that
    connects or disconnects afterwards, the start of the stack and the keys
    of the screen leave it as it is, while the Info key (index 15) reports
    the state of the connection as it is when pressed. *)
Theorem bluetooth_status_is_a_snapshot {aes128 : BlockCipher} (stray : Z -> Z)
    (st : App) (b : Ble) (k now now' : Z) :
  currentScreen st = SCREEN_MENU ->
  let opened := value (handleKeyPress stray 2 now st) in
  currentScreen opened = SCREEN_BLUETOOTH
  /\ ui_bt_status opened
     = lit (if bleInitialized st
            then if bleConnected st then "BLE Conectado!"
                 else "BLE: ESP32_LoRa (aguardando)"
            else "BLE: Inicializando...")
  /\ ui_bt_status (onConnect opened) = ui_bt_status opened
  /\ ui_bt_status (onDisconnect opened) = ui_bt_status opened
  /\ ui_bt_status (snd (bluetoothTask_start b opened)) = ui_bt_status opened
  /\ ui_bt_status (value (handleKeyPress stray k now' (onConnect opened)))
     = ui_bt_status opened
  /\ ui_bt_log (value (handleKeyPress stray 15 now' (onConnect opened)))
     = ui_bt_log st ++ lit "Nome: ESP32_LoRa" ++ newline
         ++ lit "Tipo: BLE (UART)" ++ newline
         ++ lit "Status: Conectado" ++ newline
         ++ lit "Use app: nRF Connect" ++ newline.
Proof.
  intros Hs. cbv zeta. rewrite (menu_key_3 stray st now Hs).
  destruct (switchScreen_bluetooth st) as (Hscr & Hlog & Hstat).
  set (opened := switchScreen SCREEN_BLUETOOTH st) in *.
  destruct (onConnect_fields opened) as (C1 & C2 & C3 & C4).
  destruct (onDisconnect_fields opened) as (D1 & _).
  split; [assumption|]. split; [assumption|]. split; [assumption|]. split; [assumption|].
  split; [destruct opened; reflexivity|].
  split.
  - rewrite bluetooth_key_status by congruence. assumption.
  - rewrite bluetooth_key_info by congruence. rewrite C4, C2, Hlog. reflexivity.
Qed.

Lemma bluetooth_status_is_a_snapshot_witness :
  ui_bt_status (onConnect (value (handleKeyPress (aes128 := AES128_cipher) (fun _ => 0) 2 1000
                                    boot)))
  = ui_bt_status (value (handleKeyPress (aes128 := AES128_cipher) (fun _ => 0) 2 1000 boot)).
Proof.
  exact (proj1 (proj2 (proj2
           (bluetooth_status_is_a_snapshot (aes128 := AES128_cipher) (fun _ => 0)
              boot ble_start 0 1000 2000 eq_refl)))).
Defined.

(** ** The battery gauge over the range of the ADC *)

Lemma adc_cases (p : Z -> bool) :
  forallb p adc_readings = true -> forall raw, 0 <= raw <= 4095 -> p raw = true.
Proof.
  intros H raw Hraw. rewrite forallb_forall in H. apply H.
  unfold adc_readings. apply in_map_iff. exists (Z.to_nat raw). split; [lia|].
  apply in_seq. lia.
Qed.

Lemma gauge_checked : forallb gauge_check adc_readings = true.
Proof. vm_compute. reflexivity. Qed.

Lemma gauge_facts raw :
  0 <= raw <= 4095 ->
  let v := readBatteryVoltage raw in
  let p := voltageToPercent v in
  0 <= p <= 100
  /\ (p = 0 <-> raw <= 1868)
  /\ (p = 100 <-> 2606 <= raw)
  /\ (p <? 20) = (raw <=? 2010)
  /\ (p <? 50) = (raw <=? 2233)
  /\ len (sprintf_2f v) = 4
  /\ no_NUL (sprintf_2f v)
  /\ (raw < 4095 -> p <= voltageToPercent (readBatteryVoltage (raw + 1))).
Proof.
  intros Hraw. cbv zeta.
  pose proof (adc_cases gauge_check gauge_checked raw Hraw) as H.
  unfold gauge_check in H. cbv zeta in H.
  apply andb_true_iff in H. destruct H as [H Hnext].
  apply andb_true_iff in H. destruct H as [H Hnul].
  apply andb_true_iff in H. destruct H as [H Hlen].
  apply andb_true_iff in H. destruct H as [H H50].
  apply andb_true_iff in H. destruct H as [H H20].
  apply andb_true_iff in H. destruct H as [H H100].
  apply andb_true_iff in H. destruct H as [H H0].
  apply andb_true_iff in H. destruct H as [Hlo Hhi].
  apply Bool.eqb_prop in H0, H100, H20, H50.
  apply Z.leb_le in Hlo, Hhi.
  split; [lia|].
  split; [rewrite <- Z.leb_le, <- Z.eqb_eq; split; congruence|].
  split; [rewrite <- Z.leb_le, <- Z.eqb_eq; split; congruence|].
  split; [assumption|]. split; [assumption|].
  split; [apply Z.eqb_eq; assumption|].
  split.
  - apply Forall_forall. intros c Hc. rewrite forallb_forall in Hnul.
    specialize (Hnul c Hc). apply negb_true_iff in Hnul. apply Ascii.eqb_neq. assumption.
  - intros Hlt. apply orb_true_iff in Hnext. destruct Hnext as [Hn|Hn];
      [apply Z.eqb_eq in Hn; lia | apply Z.leb_le; assumption].
Qed.

Lemma gauge_monotone raw raw' :
  0 <= raw <= raw' -> raw' <= 4095 ->
  voltageToPercent (readBatteryVoltage raw) <= voltageToPercent (readBatteryVoltage raw').
Proof.
  intros H H'. replace raw' with (raw + Z.of_nat (Z.to_nat (raw' - raw))) in * by lia.
  induction (Z.to_nat (raw' - raw)) as [|n IH].
  - rewrite Z.add_0_r. lia.
  - etransitivity; [apply IH; lia|].
    destruct (gauge_facts (raw + Z.of_nat n)) as (_ & _ & _ & _ & _ & _ & _ & Hs); [lia|].
    replace (raw + Z.of_nat (S n)) with (raw + Z.of_nat n + 1) by lia. apply Hs. lia.
Qed.

(** ** The LVGL objects under [batteryTask] *)

Module LvglFacts.

Import Lvgl.

Lemma nth_error_update h f ui h' :
  nth_error (objects (update h f ui)) h'
  = if Nat.eqb h' h then option_map f (nth_error (objects ui) h)
    else nth_error (objects ui) h'.
Proof.
  unfold update. cbn [objects]. generalize (objects ui) as l. clear ui.
  revert h'. induction h as [|h IH]; intros h' l.
  - destruct l as [|o l]; cbn [firstn skipn app]; destruct h'; reflexivity.
  - destruct l as [|o l]; cbn [firstn skipn app].
    + destruct h'; cbn [Nat.eqb]; [reflexivity|]. destruct (Nat.eqb h' h); destruct h'; reflexivity.
    + destruct h'; cbn [Nat.eqb nth_error]; [reflexivity|]. apply IH.
Qed.

Lemma parents_update h f ui :
  (forall o, parent (f o) = parent o) ->
  map parent (objects (update h f ui)) = map parent (objects ui).
Proof.
  intros Hf. unfold update. cbn [objects]. generalize (objects ui) as l. clear ui.
  induction h as [|h IH]; intros l.
  - destruct l as [|o l]; cbn [firstn skipn app map]; [reflexivity|]. rewrite Hf. reflexivity.
  - destruct l as [|o l]; cbn [firstn skipn app map]; [reflexivity|]. rewrite IH. reflexivity.
Qed.

Lemma keeps_update h f ui hs :
  (forall o, parent (f o) = parent o) -> In h hs -> keeps (update h f) ui hs.
Proof.
  intros Hf Hin. split; [reflexivity|]. split; [apply parents_update; assumption|].
  intros h' Hh'. rewrite nth_error_update.
  destruct (Nat.eqb h' h) eqn:E; [|reflexivity].
  apply Nat.eqb_eq in E. subst. contradiction.
Qed.

Lemma keeps_id ui hs : keeps (fun ui => ui) ui hs.
Proof. repeat split. Qed.

Lemma keeps_compose f g ui hs :
  keeps f ui hs -> keeps g (f ui) hs -> keeps (fun ui => g (f ui)) ui hs.
Proof.
  intros (F1 & F2 & F3) (G1 & G2 & G3). split; [congruence|]. split; [congruence|].
  intros h Hh. rewrite G3, F3; auto.
Qed.

Lemma pointer_update h f ui : pointer (update h f ui) = pointer ui.
Proof. reflexivity. Qed.

Lemma batteryTask_keeps raw screen ui :
  keeps (fun ui => snd (batteryTask raw screen ui)) ui (battery_handles ui).
Proof.
  unfold keeps, batteryTask, battery_handles, through. cbv beta zeta. cbn [snd flat_map app].
  unfold lv_label_set_text, lv_bar_set_value, set_indicator_color.
  destruct (pointer ui ui_header_battery) as [hb|] eqn:Eb;
    destruct (pointer ui ui_battery_voltage) as [hv|] eqn:Ev;
    destruct (pointer ui ui_battery_bar) as [hr|] eqn:Er;
    destruct screen;
    repeat (rewrite ?pointer_update, ?Eb, ?Ev, ?Er);
    (split; [reflexivity|]);
    (split;
     [ rewrite ?parents_update by (intros o; reflexivity); reflexivity
     | intros h Hh; cbn [In app] in Hh;
       rewrite ?nth_error_update;
       repeat match goal with
              | |- context [Nat.eqb h ?x] =>
                  let E := fresh "E" in
                  destruct (Nat.eqb h x) eqn:E;
                  [apply Nat.eqb_eq in E; subst; exfalso; apply Hh; auto 6|]
              end; reflexivity ]).
Qed.

Lemma batteryTask_run_keeps turns : forall ui,
  keeps (batteryTask_run turns) ui (battery_handles ui).
Proof.
  induction turns as [|[raw screen] turns IH]; intros ui; cbn [batteryTask_run].
  - apply keeps_id.
  - apply (keeps_compose (fun ui => snd (batteryTask raw screen ui)) (batteryTask_run turns)).
    + apply batteryTask_keeps.
    + destruct (batteryTask_keeps raw screen ui) as (P & _).
      replace (battery_handles ui) with (battery_handles (snd (batteryTask raw screen ui)))
        by (unfold battery_handles; rewrite P; reflexivity).
      apply IH.
Qed.

Lemma header_battery_label_parents screen ui ui' :
  map parent (objects ui') = map parent (objects ui) ->
  header_battery_label screen ui' = header_battery_label screen ui.
Proof.
  intros H. unfold header_battery_label.
  assert (Hlen : List.length (objects ui') = List.length (objects ui)).
  { rewrite <- (length_map parent (objects ui')), H, length_map. reflexivity. }
  assert (Hchild : forall p h,
             match lookup h ui' with
             | Some o => match parent o with Some q => Nat.eqb q p | None => false end
             | None => false
             end
             = match lookup h ui with
               | Some o => match parent o with Some q => Nat.eqb q p | None => false end
               | None => false
               end).
  { intros p h. unfold lookup.
    pose proof (nth_error_map parent h (objects ui')) as E'.
    pose proof (nth_error_map parent h (objects ui)) as E.
    rewrite H, E in E'.
    destruct (nth_error (objects ui') h), (nth_error (objects ui) h); cbn in E';
      try discriminate; [|reflexivity].
    injection E' as ->. reflexivity. }
  rewrite Hlen.
  rewrite (filter_ext _ _ (Hchild screen)).
  destruct (filter _ _) as [|header rest]; [reflexivity|].
  rewrite (filter_ext _ _ (Hchild header)). reflexivity.
Qed.

Section Built.

Variables LV_SYMBOL_HOME LV_SYMBOL_CALL LV_SYMBOL_EYE_OPEN LV_SYMBOL_BLUETOOTH
          LV_SYMBOL_BATTERY_FULL LV_SYMBOL_SETTINGS : ArduinoString.

(** The screens as built: 47 objects; the five screens, the battery label
    of each header and the widgets of the battery screen. *)
Lemma setup_built :
  let ui := setup LV_SYMBOL_HOME LV_SYMBOL_CALL LV_SYMBOL_EYE_OPEN LV_SYMBOL_BLUETOOTH
              LV_SYMBOL_BATTERY_FULL LV_SYMBOL_SETTINGS in
  List.length (objects ui) = 47%nat
  /\ (pointer ui ui_menu_screen = Some 0%nat
      /\ pointer ui ui_lora_screen = Some 16%nat
      /\ pointer ui ui_monitor_screen = Some 24%nat
      /\ pointer ui ui_bt_screen = Some 31%nat
      /\ pointer ui ui_battery_screen = Some 38%nat)
  /\ (pointer ui ui_header_battery = Some 41%nat
      /\ pointer ui ui_battery_voltage = Some 43%nat
      /\ pointer ui ui_battery_bar = Some 44%nat)
  /\ (header_battery_label 0 ui = Some 3%nat
      /\ header_battery_label 16 ui = Some 19%nat
      /\ header_battery_label 24 ui = Some 27%nat
      /\ header_battery_label 31 ui = Some 34%nat
      /\ header_battery_label 38 ui = Some 41%nat)
  /\ (text_at (Some 3%nat) ui = Some (lit "?.??V")
      /\ text_at (Some 19%nat) ui = Some (lit "?.??V")
      /\ text_at (Some 27%nat) ui = Some (lit "?.??V")
      /\ text_at (Some 34%nat) ui = Some (lit "?.??V"))
  /\ battery_handles ui = [41; 43; 44]%nat.
Proof. vm_compute. repeat split. Qed.

End Built.

End LvglFacts.

(** ** The battery *)

(** Over the readings of the 12-bit ADC (0 to 4095) the percentage computed
    from [readBatteryVoltage] by [voltageToPercent] lies between 0 and 100
    and never goes down when the reading goes up; it is 0 up to the reading
    1868 and 100 from the reading 2606 on.  The voltage printed with two
    decimals has four characters, so that both texts of [batteryTask] fit
    their buffers of 16 and 10 bytes. *)
Theorem battery_gauge (raw raw' : Z) :
  0 <= raw <= raw' -> raw' <= 4095 ->
  let v := readBatteryVoltage raw in
  let p := voltageToPercent v in
  let p' := voltageToPercent (readBatteryVoltage raw') in
  0 <= p <= p' /\ p' <= 100
  /\ (p = 0 <-> raw <= 1868)
  /\ (p = 100 <-> 2606 <= raw)
  /\ len (sprintf_2f v ++ lit " V") + 1 <= 16
  /\ len (sprintf_2f v ++ lit "V") + 1 <= 10.
Proof.
  intros H H'. cbv zeta.
  destruct (gauge_facts raw) as (Hr & H0 & H100 & _ & _ & Hlen & _); [lia|].
  destruct (gauge_facts raw') as (Hr' & _); [lia|].
  pose proof (gauge_monotone raw raw' H H') as Hm.
  split; [lia|]. split; [lia|]. split; [assumption|]. split; [assumption|].
  rewrite !len_app, Hlen. split; vm_compute; discriminate.
Qed.

Lemma battery_gauge_witness :
  voltageToPercent (readBatteryVoltage 2300) = 100 <-> 2606 <= 2300.
Proof.
  refine (proj1 (proj2 (proj2 (proj2 (battery_gauge 2300 2400 _ _))))); lia.
Defined.

(** [createHeader] stores the battery label of each header in the one
    pointer [ui_header_battery], so that once the five screens are built it
    points to the label of the screen built last, the battery screen.
    Whatever readings [batteryTask] takes and on whatever screens, the
    battery labels in the headers of the menu, LoRa, monitor and Bluetooth
    screens keep the text ["?.??V"] they were made with; the label in the
    header of the battery screen shows the last voltage. *)
Theorem header_battery_on_one_screen
    (LV_SYMBOL_HOME LV_SYMBOL_CALL LV_SYMBOL_EYE_OPEN LV_SYMBOL_BLUETOOTH
       LV_SYMBOL_BATTERY_FULL LV_SYMBOL_SETTINGS : ArduinoString)
    (turns : list (Z * AppScreen)) :
  let ui := Lvgl.batteryTask_run turns
              (Lvgl.setup LV_SYMBOL_HOME LV_SYMBOL_CALL LV_SYMBOL_EYE_OPEN
                 LV_SYMBOL_BLUETOOTH LV_SYMBOL_BATTERY_FULL LV_SYMBOL_SETTINGS) in
  (forall p,
      In p [Lvgl.ui_menu_screen; Lvgl.ui_lora_screen; Lvgl.ui_monitor_screen;
            Lvgl.ui_bt_screen] ->
      exists screen lbl,
        Lvgl.pointer ui p = Some screen
        /\ Lvgl.header_battery_label screen ui = Some lbl
        /\ Lvgl.pointer ui Lvgl.ui_header_battery <> Some lbl
        /\ Lvgl.text_at (Some lbl) ui = Some (lit "?.??V"))
  /\ (exists screen,
        Lvgl.pointer ui Lvgl.ui_battery_screen = Some screen
        /\ Lvgl.header_battery_label screen ui = Lvgl.pointer ui Lvgl.ui_header_battery)
  /\ (forall raw screen,
        0 <= raw <= 4095 ->
        Lvgl.text_at (Lvgl.pointer ui Lvgl.ui_header_battery)
          (snd (Lvgl.batteryTask raw screen ui))
        = Some (sprintf_2f (readBatteryVoltage raw) ++ lit "V")).
Proof.
  cbv zeta.
  destruct (LvglFacts.setup_built LV_SYMBOL_HOME LV_SYMBOL_CALL LV_SYMBOL_EYE_OPEN
              LV_SYMBOL_BLUETOOTH LV_SYMBOL_BATTERY_FULL LV_SYMBOL_SETTINGS)
    as (Hlen0 & (P0 & P1 & P2 & P3 & P4) & (P5 & P6 & P7) & (L0 & L1 & L2 & L3 & L4)
        & (T0 & T1 & T2 & T3) & Hhs).
  set (ui0 := Lvgl.setup _ _ _ _ _ _) in *.
  destruct (LvglFacts.batteryTask_run_keeps turns ui0) as (Hp & Hpar & Hobj).
  set (ui := Lvgl.batteryTask_run turns ui0) in *.
  rewrite Hhs in Hobj. rewrite Hp.
  assert (Hlen : List.length (Lvgl.objects ui) = 47%nat).
  { rewrite <- (length_map Lvgl.parent), Hpar, length_map. assumption. }
  assert (Hcase : forall lbl, lbl <> 41%nat -> lbl <> 43%nat -> lbl <> 44%nat ->
             Lvgl.text_at (Some lbl) ui = Lvgl.text_at (Some lbl) ui0).
  { intros lbl H1 H2 H3. unfold Lvgl.text_at, Lvgl.lookup. rewrite Hobj; [reflexivity|].
    cbn [In]. intros [H|[H|[H|[]]]]; congruence. }
  split; [|split].
  - intros p Hin. cbn [In] in Hin. destruct Hin as [<-|[<-|[<-|[<-|[]]]]].
    + exists 0%nat, 3%nat. rewrite (LvglFacts.header_battery_label_parents _ ui0 ui Hpar).
      rewrite Hcase by discriminate. rewrite P5. repeat split; try assumption. discriminate.
    + exists 16%nat, 19%nat. rewrite (LvglFacts.header_battery_label_parents _ ui0 ui Hpar).
      rewrite Hcase by discriminate. rewrite P5. repeat split; try assumption. discriminate.
    + exists 24%nat, 27%nat. rewrite (LvglFacts.header_battery_label_parents _ ui0 ui Hpar).
      rewrite Hcase by discriminate. rewrite P5. repeat split; try assumption. discriminate.
    + exists 31%nat, 34%nat. rewrite (LvglFacts.header_battery_label_parents _ ui0 ui Hpar).
      rewrite Hcase by discriminate. rewrite P5. repeat split; try assumption. discriminate.
  - exists 38%nat. rewrite (LvglFacts.header_battery_label_parents _ ui0 ui Hpar).
    rewrite P5. split; assumption.
  - intros raw screen Hraw. rewrite P5.
    destruct (gauge_facts raw Hraw) as (_ & _ & _ & _ & _ & _ & Hnn & _).
    assert (Hc : c_str (sprintf_2f (readBatteryVoltage raw) ++ lit "V")
                 = sprintf_2f (readBatteryVoltage raw) ++ lit "V").
    { apply c_str_id, no_NUL_app; [assumption | repeat constructor; discriminate]. }
    assert (Hex : exists o, nth_error (Lvgl.objects ui) 41 = Some o).
    { destruct (nth_error (Lvgl.objects ui) 41) eqn:E; [eauto|].
      apply nth_error_None in E. lia. }
    destruct Hex as (o & Ho).
    unfold Lvgl.text_at, Lvgl.lookup, Lvgl.batteryTask, Lvgl.through. cbn [snd].
    assert (Hb : Lvgl.pointer ui Lvgl.ui_header_battery = Some 41%nat) by congruence.
    assert (Hv : Lvgl.pointer ui Lvgl.ui_battery_voltage = Some 43%nat) by congruence.
    assert (Hr : Lvgl.pointer ui Lvgl.ui_battery_bar = Some 44%nat) by congruence.
    unfold Lvgl.lv_label_set_text, Lvgl.lv_bar_set_value, Lvgl.set_indicator_color.
    destruct screen; repeat (rewrite ?LvglFacts.pointer_update, ?Hb, ?Hv, ?Hr);
      rewrite ?LvglFacts.nth_error_update; cbn [Nat.eqb]; rewrite Ho; cbn [option_map Lvgl.text];
      rewrite Hc; reflexivity.
Qed.

(** On the battery screen a turn of [batteryTask] with the ADC reading [raw]
    (0 to 4095) shows the voltage with two decimals and the unit, sets the
    bar to the percentage and colours it red up to the reading 2010 (below
    20 %), orange up to 2233 (below 50 %) and green above.  On any other
    screen it leaves the voltage label and the bar as they are. *)
Theorem battery_screen_shows_reading
    (LV_SYMBOL_HOME LV_SYMBOL_CALL LV_SYMBOL_EYE_OPEN LV_SYMBOL_BLUETOOTH
       LV_SYMBOL_BATTERY_FULL LV_SYMBOL_SETTINGS : ArduinoString)
    (turns : list (Z * AppScreen)) (raw : Z) (screen : AppScreen) :
  0 <= raw <= 4095 ->
  let ui := Lvgl.batteryTask_run turns
              (Lvgl.setup LV_SYMBOL_HOME LV_SYMBOL_CALL LV_SYMBOL_EYE_OPEN
                 LV_SYMBOL_BLUETOOTH LV_SYMBOL_BATTERY_FULL LV_SYMBOL_SETTINGS) in
  let ui' := snd (Lvgl.batteryTask raw screen ui) in
  fst (Lvgl.batteryTask raw screen ui) = readBatteryVoltage raw
  /\ (screen = SCREEN_BATTERY ->
      Lvgl.read Lvgl.text Lvgl.ui_battery_voltage ui'
      = Some (sprintf_2f (readBatteryVoltage raw) ++ lit " V")
      /\ Lvgl.read Lvgl.bar_value Lvgl.ui_battery_bar ui'
         = Some (voltageToPercent (readBatteryVoltage raw))
      /\ Lvgl.read Lvgl.indicator_color Lvgl.ui_battery_bar ui'
         = Some (if raw <=? 2010 then 0xFF0000
                 else if raw <=? 2233 then 0xFFAA00
                 else 0x00FF00))
  /\ (screen <> SCREEN_BATTERY ->
      Lvgl.read Lvgl.text Lvgl.ui_battery_voltage ui'
      = Lvgl.read Lvgl.text Lvgl.ui_battery_voltage ui
      /\ Lvgl.read Lvgl.bar_value Lvgl.ui_battery_bar ui'
         = Lvgl.read Lvgl.bar_value Lvgl.ui_battery_bar ui
      /\ Lvgl.read Lvgl.indicator_color Lvgl.ui_battery_bar ui'
         = Lvgl.read Lvgl.indicator_color Lvgl.ui_battery_bar ui).
Proof.
  intros Hraw. cbv zeta.
  destruct (LvglFacts.setup_built LV_SYMBOL_HOME LV_SYMBOL_CALL LV_SYMBOL_EYE_OPEN
              LV_SYMBOL_BLUETOOTH LV_SYMBOL_BATTERY_FULL LV_SYMBOL_SETTINGS)
    as (Hlen0 & _ & (P5 & P6 & P7) & _ & _ & Hhs).
  set (ui0 := Lvgl.setup _ _ _ _ _ _) in *.
  destruct (LvglFacts.batteryTask_run_keeps turns ui0) as (Hp & Hpar & _).
  set (ui := Lvgl.batteryTask_run turns ui0) in *.
  assert (Hlen : List.length (Lvgl.objects ui) = 47%nat).
  { rewrite <- (length_map Lvgl.parent), Hpar, length_map. assumption. }
  assert (Hb : Lvgl.pointer ui Lvgl.ui_header_battery = Some 41%nat) by congruence.
  assert (Hv : Lvgl.pointer ui Lvgl.ui_battery_voltage = Some 43%nat) by congruence.
  assert (Hr : Lvgl.pointer ui Lvgl.ui_battery_bar = Some 44%nat) by congruence.
  assert (Hex : forall h, (h < 47)%nat -> exists o, nth_error (Lvgl.objects ui) h = Some o).
  { intros h Hh. destruct (nth_error (Lvgl.objects ui) h) eqn:E; [eauto|].
    apply nth_error_None in E. lia. }
  destruct (Hex 43%nat ltac:(lia)) as (ov & Hov).
  destruct (Hex 44%nat ltac:(lia)) as (ob & Hob).
  destruct (gauge_facts raw Hraw) as (Hrange & _ & _ & H20 & H50 & _ & Hnn & _).
  assert (Hc : c_str (sprintf_2f (readBatteryVoltage raw) ++ lit " V")
               = sprintf_2f (readBatteryVoltage raw) ++ lit " V").
  { apply c_str_id, no_NUL_app; [assumption | repeat constructor; discriminate]. }
  split; [reflexivity|].
  unfold Lvgl.read, Lvgl.lookup, Lvgl.batteryTask, Lvgl.through. cbn [snd].
  unfold Lvgl.lv_label_set_text, Lvgl.lv_bar_set_value, Lvgl.set_indicator_color.
  split.
  - intros ->. repeat (rewrite ?LvglFacts.pointer_update, ?Hb, ?Hv, ?Hr).
    rewrite ?LvglFacts.nth_error_update. cbn [Nat.eqb]. rewrite Hov, Hob.
    cbn [option_map Lvgl.text Lvgl.bar_value Lvgl.indicator_color].
    rewrite Hc, H20, H50.
    rewrite Z.min_r, Z.max_r by lia. repeat split.
  - intros Hs. destruct screen; try contradiction;
      repeat (rewrite ?LvglFacts.pointer_update, ?Hb, ?Hv, ?Hr);
      rewrite ?LvglFacts.nth_error_update; cbn [Nat.eqb]; repeat split.
Qed.

Lemma battery_screen_shows_reading_witness :
  Lvgl.read Lvgl.bar_value Lvgl.ui_battery_bar
    (snd (Lvgl.batteryTask 2300 SCREEN_BATTERY
            (Lvgl.batteryTask_run [(2000, SCREEN_MENU)]
               (Lvgl.setup [] [] [] [] [] []))))
  = Some (voltageToPercent (readBatteryVoltage 2300)).
Proof.
  refine (proj1 (proj2 (proj1 (proj2
            (battery_screen_shows_reading [] [] [] [] [] [] [(2000, SCREEN_MENU)] 2300
               SCREEN_BATTERY _)) eq_refl))).
  lia.
Defined.

(** ** The case of the hexadecimal digits *)

Lemma char_cases (p : ascii -> bool) :
  forallb (fun b => p (char_of_byte b)) all_bytes = true -> forall c, p c = true.
Proof.
  intros H c. rewrite <- (char_of_byte_of_char c).
  apply (byte_cases (fun b => p (char_of_byte b)) H). apply byte_of_char_byte.
Qed.

Lemma lower_facts c :
  digit_value (lower c) = digit_value c
  /\ isspace (lower c) = isspace c
  /\ Ascii.eqb (lower c) NUL = Ascii.eqb c NUL
  /\ Ascii.eqb (lower c) "-" = Ascii.eqb c "-"
  /\ Ascii.eqb (lower c) "+" = Ascii.eqb c "+"
  /\ Ascii.eqb (lower c) "0" = Ascii.eqb c "0"
  /\ Ascii.eqb (lower c) "x" = Ascii.eqb c "x" || Ascii.eqb c "X".
Proof.
  pose proof (char_cases
    (fun c =>
       match digit_value (lower c), digit_value c with
       | Some a, Some b => a =? b
       | None, None => true
       | _, _ => false
       end
       && Bool.eqb (isspace (lower c)) (isspace c)
       && Bool.eqb (Ascii.eqb (lower c) NUL) (Ascii.eqb c NUL)
       && Bool.eqb (Ascii.eqb (lower c) "-") (Ascii.eqb c "-")
       && Bool.eqb (Ascii.eqb (lower c) "+") (Ascii.eqb c "+")
       && Bool.eqb (Ascii.eqb (lower c) "0") (Ascii.eqb c "0")
       && Bool.eqb (Ascii.eqb (lower c) "x") (Ascii.eqb c "x" || Ascii.eqb c "X"))
    ltac:(vm_compute; reflexivity) c) as H.
  cbv beta in H.
  apply andb_true_iff in H. destruct H as [H Hx].
  apply andb_true_iff in H. destruct H as [H H0].
  apply andb_true_iff in H. destruct H as [H Hp].
  apply andb_true_iff in H. destruct H as [H Hm].
  apply andb_true_iff in H. destruct H as [H Hn].
  apply andb_true_iff in H. destruct H as [Hd Hs].
  apply Bool.eqb_prop in Hx, H0, Hp, Hm, Hn, Hs.
  repeat split; try assumption.
  destruct (digit_value (lower c)), (digit_value c); try discriminate; [|reflexivity].
  apply Z.eqb_eq in Hd. congruence.
Qed.

Lemma c_str_lower s : c_str (map lower s) = map lower (c_str s).
Proof.
  induction s as [|c s IH]; [reflexivity|]. cbn [map c_str].
  destruct (lower_facts c) as (_ & _ & -> & _).
  destruct (Ascii.eqb c NUL); [reflexivity|]. cbn [map]. rewrite IH. reflexivity.
Qed.

Lemma hex_digits_lower s : forall acc, hex_digits acc (map lower s) = hex_digits acc s.
Proof.
  induction s as [|c s IH]; intros acc; [reflexivity|]. cbn [map hex_digits].
  destruct (lower_facts c) as (-> & _).
  destruct (digit_value c); [apply IH | reflexivity].
Qed.

Lemma skip_spaces_lower s : skip_spaces (map lower s) = map lower (skip_spaces s).
Proof.
  induction s as [|c s IH]; [reflexivity|]. cbn [map skip_spaces].
  destruct (lower_facts c) as (_ & -> & _).
  destruct (isspace c); [apply IH | reflexivity].
Qed.

Lemma eqb_char c d : Ascii.eqb c d = true -> c = d.
Proof. apply Ascii.eqb_eq. Qed.

(** The sign and the prefix of [strtol16], found by tests on characters. *)
Lemma strtol16_tests s :
  strtol16 s
  = let s1 := skip_spaces s in
    let neg := match s1 with c :: _ => Ascii.eqb c "-" | [] => false end in
    let s2 := match s1 with
              | c :: r => if Ascii.eqb c "-" || Ascii.eqb c "+" then r else s1
              | [] => s1
              end in
    let s3 := match s2 with
              | a :: b :: r =>
                  if Ascii.eqb a "0" && (Ascii.eqb b "x" || Ascii.eqb b "X") then r else s2
              | _ => s2
              end in
    if neg then Z.max LONG_MIN (- hex_digits 0 s3) else Z.min LONG_MAX (hex_digits 0 s3).
Proof.
  unfold strtol16. cbv zeta.
  assert (Hprefix : forall s2,
             match s2 with
             | "0"%char :: "x"%char :: r => r
             | "0"%char :: "X"%char :: r => r
             | _ => s2
             end
             = match s2 with
               | a :: b :: r =>
                   if Ascii.eqb a "0" && (Ascii.eqb b "x" || Ascii.eqb b "X") then r else s2
               | _ => s2
               end).
  { intros s2. destruct s2 as [|a [|b r]].
    - reflexivity.
    - destruct a as [[|] [|] [|] [|] [|] [|] [|] [|]]; reflexivity.
    - destruct a as [[|] [|] [|] [|] [|] [|] [|] [|]]; try reflexivity.
      destruct b as [[|] [|] [|] [|] [|] [|] [|] [|]]; reflexivity. }
  assert (Hsign : forall s1,
             match s1 with
             | "-"%char :: r => (true, r)
             | "+"%char :: r => (false, r)
             | _ => (false, s1)
             end
             = (match s1 with c :: _ => Ascii.eqb c "-" | [] => false end,
                match s1 with
                | c :: r => if Ascii.eqb c "-" || Ascii.eqb c "+" then r else s1
                | [] => s1
                end)).
  { intros s1. destruct s1 as [|c r]; [reflexivity|].
    destruct c as [[|] [|] [|] [|] [|] [|] [|] [|]]; reflexivity. }
  rewrite Hsign, Hprefix. reflexivity.
Qed.

(** [strtol] reads the small and the capital digits alike. *)
Lemma strtol16_lower s : strtol16 (map lower s) = strtol16 s.
Proof.
  rewrite !strtol16_tests. cbv zeta. rewrite skip_spaces_lower.
  assert (Hprefix : forall s2,
             hex_digits 0 match map lower s2 with
                          | a :: b :: r =>
                              if Ascii.eqb a "0" && (Ascii.eqb b "x" || Ascii.eqb b "X")
                              then r else map lower s2
                          | _ => map lower s2
                          end
             = hex_digits 0 match s2 with
                            | a :: b :: r =>
                                if Ascii.eqb a "0" && (Ascii.eqb b "x" || Ascii.eqb b "X")
                                then r else s2
                            | _ => s2
                            end).
  { intros s2. destruct s2 as [|a [|b r]]; try apply (hex_digits_lower _ 0).
    cbn [map]. destruct (lower_facts a) as (_ & _ & _ & _ & _ & -> & _).
    destruct (lower_facts b) as (_ & _ & _ & _ & _ & _ & Hx).
    assert (HX : Ascii.eqb (lower b) "X" = false).
    { pose proof (char_cases (fun c => negb (Ascii.eqb (lower c) "X"))
                    ltac:(vm_compute; reflexivity) b) as H.
      apply negb_true_iff in H. exact H. }
    rewrite Hx, HX, orb_false_r.
    destruct (Ascii.eqb a "0" && (Ascii.eqb b "x" || Ascii.eqb b "X")).
    - apply hex_digits_lower.
    - apply (hex_digits_lower (a :: b :: r) 0). }
  destruct (skip_spaces s) as [|c r]; [reflexivity|]. cbn [map].
  destruct (lower_facts c) as (_ & _ & _ & -> & -> & _).
  destruct (Ascii.eqb c "-" || Ascii.eqb c "+").
  - rewrite Hprefix. reflexivity.
  - pose proof (Hprefix (c :: r)) as Hp. cbn [map] in Hp. cbv iota in Hp |- *.
    rewrite Hp. reflexivity.
Qed.

Lemma substring_lower s left right :
  substring (map lower s) left right = map lower (substring s left right).
Proof.
  unfold substring. rewrite <- firstn_map, <- skipn_map. reflexivity.
Qed.

Lemma hex_byte_at_lower s i : hex_byte_at (map lower s) i = hex_byte_at s i.
Proof.
  unfold hex_byte_at. rewrite substring_lower, c_str_lower, strtol16_lower. reflexivity.
Qed.

Lemma iterate_ext {S : Type} (body body' : Z -> S -> M S) :
  (forall i s, body i s = body' i s) ->
  forall n i step s, iterate n i step body s = iterate n i step body' s.
Proof.
  intros H n. induction n as [|n IH]; intros i step s; cbn [iterate]; [reflexivity|].
  rewrite H. unfold bind. rewrite !IH. reflexivity.
Qed.

Section Case.

Context {aes128 : BlockCipher}.
Variable stray : Z -> Z.

Lemma decryptMessage_lower s :
  decryptMessage stray (map lower s) = decryptMessage stray s.
Proof.
  unfold decryptMessage. rewrite len_map.
  destruct (negb (len s mod 32 =? 0)); [reflexivity|].
  unfold for_loop at 1 5.
  rewrite (iterate_ext
             (fun i cipher =>
                store cipher i
                  (uint8_t (strtol16 (c_str (substring (map lower s) (i * 2) (i * 2 + 2))))))
             (fun i cipher =>
                store cipher i (uint8_t (strtol16 (c_str (substring s (i * 2) (i * 2 + 2))))))).
  - reflexivity.
  - intros i cipher. rewrite substring_lower, c_str_lower, strtol16_lower. reflexivity.
Qed.

Lemma isxdigit_lower s : forallb isxdigit (map lower s) = forallb isxdigit s.
Proof.
  induction s as [|c s IH]; [reflexivity|]. cbn [map forallb]. rewrite IH. f_equal.
  unfold isxdigit. destruct (lower_facts c) as (-> & _). reflexivity.
Qed.

End Case.

(** ** The codec *)

(** [decryptMessage] reads the hexadecimal digits through [strtol], which
    takes small and capital letters alike, and [loraTask] tests them with
    [isxdigit], which does too: a line in small letters is decoded exactly
    as the same line in capitals, and the ciphertext of a text of at most
    239 bytes, put in small letters, still decrypts to the text. *)
Theorem decryptMessage_ignores_case {aes128 : BlockCipher} {laws : BlockCipherLaws aes128}
    (stray stray' : Z -> Z) (P : ArduinoString) :
  len P <= 239 ->
  (forall s, decryptMessage stray' (map lower s) = decryptMessage stray' s)
  /\ (forall s, forallb isxdigit (map lower s) = forallb isxdigit s)
  /\ value (decryptMessage stray' (map lower (value (encryptMessage stray P)))) = P.
Proof.
  intros HL. split; [apply decryptMessage_lower|]. split; [apply isxdigit_lower|].
  rewrite decryptMessage_lower.
  rewrite (decryptMessage_encryptMessage stray stray' P HL). reflexivity.
Qed.

Lemma decryptMessage_ignores_case_witness :
  value (decryptMessage (aes128 := AES128_cipher) (fun _ => 0)
           (map lower (value (encryptMessage (aes128 := AES128_cipher) (fun _ => 0)
                                (lit "Ola")))))
  = lit "Ola".
Proof.
  refine (proj2 (proj2 (decryptMessage_ignores_case (laws := AES128_laws)
                          (fun _ => 0) (fun _ => 0) (lit "Ola") _))).
  vm_compute. discriminate.
Defined.

(** [decryptMessage] does not check the padding.  Any string of 32 to 480
    characters, a multiple of 32, digits or not, is decoded without an error:
    the cipher runs once per 32 characters and the text returned is the
    decrypted bytes less the number held by the last of them, or all of them
    when that number is above 16, so that it is at most 16 bytes shorter
    than the ciphertext. *)
Theorem decryptMessage_strips_at_most_a_block {aes128 : BlockCipher} (stray : Z -> Z)
    (s : ArduinoString) :
  len s mod 32 = 0 -> 0 < len s < 512 ->
  len s / 2 - 16 <= len (value (decryptMessage stray s)) <= len s / 2
  /\ cipher_calls (decryptMessage stray s) = Z.to_nat (len s / 32)
  /\ memory_safe (decryptMessage stray s) = true.
Proof.
  intros H32 Hlen.
  pose proof (decryptMessage_run stray s H32) as Hrun. cbv zeta in Hrun.
  destruct Hrun as (_ & Hl & Hpad & Hrun).
  assert (Hdiv : len s = 32 * (len s / 32)).
  { pose proof (Z.div_mod (len s) 32). lia. }
  assert (Hhalf : len s / 2 = 16 * (len s / 32)).
  { rewrite Hdiv at 1. replace (32 * (len s / 32)) with (16 * (len s / 32) * 2) by lia.
    apply Z.div_mul. lia. }
  assert (Hc : uint8_t (len s / 2) = len s / 2).
  { apply uint8_t_id. unfold is_byte. lia. }
  rewrite Hc in *.
  assert (Hn0 : (len s / 2 =? 0) = false) by (apply Z.eqb_neq; lia).
  rewrite Hn0, app_nil_r in Hrun.
  assert (H16 : len s / 2 / 16 = len s / 32).
  { rewrite Hhalf. rewrite Z.mul_comm. apply Z.div_mul. lia. }
  rewrite H16 in Hrun, Hl, Hpad.
  split; [|apply (cipher_calls_repeat _ _ (f_equal snd Hrun))].
  rewrite Hrun. unfold value in *. cbn [fst]. rewrite len_map. unfold len in *.
  rewrite length_firstn, Hl. lia.
Qed.

Lemma decryptMessage_strips_at_most_a_block_witness :
  cipher_calls (decryptMessage (aes128 := AES128_cipher) (fun _ => 0) (repeat "G"%char 64))
  = Z.to_nat (len (repeat "G"%char 64) / 32).
Proof.
  refine (proj1 (proj2 (decryptMessage_strips_at_most_a_block (aes128 := AES128_cipher)
                          (fun _ => 0) (repeat "G"%char 64) _ _)));
    vm_compute; [reflexivity | split; reflexivity].
Defined.
